(** * PoST initialization engine (fourierism/post): a shallow embedding

    The development follows the two Go sources of the repository:
    - [initialization/initialization.go]: the [Initializer] with its
      [Initialize], [Reset], [Status], [initFile], [verifyMetadata] and
      [saveMetadata] methods;
    - [cmd/postcli/main.go]: [parseFlags] and the provider loop of [main].

    Unsigned 64-bit values are integers of [Z] reduced modulo [2^64] after
    every arithmetic operation, byte slices are [list byte], the data
    directory is a finite map from file index to file content together with
    the metadata record, and every interaction with the outside (disk, work
    oracle, cancellation context) is appended to a trace. *)

From Stdlib Require Import ZArith List String Lia Bool DecimalString Permutation.
From Stdlib.Strings Require Import Byte Ascii.
From stdpp Require Import gmap strings list fin_maps.

Local Open Scope Z_scope.

(** ** Machine integers *)

Definition uint64 (x : Z) : Z := x mod 2 ^ 64.

(** Conversion to [uint32] keeps the low 32 bits. *)
Definition uint32 (x : Z) : Z := Z.land x (Z.ones 32).

(** Go's [int] on the 64-bit targets the tool is released for. *)
Definition int (x : Z) : Z := (x + 2 ^ 63) mod 2 ^ 64 - 2 ^ 63.

Definition MaxUint64 : Z := 2 ^ 64 - 1.
Definition MaxInt : Z := 2 ^ 63 - 1.

(** ** Package [bytes] *)

Module bytes.

Fixpoint Equal (a b : list byte) : bool :=
    match a, b with
    | [], [] => true
    | x :: a', y :: b' => Byte.eqb x y && Equal a' b'
    | _, _ => false
    end.

  (** Lexicographic comparison of the bytes as unsigned numbers; a proper
      prefix is smaller. The result is -1, 0 or 1. *)
Fixpoint Compare (a b : list byte) : Z :=
    match a, b with
    | [], [] => 0
    | [], _ :: _ => -1
    | _ :: _, [] => 1
    | x :: a', y :: b' =>
        match N.compare (Byte.to_N x) (Byte.to_N y) with
        | Lt => -1
        | Gt => 1
        | Eq => Compare a' b'
        end
    end.

End bytes.

(** ** Package [fmt]: the two verbs the engine uses *)

Module fmt.

Definition hexDigit (n : N) : ascii :=
    nth (N.to_nat n) (list_ascii_of_string "0123456789abcdef") "0"%char.

Definition hexByte (b : byte) : string :=
    String (hexDigit (Byte.to_N b / 16))
      (String (hexDigit (Byte.to_N b mod 16)) EmptyString).

  (** [fmt.Sprintf("%x", bs)] on a byte slice. *)
Fixpoint Sprintf_x (bs : list byte) : string :=
    match bs with
    | [] => EmptyString
    | b :: rest => String.append (hexByte b) (Sprintf_x rest)
    end.

  (** [fmt.Sprintf("%d", n)] on an unsigned value. *)
Definition Sprintf_d (n : Z) : string :=
    NilEmpty.string_of_uint (N.to_uint (Z.to_N n)).

End fmt.

(** ** Package [config] *)

Module config.

  (** Modelled from the spec: the constant [config.BitsPerLabel] is declared
      outside the two sources; the spec fixes 16 bytes per label. *)
Definition BitsPerLabel : Z := 128.

Record Config := { LabelsPerUnit : Z (* uint64 *) }.

Record InitOpts := {
    DataDir : string;
    NumUnits : Z;          (* uint32 *)
    MaxFileSize : Z;       (* uint64 *)
    ProviderID : string;
    ComputeBatchSize : Z;  (* uint64 *)
    FromFileIdx : Z;       (* int *)
    ToFileIdx : option Z   (* *int *)
  }.

Definition set_NumUnits (v : Z) (o : InitOpts) : InitOpts :=
    {| DataDir := DataDir o; NumUnits := v; MaxFileSize := MaxFileSize o;
       ProviderID := ProviderID o; ComputeBatchSize := ComputeBatchSize o;
       FromFileIdx := FromFileIdx o; ToFileIdx := ToFileIdx o |}.

Definition set_FromFileIdx (v : Z) (o : InitOpts) : InitOpts :=
    {| DataDir := DataDir o; NumUnits := NumUnits o; MaxFileSize := MaxFileSize o;
       ProviderID := ProviderID o; ComputeBatchSize := ComputeBatchSize o;
       FromFileIdx := v; ToFileIdx := ToFileIdx o |}.

Definition set_ToFileIdx (v : option Z) (o : InitOpts) : InitOpts :=
    {| DataDir := DataDir o; NumUnits := NumUnits o; MaxFileSize := MaxFileSize o;
       ProviderID := ProviderID o; ComputeBatchSize := ComputeBatchSize o;
       FromFileIdx := FromFileIdx o; ToFileIdx := v |}.

Definition set_ProviderID (v : string) (o : InitOpts) : InitOpts :=
    {| DataDir := DataDir o; NumUnits := NumUnits o; MaxFileSize := MaxFileSize o;
       ProviderID := v; ComputeBatchSize := ComputeBatchSize o;
       FromFileIdx := FromFileIdx o; ToFileIdx := ToFileIdx o |}.

Definition set_DataDir (v : string) (o : InitOpts) : InitOpts :=
    {| DataDir := v; NumUnits := NumUnits o; MaxFileSize := MaxFileSize o;
       ProviderID := ProviderID o; ComputeBatchSize := ComputeBatchSize o;
       FromFileIdx := FromFileIdx o; ToFileIdx := ToFileIdx o |}.

Definition set_MaxFileSize (v : Z) (o : InitOpts) : InitOpts :=
    {| DataDir := DataDir o; NumUnits := NumUnits o; MaxFileSize := v;
       ProviderID := ProviderID o; ComputeBatchSize := ComputeBatchSize o;
       FromFileIdx := FromFileIdx o; ToFileIdx := ToFileIdx o |}.

End config.

(** ** Package [shared] *)

Module shared.

Record PostMetadata := {
    NodeId : list byte;
    CommitmentAtxId : list byte;
    LabelsPerUnit : Z;        (* uint64 *)
    NumUnits : Z;             (* uint32 *)
    MaxFileSize : Z;          (* uint64 *)
    Nonce : option Z;         (* *uint64 *)
    LastPosition : option Z   (* *uint64 *)
  }.

Record ConfigMismatchError := {
    Param : string;
    Expected : string;
    Found : string;
    DataDir : string
  }.

End shared.

(** ** Package [oracle]: what a call to the work oracle returns *)

Module oracle.

Record WorkOracleResult := {
    Output : list byte;
    Nonce : option Z   (* *uint64 *)
  }.

End oracle.

(** ** The outside world *)

(** Names of the entries of the data directory: [shared.InitFileName i],
    the metadata file, and anything else (the key file for instance). *)
Inductive FileName :=
| InitFile (i : Z)
| MetadataFile
| OtherFile (name : string).

(** Every interaction of the engine with the outside, in the order it is
    performed. *)
Inductive Op :=
| OpCtxDone
| OpOracleNew (provider : string) (commitment difficulty : list byte)
| OpOracleClose
| OpPositions (startPosition endPosition : Z)
| OpNewLabelsWriter (fileIndex : Z)
| OpWriterNumLabelsWritten (fileIndex : Z)
| OpTruncate (fileIndex numLabels : Z)
| OpWrite (fileIndex : Z) (data : list byte)
| OpFlush (fileIndex : Z)
| OpClose (fileIndex : Z)
| OpSaveMetadata (m : shared.PostMetadata)
| OpLoadMetadata
| OpDiskNumLabelsWritten
| OpDiskNumFilesWritten
| OpReadDir
| OpInfo (name : FileName)
| OpRemove (name : FileName).

Inductive error :=
| ErrAlreadyInitializing
| ErrCannotResetWhileInitializing
| ErrStateMetadataFileMissing
| ErrNoNonceFound                                (* fmt.Errorf("no nonce found") *)
| ErrCanceled                                    (* ctx.Err() *)
| ErrConfigMismatch (e : shared.ConfigMismatchError)
| ErrOption (msg : string)                       (* errors.New / fmt.Errorf of the options *)
| ErrDeleteFile (name : FileName) (cause : error) (* "failed to delete file (%v): %w" *)
| ErrIO (op : Op)                                (* the operating system refused [op] *)
| ErrOracle (code : Z).                          (* an error of the work oracle *)

Record filesLayout := {
  NumFiles : Z;            (* uint *)
  FileNumLabels : Z;       (* uint64 *)
  LastFileNumLabels : Z    (* uint64 *)
}.

(** The collaborators that are declared outside the two sources: faults of
    the operating system and cancellation as functions of the history, the
    work oracle, and the helpers of the packages [config], [oracle] and
    [shared] together with the layout planner. *)
Record Env := {
  io_fault : list Op -> Op -> bool;
  ctx_done : list Op -> bool;
  work_oracle : string -> list byte -> list byte -> Z -> Z -> Z + oracle.WorkOracleResult;
  deriveFilesLayout : config.Config -> config.InitOpts -> filesLayout;
  config_Validate : config.Config -> config.InitOpts -> option error;
  CommitmentBytes : list byte -> list byte -> list byte;
  PowDifficulty : Z -> list byte
}.

(** ** The initializer and the data directory *)

Inductive status :=
| StatusNotStarted
| StatusStarted
| StatusInitializing
| StatusCompleted
| StatusError.

Record Initializer := {
  nodeId : list byte;
  commitmentAtxId : list byte;
  commitment : list byte;
  cfg : config.Config;
  opts : config.InitOpts;
  nonceValue : option (list byte);
  nonce : option Z;
  lastPosition : option Z;
  numLabelsWritten : Z;
  mtx : bool;                        (* true while the lock is held *)
  powDifficultyFunc : Z -> list byte
}.

Record Disk := {
  labelFiles : gmap Z (list byte);
  metadataFile : option shared.PostMetadata;
  otherFiles : list string
}.

Record State := {
  init : Initializer;
  disk : Disk;
  trace : list Op
}.

Definition with_init (f : Initializer -> Initializer) (s : State) : State :=
  {| init := f (init s); disk := disk s; trace := trace s |}.

Definition with_disk (f : Disk -> Disk) (s : State) : State :=
  {| init := init s; disk := f (disk s); trace := trace s |}.

Definition set_mtx (b : bool) (i : Initializer) : Initializer :=
  {| nodeId := nodeId i; commitmentAtxId := commitmentAtxId i; commitment := commitment i;
     cfg := cfg i; opts := opts i; nonceValue := nonceValue i; nonce := nonce i;
     lastPosition := lastPosition i; numLabelsWritten := numLabelsWritten i;
     mtx := b; powDifficultyFunc := powDifficultyFunc i |}.

Definition set_nonceValue (v : option (list byte)) (i : Initializer) : Initializer :=
  {| nodeId := nodeId i; commitmentAtxId := commitmentAtxId i; commitment := commitment i;
     cfg := cfg i; opts := opts i; nonceValue := v; nonce := nonce i;
     lastPosition := lastPosition i; numLabelsWritten := numLabelsWritten i;
     mtx := mtx i; powDifficultyFunc := powDifficultyFunc i |}.

Definition set_nonce (v : option Z) (i : Initializer) : Initializer :=
  {| nodeId := nodeId i; commitmentAtxId := commitmentAtxId i; commitment := commitment i;
     cfg := cfg i; opts := opts i; nonceValue := nonceValue i; nonce := v;
     lastPosition := lastPosition i; numLabelsWritten := numLabelsWritten i;
     mtx := mtx i; powDifficultyFunc := powDifficultyFunc i |}.

Definition set_lastPosition (v : option Z) (i : Initializer) : Initializer :=
  {| nodeId := nodeId i; commitmentAtxId := commitmentAtxId i; commitment := commitment i;
     cfg := cfg i; opts := opts i; nonceValue := nonceValue i; nonce := nonce i;
     lastPosition := v; numLabelsWritten := numLabelsWritten i;
     mtx := mtx i; powDifficultyFunc := powDifficultyFunc i |}.

Definition set_numLabelsWritten (v : Z) (i : Initializer) : Initializer :=
  {| nodeId := nodeId i; commitmentAtxId := commitmentAtxId i; commitment := commitment i;
     cfg := cfg i; opts := opts i; nonceValue := nonceValue i; nonce := nonce i;
     lastPosition := lastPosition i; numLabelsWritten := v;
     mtx := mtx i; powDifficultyFunc := powDifficultyFunc i |}.

Definition set_labelFiles (m : gmap Z (list byte)) (d : Disk) : Disk :=
  {| labelFiles := m; metadataFile := metadataFile d; otherFiles := otherFiles d |}.

Definition set_metadataFile (m : option shared.PostMetadata) (d : Disk) : Disk :=
  {| labelFiles := labelFiles d; metadataFile := m; otherFiles := otherFiles d |}.

(** ** Computations of the engine

    A method either returns a value, returns an error, panics, or is still
    running when the observation stops ([Timeout]: the fuel of a loop ran
    out, which is also how a killed process looks). *)

Inductive res (A : Type) :=
| Val (a : A)
| Err (e : error)
| Panic
| Timeout.
Arguments Val {A} a.
Arguments Err {A} e.
Arguments Panic {A}.
Arguments Timeout {A}.

Definition M (A : Type) : Type := State -> res A * State.

Definition ret {A} (a : A) : M A := fun s => (Val a, s).

Definition bind {A B} (m : M A) (k : A -> M B) : M B := fun s =>
  match m s with
  | (Val a, s') => k a s'
  | (Err e, s') => (Err e, s')
  | (Panic, s') => (Panic, s')
  | (Timeout, s') => (Timeout, s')
  end.

Notation "'do' x <- m ; k" := (bind m (fun x => k))
  (at level 10, x name, m at level 100, k at level 200).
Notation "'do_' m ; k" := (bind m (fun _ => k))
  (at level 10, m at level 100, k at level 200).

Definition fail {A} (e : error) : M A := fun s => (Err e, s).
Definition panic {A} : M A := fun s => (Panic, s).
Definition timeout {A} : M A := fun s => (Timeout, s).
Definition get : M State := fun s => (Val s, s).
Definition modify (f : State -> State) : M unit := fun s => (Val tt, f s).

(** [v, err := m]: the error becomes a value the caller inspects. *)
Definition try {A} (m : M A) : M (error + A) := fun s =>
  match m s with
  | (Val a, s') => (Val (inr a), s')
  | (Err e, s') => (Val (inl e), s')
  | (Panic, s') => (Panic, s')
  | (Timeout, s') => (Timeout, s')
  end.

(** A call statement whose error result is dropped. *)
Definition discard (m : M unit) : M unit := fun s =>
  match m s with
  | (Err _, s') => (Val tt, s')
  | r => r
  end.

(** [defer cleanup] followed by [body]: the cleanup runs when the body
    returns or panics, and its own result is dropped. *)
Definition defer {A} (cleanup : M unit) (body : M A) : M A := fun s =>
  match body s with
  | (Timeout, s') => (Timeout, s')
  | (r, s') => (r, snd (cleanup s'))
  end.

Definition log (op : Op) : M unit :=
  modify (fun s => {| init := init s; disk := disk s; trace := trace s ++ [op] |}).

Definition io (env : Env) (op : Op) : M unit := fun s =>
  let s' := {| init := init s; disk := disk s; trace := trace s ++ [op] |} in
  if io_fault env (trace s) op then (Err (ErrIO op), s') else (Val tt, s').

(** ** Metadata verification (pure) *)

Definition mismatch (param expected found : string) (i : Initializer) : error :=
  ErrConfigMismatch
    {| shared.Param := param; shared.Expected := expected; shared.Found := found;
       shared.DataDir := config.DataDir (opts i) |}.

Definition verifyMetadata (i : Initializer) (m : shared.PostMetadata) : option error :=
  if negb (bytes.Equal (nodeId i) (shared.NodeId m)) then
    Some (mismatch "NodeId" (fmt.Sprintf_x (nodeId i)) (fmt.Sprintf_x (shared.NodeId m)) i)
  else if negb (bytes.Equal (commitmentAtxId i) (shared.CommitmentAtxId m)) then
    Some (mismatch "CommitmentAtxId" (fmt.Sprintf_x (commitmentAtxId i))
            (fmt.Sprintf_x (shared.CommitmentAtxId m)) i)
  else if negb (config.LabelsPerUnit (cfg i) =? shared.LabelsPerUnit m) then
    Some (mismatch "LabelsPerUnit" (fmt.Sprintf_d (config.LabelsPerUnit (cfg i)))
            (fmt.Sprintf_d (shared.LabelsPerUnit m)) i)
  else if negb (config.MaxFileSize (opts i) =? shared.MaxFileSize m) then
    Some (mismatch "MaxFileSize" (fmt.Sprintf_d (config.MaxFileSize (opts i)))
            (fmt.Sprintf_d (shared.MaxFileSize m)) i)
  else if config.NumUnits (opts i) >? shared.NumUnits m then
    Some (mismatch "NumUnits" (String.append ">= " (fmt.Sprintf_d (config.NumUnits (opts i))))
            (fmt.Sprintf_d (shared.NumUnits m)) i)
  else None.

(** The record [saveMetadata] builds from the initializer. *)
Definition metadataOf (i : Initializer) : shared.PostMetadata :=
  {| shared.NodeId := nodeId i;
     shared.CommitmentAtxId := commitmentAtxId i;
     shared.LabelsPerUnit := config.LabelsPerUnit (cfg i);
     shared.NumUnits := config.NumUnits (opts i);
     shared.MaxFileSize := config.MaxFileSize (opts i);
     shared.Nonce := nonce i;
     shared.LastPosition := lastPosition i |}.

(** Slice expressions [s[k:]] and [s[:n]]; out of range they panic. The
    capacity of a slice is taken to be its length. *)
Definition slice_from (s : list byte) (k : Z) : option (list byte) :=
  if k <=? Z.of_nat (length s) then Some (drop (Z.to_nat k) s) else None.

Definition slice_to (s : list byte) (n : Z) : option (list byte) :=
  if n <=? Z.of_nat (length s) then Some (take (Z.to_nat n) s) else None.

Definition fileBytes (d : Disk) (i : Z) : list byte := default [] (labelFiles d !! i).

Definition totalBytes (d : Disk) : Z :=
  map_fold (fun _ content acc => acc + Z.of_nat (length content)) 0 (labelFiles d).

(** Modelled from the spec: [shared.NumLabels] is declared outside the two
    sources; a label takes [BitsPerLabel / 8 = 16] bytes of a file. *)
Definition NumLabels (numBytes : Z) : Z := numBytes * 8 / config.BitsPerLabel.

Section Engine.

Variable env : Env.

  (** *** Locking: [sync.RWMutex.TryLock] and [Unlock] *)

Definition TryLock : M bool := fun s =>
    if mtx (init s) then (Val false, s) else (Val true, with_init (set_mtx true) s).

Definition Unlock : M unit := modify (with_init (set_mtx false)).

  (** *** Cancellation and the work oracle *)

Definition ctx_Done : M bool := fun s =>
    (Val (ctx_done env (trace s)),
     {| init := init s; disk := disk s; trace := trace s ++ [OpCtxDone] |}).

  (** The [Positions] method of a work oracle: the result, or the code of
      the oracle's own error. *)
Definition WorkOracle : Type := Z -> Z -> Z + oracle.WorkOracleResult.

Definition oracle_New (provider : string) (commitment difficulty : list byte) : M WorkOracle :=
    do_ io env (OpOracleNew provider commitment difficulty);
    ret (work_oracle env provider commitment difficulty).

Definition wo_Close : M unit := log OpOracleClose.

Definition wo_Positions (wo : WorkOracle) (startPosition endPosition : Z)
    : M oracle.WorkOracleResult :=
    do_ log (OpPositions startPosition endPosition);
    match wo startPosition endPosition with
    | inl code => fail (ErrOracle code)
    | inr r => ret r
    end.

  (** *** The label writer, the metadata store and the disk state

      These belong to the repository but not to the two sources. A label
      file is the concatenation of its labels with no header, the
      written-label count is computed from the file sizes, saving overwrites
      the record of the directory, and an operation the operating system
      refuses leaves the directory as it was. [Write] reaches the file at
      once: the buffer that [Flush] empties is not modelled. *)

  (** Modelled from the spec: [persistence.NewLabelsWriter] opens the label
      file of an index, creating it empty when it does not exist. *)
Definition NewLabelsWriter (fileIndex : Z) : M unit :=
    do_ io env (OpNewLabelsWriter fileIndex);
    modify (with_disk (fun d =>
      set_labelFiles (<[fileIndex := fileBytes d fileIndex]> (labelFiles d)) d)).

  (** Modelled from the spec: [LabelsWriter.NumLabelsWritten] is the size of
      the file divided by the size of a label. *)
Definition writer_NumLabelsWritten (fileIndex : Z) : M Z :=
    do_ io env (OpWriterNumLabelsWritten fileIndex);
    do s <- get;
    ret (NumLabels (Z.of_nat (length (fileBytes (disk s) fileIndex)))).

  (** Modelled from the spec: [LabelsWriter.Truncate] sets the size of the file
      to the given number of labels. *)
Definition writer_Truncate (fileIndex numLabels : Z) : M unit :=
    do_ io env (OpTruncate fileIndex numLabels);
    modify (with_disk (fun d =>
      set_labelFiles
        (<[fileIndex := resize (Z.to_nat (numLabels * config.BitsPerLabel / 8)) x00%byte
                          (fileBytes d fileIndex)]> (labelFiles d)) d)).

  (** Modelled from the spec: [LabelsWriter.Write] appends the bytes to the file. *)
Definition writer_Write (fileIndex : Z) (data : list byte) : M unit :=
    do_ io env (OpWrite fileIndex data);
    modify (with_disk (fun d =>
      set_labelFiles (<[fileIndex := fileBytes d fileIndex ++ data]> (labelFiles d)) d)).

  (** Modelled from the spec: [LabelsWriter.Flush] makes the written bytes durable. *)
Definition writer_Flush (fileIndex : Z) : M unit := io env (OpFlush fileIndex).

  (** Modelled from the spec: [LabelsWriter.Close] closes the file. *)
Definition writer_Close (fileIndex : Z) : M unit := io env (OpClose fileIndex).

  (** Modelled from the spec: [SaveMetadata] overwrites the metadata record of
      the directory. *)
Definition SaveMetadata (dir : string) (v : shared.PostMetadata) : M unit :=
    do_ io env (OpSaveMetadata v);
    modify (with_disk (set_metadataFile (Some v))).

  (** Modelled from the spec: [LoadMetadata] reads the record and fails with
      [ErrStateMetadataFileMissing] when there is none. *)
Definition LoadMetadata (dir : string) : M shared.PostMetadata :=
    do_ io env OpLoadMetadata;
    do s <- get;
    match metadataFile (disk s) with
    | Some m => ret m
    | None => fail ErrStateMetadataFileMissing
    end.

  (** Modelled from the spec: [DiskState.NumLabelsWritten] counts the labels
      of all label files from their sizes. *)
Definition diskState_NumLabelsWritten : M Z :=
    do_ io env OpDiskNumLabelsWritten;
    do s <- get;
    ret (NumLabels (totalBytes (disk s))).

  (** Modelled from the spec: [DiskState.NumFilesWritten] counts the label
      files of the directory. *)
Definition diskState_NumFilesWritten : M Z :=
    do_ io env OpDiskNumFilesWritten;
    do s <- get;
    ret (Z.of_nat (size (labelFiles (disk s)))).

  (** *** Package [os] on the data directory: [os.Remove] fails on a name
      that does not exist, [os.ReadDir] lists the entries, [DirEntry.Info]
      can fail, and [shared.IsInitFile] recognises the label files. *)

Definition os_Remove (name : FileName) : M unit :=
    do_ io env (OpRemove name);
    do s <- get;
    match name with
    | InitFile i =>
        match labelFiles (disk s) !! i with
        | Some _ => modify (with_disk (fun d => set_labelFiles (delete i (labelFiles d)) d))
        | None => fail (ErrIO (OpRemove name))
        end
    | MetadataFile =>
        match metadataFile (disk s) with
        | Some _ => modify (with_disk (set_metadataFile None))
        | None => fail (ErrIO (OpRemove name))
        end
    | OtherFile n =>
        if bool_decide (n ∈ otherFiles (disk s)) then
          modify (with_disk (fun d =>
            {| labelFiles := labelFiles d; metadataFile := metadataFile d;
               otherFiles := filter (fun x => x <> n) (otherFiles d) |}))
        else fail (ErrIO (OpRemove name))
    end.

Definition os_ReadDir : M (list FileName) :=
    do_ io env OpReadDir;
    do s <- get;
    ret ((OtherFile <$> otherFiles (disk s))
         ++ (InitFile <$> (fst <$> map_to_list (labelFiles (disk s))))
         ++ (match metadataFile (disk s) with Some _ => [MetadataFile] | None => [] end)).

Definition file_Info (name : FileName) : M unit := io env (OpInfo name).

Definition IsInitFile (name : FileName) : bool :=
    match name with InitFile _ => true | _ => false end.

Definition isMetadataFileName (name : FileName) : bool :=
    match name with MetadataFile => true | _ => false end.

  (** *** Methods of the initializer *)

Definition saveMetadata : M unit :=
    do s <- get;
    SaveMetadata (config.DataDir (opts (init s))) (metadataOf (init s)).

Definition loadMetadata : M shared.PostMetadata :=
    do s <- get;
    LoadMetadata (config.DataDir (opts (init s))).

Definition RemoveFile (name : FileName) : M unit := fun s =>
    match os_Remove name s with
    | (Err e, s') => (Err (ErrDeleteFile name e), s')
    | r => r
    end.

  (** The block of [initFile] that retains the best nonce: the candidate is
      the 16 bytes of the output at the reported position. *)
Definition initFile_nonce (res : oracle.WorkOracleResult) (startPosition : Z) : M unit :=
    match oracle.Nonce res with
    | None => ret tt
    | Some n =>
        match slice_from (oracle.Output res) (uint64 (uint64 (n - startPosition) * 16)) with
        | None => panic
        | Some tail =>
            match slice_to tail 16 with
            | None => panic
            | Some candidate =>
                do s <- get;
                if match nonceValue (init s) with
                   | None => true
                   | Some best => bytes.Compare candidate best <? 0
                   end
                then
                  do_ modify (with_init (set_nonceValue (Some candidate)));
                  do_ modify (with_init (set_nonce (Some n)));
                  discard saveMetadata
                else ret tt
            end
        end
    end.

  (** The batch loop of [initFile]; [batchSize] is the parameter the loop
      shrinks for the last batch. *)
Fixpoint initFile_loop (fuel : nat) (wo : WorkOracle)
      (fileIndex batchSize fileOffset fileNumLabels currentPosition : Z) : M unit :=
    match fuel with
    | O => timeout
    | S fuel' =>
        if currentPosition <? fileNumLabels then
          do stopped <- ctx_Done;
          if (stopped : bool) then
            do_ writer_Flush fileIndex;
            fail ErrCanceled
          else
            let remaining := uint64 (fileNumLabels - currentPosition) in
            let batchSize := if remaining <? batchSize then remaining else batchSize in
            let startPosition := uint64 (fileOffset + currentPosition) in
            let endPosition := uint64 (startPosition + batchSize - 1) in
            do res <- wo_Positions wo startPosition endPosition;
            do_ initFile_nonce res startPosition;
            do_ writer_Write fileIndex (oracle.Output res);
            do_ modify (with_init
                  (set_numLabelsWritten (uint64 (fileOffset + currentPosition + batchSize))));
            initFile_loop fuel' wo fileIndex batchSize fileOffset fileNumLabels
              (uint64 (currentPosition + batchSize))
        else ret tt
    end.

Definition initFile (fuel : nat) (wo : WorkOracle)
      (fileIndex batchSize fileOffset fileNumLabels : Z) (difficulty : list byte) : M unit :=
    let fileTargetPosition := uint64 (fileOffset + fileNumLabels) in
    do_ NewLabelsWriter fileIndex;
    defer (writer_Close fileIndex)
      (do numLabelsWritten <- writer_NumLabelsWritten fileIndex;
       if numLabelsWritten =? fileNumLabels then
         modify (with_init (set_numLabelsWritten fileTargetPosition))
       else if numLabelsWritten >? fileNumLabels then
         do_ writer_Truncate fileIndex fileNumLabels;
         modify (with_init (set_numLabelsWritten fileTargetPosition))
       else
         do_ initFile_loop fuel wo fileIndex batchSize fileOffset fileNumLabels numLabelsWritten;
         do_ writer_Flush fileIndex;
         do _ <- writer_NumLabelsWritten fileIndex;
         ret tt).

  (** [for i := int(layout.NumFiles); i < numFiles; i++]: [n] files from [i]. *)
Fixpoint removeRedundantFiles_loop (n : nat) (i : Z) : M unit :=
    match n with
    | O => ret tt
    | S n' =>
        do_ RemoveFile (InitFile i);
        removeRedundantFiles_loop n' (i + 1)
    end.

Definition removeRedundantFiles (layout : filesLayout) : M unit :=
    do numFiles <- diskState_NumFilesWritten;
    removeRedundantFiles_loop (Z.to_nat (numFiles - int (NumFiles layout))) (int (NumFiles layout)).

  (** [for i := 0; i < int(layout.NumFiles); i++]: [n] files from [i]; the
      index stays below [int(layout.NumFiles)], so it never wraps. *)
Fixpoint Initialize_files (fuel : nat) (wo : WorkOracle) (layout : filesLayout)
      (batchSize : Z) (difficulty : list byte) (n : nat) (i : Z) : M unit :=
    match n with
    | O => ret tt
    | S n' =>
        let fileOffset := uint64 (uint64 i * FileNumLabels layout) in
        let fileNumLabels :=
          if i =? int (int (NumFiles layout) - 1) then LastFileNumLabels layout
          else FileNumLabels layout in
        do_ initFile fuel wo i batchSize fileOffset fileNumLabels difficulty;
        Initialize_files fuel wo layout batchSize difficulty n' (i + 1)
    end.

  (** The search past the end of the label space:
      [for i := *init.lastPosition.Load(); i < math.MaxUint64; i += batchSize],
      followed by the [return fmt.Errorf("no nonce found")] after the loop. *)
Fixpoint Initialize_search (fuel : nat) (wo : WorkOracle) (batchSize i : Z) : M unit :=
    match fuel with
    | O => timeout
    | S fuel' =>
        if i <? MaxUint64 then
          do_ modify (with_init (set_lastPosition (Some i)));
          do stopped <- ctx_Done;
          if (stopped : bool) then fail ErrCanceled
          else
            do res <- wo_Positions wo i (uint64 (i + batchSize - 1));
            match oracle.Nonce res with
            | Some n => modify (with_init (set_nonce (Some n)))
            | None => Initialize_search fuel' wo batchSize (uint64 (i + batchSize))
            end
        else fail ErrNoNonceFound
    end.

  (** What [Initialize] does once every file has been handled. *)
Definition Initialize_finish (fuel : nat) (wo : WorkOracle) (batchSize numLabels : Z) : M unit :=
    do s1 <- get;
    match nonce (init s1) with
    | Some _ => ret tt
    | None =>
        do_ (match lastPosition (init s1) with
             | Some p =>
                 if p <? numLabels then modify (with_init (set_lastPosition (Some numLabels)))
                 else ret tt
             | None => modify (with_init (set_lastPosition (Some numLabels)))
             end);
        defer saveMetadata
          (do s2 <- get;
           match lastPosition (init s2) with
           | Some p => Initialize_search fuel wo batchSize p
           | None => panic
           end)
    end.

Definition Initialize_body (fuel : nat) : M unit :=
    do s <- get;
    let i0 := init s in
    let layout := deriveFilesLayout env (cfg i0) (opts i0) in
    do_ removeRedundantFiles layout;
    let numLabels := uint64 (config.NumUnits (opts i0) * config.LabelsPerUnit (cfg i0)) in
    let difficulty := powDifficultyFunc i0 numLabels in
    let batchSize := config.ComputeBatchSize (opts i0) in
    do wo <- oracle_New (config.ProviderID (opts i0)) (commitment i0) difficulty;
    defer wo_Close
      (do_ Initialize_files fuel wo layout batchSize difficulty
             (Z.to_nat (int (NumFiles layout))) 0;
       Initialize_finish fuel wo batchSize numLabels).

Definition Initialize (fuel : nat) : M unit :=
    do locked <- TryLock;
    if negb locked then fail ErrAlreadyInitializing
    else defer Unlock (Initialize_body fuel).

Fixpoint Reset_loop (files : list FileName) : M unit :=
    match files with
    | [] => ret tt
    | name :: rest =>
        do info <- try (file_Info name);
        match info with
        | inl _ => Reset_loop rest
        | inr _ =>
            if IsInitFile name || isMetadataFileName name then
              do_ RemoveFile name;
              Reset_loop rest
            else Reset_loop rest
        end
    end.

Definition Reset_body : M unit :=
    do files <- os_ReadDir;
    Reset_loop files.

Definition Reset : M unit :=
    do locked <- TryLock;
    if negb locked then fail ErrCannotResetWhileInitializing
    else defer Unlock Reset_body.

Definition Status : M status :=
    do locked <- TryLock;
    if negb locked then ret StatusInitializing
    else
      defer Unlock
        (do r <- try diskState_NumLabelsWritten;
         match r with
         | inl _ => ret StatusError
         | inr numLabelsWritten =>
             do s <- get;
             let target :=
               uint64 (uint64 (config.NumUnits (opts (init s)))
                       * uint64 (config.LabelsPerUnit (cfg (init s)))) in
             if numLabelsWritten =? target then ret StatusCompleted
             else if numLabelsWritten >? 0 then ret StatusStarted
             else ret StatusNotStarted
         end).

End Engine.

(** ** Construction of an initializer *)

Module options.

  (** The [option] struct the functional options fill in. *)
Record t := {
    nodeId : option (list byte);
    commitmentAtxId : option (list byte);
    commitment : list byte;
    cfg : option config.Config;
    initOpts : option config.InitOpts;
    powDifficultyFunc : Z -> list byte
  }.

End options.

Definition OptionFunc : Type := options.t -> error + options.t.

Definition WithNodeId (nodeId : list byte) : OptionFunc := fun o =>
  if negb (Z.of_nat (length nodeId) =? 32) then inl (ErrOption "invalid `id` length")
  else inr {| options.nodeId := Some nodeId;
              options.commitmentAtxId := options.commitmentAtxId o;
              options.commitment := options.commitment o;
              options.cfg := options.cfg o;
              options.initOpts := options.initOpts o;
              options.powDifficultyFunc := options.powDifficultyFunc o |}.

Definition WithCommitmentAtxId (id : list byte) : OptionFunc := fun o =>
  if negb (Z.of_nat (length id) =? 32) then inl (ErrOption "invalid `commitmentAtxId` length")
  else inr {| options.nodeId := options.nodeId o;
              options.commitmentAtxId := Some id;
              options.commitment := options.commitment o;
              options.cfg := options.cfg o;
              options.initOpts := options.initOpts o;
              options.powDifficultyFunc := options.powDifficultyFunc o |}.

Definition WithInitOpts (initOpts : config.InitOpts) : OptionFunc := fun o =>
  inr {| options.nodeId := options.nodeId o;
         options.commitmentAtxId := options.commitmentAtxId o;
         options.commitment := options.commitment o;
         options.cfg := options.cfg o;
         options.initOpts := Some initOpts;
         options.powDifficultyFunc := options.powDifficultyFunc o |}.

Definition WithConfig (c : config.Config) : OptionFunc := fun o =>
  inr {| options.nodeId := options.nodeId o;
         options.commitmentAtxId := options.commitmentAtxId o;
         options.commitment := options.commitment o;
         options.cfg := Some c;
         options.initOpts := options.initOpts o;
         options.powDifficultyFunc := options.powDifficultyFunc o |}.

(** The logger is not part of the model: [WithLogger] sets nothing else. *)
Definition WithLogger : OptionFunc := fun o => inr o.

(** [withDifficultyFunc]; [None] is the nil function. *)
Definition withDifficultyFunc (powDifficultyFunc : option (Z -> list byte)) : OptionFunc :=
  fun o =>
    match powDifficultyFunc with
    | None => inl (ErrOption "difficulty function is nil")
    | Some f =>
        inr {| options.nodeId := options.nodeId o;
               options.commitmentAtxId := options.commitmentAtxId o;
               options.commitment := options.commitment o;
               options.cfg := options.cfg o;
               options.initOpts := options.initOpts o;
               options.powDifficultyFunc := f |}
    end.

Fixpoint applyOptions (fs : list OptionFunc) (o : options.t) : error + options.t :=
  match fs with
  | [] => inr o
  | f :: rest =>
      match f o with
      | inl e => inl e
      | inr o' => applyOptions rest o'
      end
  end.

Section Construction.

Variable env : Env.

  (** [validate] followed by the construction of the struct. *)
Definition validate (o : options.t) : error + Initializer :=
    match options.nodeId o with
    | None => inl (ErrOption "`nodeId` is required")
    | Some nid =>
        match options.commitmentAtxId o with
        | None => inl (ErrOption "`commitmentAtxId` is required")
        | Some cid =>
            match options.cfg o with
            | None => inl (ErrOption "no config provided")
            | Some c =>
                match options.initOpts o with
                | None => inl (ErrOption "no init options provided")
                | Some io =>
                    match config_Validate env c io with
                    | Some e => inl e
                    | None =>
                        inr {| nodeId := nid; commitmentAtxId := cid;
                               commitment := CommitmentBytes env nid cid;
                               cfg := c; opts := io;
                               nonceValue := None; nonce := None; lastPosition := None;
                               numLabelsWritten := 0; mtx := false;
                               powDifficultyFunc := options.powDifficultyFunc o |}
                    end
                end
            end
        end
    end.

  (** The part of [NewInitializer] that runs once the struct exists. *)
Definition NewInitializer_resume : M unit :=
    do numLabelsWritten <- diskState_NumLabelsWritten env;
    do_ (if numLabelsWritten >? 0 then
           do m <- loadMetadata env;
           do s <- get;
           match verifyMetadata (init s) m with
           | Some e => fail e
           | None =>
               do_ modify (with_init (set_nonce (shared.Nonce m)));
               modify (with_init (set_lastPosition (shared.LastPosition m)))
           end
         else ret tt);
    saveMetadata env.

  (** [NewInitializer] on the data directory [d] after the history [t]:
      an error of the options, or the outcome of the resumption. *)
Definition NewInitializer (fs : list OptionFunc) (d : Disk) (t : list Op)
    : error + res unit * State :=
    match applyOptions fs
            {| options.nodeId := None; options.commitmentAtxId := None;
               options.commitment := []; options.cfg := None; options.initOpts := None;
               options.powDifficultyFunc := PowDifficulty env |} with
    | inl e => inl e
    | inr o =>
        match validate o with
        | inl e => inl e
        | inr i => inr (NewInitializer_resume {| init := i; disk := d; trace := t |})
        end
    end.

End Construction.

(** ** The command-line tool *)

Module strings.

  (** [strings.Split(s, ",")]: never empty. *)
Fixpoint Split (s : string) : list string :=
    match s with
    | EmptyString => [EmptyString]
    | String c rest =>
        match Split rest with
        | [] => [EmptyString]
        | h :: t => if Ascii.eqb c ","%char then EmptyString :: h :: t else String c h :: t
        end
    end.

End strings.

Module postcli.

  (** The values of the flags after [flag.Parse]. *)
Record flags := {
    datadir : string;
    maxFileSize : Z;     (* uint64 *)
    provider : string;
    labelsPerUnit : Z;   (* uint64 *)
    numUnits : Z;        (* uint64 *)
    fromFile : Z;        (* int *)
    toFile : Z           (* int *)
  }.

Definition parseFlags (f : flags) (cfg : config.Config) (opts : config.InitOpts)
    : config.Config * config.InitOpts :=
    let opts := config.set_DataDir (datadir f) opts in
    let opts := config.set_MaxFileSize (maxFileSize f) opts in
    let opts := config.set_ProviderID (provider f) opts in
    let cfg := {| config.LabelsPerUnit := labelsPerUnit f |} in
    let opts := config.set_FromFileIdx (fromFile f) opts in
    let opts := if negb (toFile f =? MaxInt) then config.set_ToFileIdx (Some (toFile f)) opts
                else opts in
    (cfg, config.set_NumUnits (uint32 (numUnits f)) opts).

  (** The provider loop of [main]: the options each [do] is started with.
      [ids] are the providers that remain, [w] is the loop index. *)
Fixpoint main_loop (ids : list string) (w ProviderIDs_len each_Files totalFiles : Z)
      (opts : config.InitOpts) : list config.InitOpts :=
    match ids with
    | [] => []
    | id :: rest =>
        let opts := config.set_FromFileIdx (int (w * each_Files)) opts in
        let i := if w =? int (ProviderIDs_len - 1) then int (totalFiles - 1)
                 else int (int (int (w + 1) * each_Files) - 1) in
        let opts := config.set_ToFileIdx (Some i) opts in
        let opts := config.set_ProviderID id opts in
        opts :: main_loop rest (int (w + 1)) ProviderIDs_len each_Files totalFiles opts
    end.

  (** [totalFiles] is the result of [opts.TotalFiles(cfg.LabelsPerUnit)],
      which is declared outside the two sources. *)
Definition main_launches (totalFiles : Z) (opts : config.InitOpts) : list config.InitOpts :=
    let ProviderIDs := strings.Split (config.ProviderID opts) in
    let ProviderIDs_len := Z.of_nat (length ProviderIDs) in
    let each_Files := int (Z.quot totalFiles ProviderIDs_len) in
    main_loop ProviderIDs 0 ProviderIDs_len each_Files totalFiles opts.

  (** The inclusive file range a launch is scoped to. *)
Definition range (o : config.InitOpts) : Z * Z :=
    (config.FromFileIdx o, default (-1) (config.ToFileIdx o)).

End postcli.

(** ** Concrete configurations used by the examples *)

Definition sample_id (b : byte) : list byte := replicate 32 b.

Definition sample_cfg : config.Config := {| config.LabelsPerUnit := 4 |}.

Definition sample_opts (numUnits batchSize : Z) : config.InitOpts :=
  {| config.DataDir := "data"; config.NumUnits := numUnits; config.MaxFileSize := 32;
     config.ProviderID := "0"; config.ComputeBatchSize := batchSize;
     config.FromFileIdx := 0; config.ToFileIdx := None |}.

Definition sample_init (numUnits batchSize : Z) : Initializer :=
  {| nodeId := sample_id x01; commitmentAtxId := sample_id x02; commitment := [];
     cfg := sample_cfg; opts := sample_opts numUnits batchSize;
     nonceValue := None; nonce := None; lastPosition := None;
     numLabelsWritten := 0; mtx := false; powDifficultyFunc := fun _ => [] |}.

Definition sample_metadata (numUnits : Z) : shared.PostMetadata :=
  metadataOf (sample_init numUnits 2).

Definition sample_flags (numUnits : Z) : postcli.flags :=
  {| postcli.datadir := "data"; postcli.maxFileSize := 32; postcli.provider := "0,1";
     postcli.labelsPerUnit := 4; postcli.numUnits := numUnits;
     postcli.fromFile := 0; postcli.toFile := MaxInt |}.

(** Modelled from the spec: the layout planner [deriveFilesLayout] is
    declared outside the two sources. A file holds as many labels as fit in
    max-file-size, the last file holds the remainder, and zero labels give
    zero files. *)
Definition planLayout (c : config.Config) (o : config.InitOpts) : filesLayout :=
  let maxFileNumLabels := uint64 (config.MaxFileSize o * 8) / config.BitsPerLabel in
  let numLabels := uint64 (config.LabelsPerUnit c * config.NumUnits o) in
  let numFiles := (numLabels + maxFileNumLabels - 1) / maxFileNumLabels in
  {| NumFiles := numFiles;
     FileNumLabels := maxFileNumLabels;
     LastFileNumLabels := numLabels - (numFiles - 1) * maxFileNumLabels |}.

(** A deterministic oracle for the examples: the label of position [p] is
    fifteen zero bytes followed by the byte [255 - p mod 256], and the
    oracle reports the first position of the range that [hit] selects. *)
Definition sample_label (p : Z) : list byte :=
  replicate 15 x00%byte ++ [default x00%byte (Byte.of_N (Z.to_N (255 - p mod 256)))].

Definition sample_oracle (hit : Z -> bool) (startPosition endPosition : Z)
  : Z + oracle.WorkOracleResult :=
  let positions := seqZ startPosition (endPosition - startPosition + 1) in
  inr {| oracle.Output := concat (sample_label <$> positions);
         oracle.Nonce := List.find hit positions |}.

Definition sample_env (fault : list Op -> Op -> bool) (stop : list Op -> bool)
    (hit : Z -> bool) : Env :=
  {| io_fault := fault;
     ctx_done := stop;
     work_oracle := fun _ _ _ => sample_oracle hit;
     deriveFilesLayout := planLayout;
     config_Validate := fun _ _ => None;
     CommitmentBytes := fun a b => a ++ b;
     PowDifficulty := fun _ => [] |}.

Definition no_fault : list Op -> Op -> bool := fun _ _ => false.
Definition never_stop : list Op -> bool := fun _ => false.
Definition no_hit : Z -> bool := fun _ => false.

Definition isSave (op : Op) : bool :=
  match op with OpSaveMetadata _ => true | _ => false end.

Definition isPositions (op : Op) : bool :=
  match op with OpPositions _ _ => true | _ => false end.

(** The directory of one unit once every label is written: the layout of
    [sample_opts] is two files of two labels. *)
Definition full_disk (m : option shared.PostMetadata) : Disk :=
  {| labelFiles := {[ 0 := concat (sample_label <$> seqZ 0 2);
                      1 := concat (sample_label <$> seqZ 2 2) ]};
     metadataFile := m; otherFiles := [] |}.

Definition sample_options (numUnits batchSize : Z) : list OptionFunc :=
  [WithConfig sample_cfg; WithInitOpts (sample_opts numUnits batchSize);
   WithNodeId (sample_id x01); WithCommitmentAtxId (sample_id x02)].

Definition quiet_env : Env := sample_env no_fault never_stop no_hit.

(** All four labels of one unit are on disk, and no nonce is retained in
    memory or in the metadata record. *)
Definition written_state : State :=
  {| init := sample_init 1 2;
     disk := full_disk (Some (sample_metadata 1));
     trace := [] |}.

(** The same directory seen by an instance whose lock is held. *)
Definition busy_state : State := with_init (set_mtx true) written_state.

(** A directory in which nothing is written yet but the metadata record. *)
Definition fresh_state : State :=
  {| init := sample_init 1 2;
     disk := {| labelFiles := ∅; metadataFile := Some (sample_metadata 1);
                otherFiles := [] |};
     trace := [] |}.

(** The operating system refuses every write of the metadata file. *)
Definition failing_save : list Op -> Op -> bool := fun _ op => isSave op.

Definition hit_at (p : Z) : Z -> bool := fun q => q =? p.

(** Every label is written, no nonce is retained, and the search has
    advanced to three positions before the end of the position space. *)
Definition exhausted_state : State :=
  {| init := set_lastPosition (Some (2 ^ 64 - 3)) (sample_init 1 2);
     disk := full_disk (Some (sample_metadata 1));
     trace := [] |}.

(** Cancellation arrives once the oracle has been called [n] times. *)
Definition stop_after (n : nat) : list Op -> bool :=
  fun h => (n <=? length (filter isPositions h))%nat.

(** A run cancelled during the search, after the fourth call of the oracle
    (two batches of files, two batches of search), and the instance a
    restarted process builds over the directory it leaves. *)
Definition cancelled_run : res unit * State :=
  Initialize (sample_env no_fault (stop_after 4) no_hit) 5 fresh_state.

Definition reopened_state (d : Disk) : State :=
  {| init := sample_init 1 2; disk := d; trace := [] |}.

(** A run observed, or killed, after three batches of the search. *)
Definition killed_run : res unit * State := Initialize quiet_env 3 fresh_state.

(** Both label files are on disk but the metadata file is missing. *)
Definition orphan_state : State :=
  {| init := sample_init 1 2; disk := full_disk None; trace := [] |}.

(** An instance asked for [numUnits] units over the directory of [stored]
    units. *)
Definition reopening (numUnits stored : Z) : State :=
  {| init := sample_init numUnits 2;
     disk := full_disk (Some (sample_metadata stored));
     trace := [] |}.

(** The first label of file 0 is written, the rest is not. *)
Definition partial_state : State :=
  {| init := sample_init 1 2;
     disk := {| labelFiles := {[ 0 := sample_label 0 ]};
                metadataFile := Some (sample_metadata 1); otherFiles := [] |};
     trace := [] |}.

(** The context is cancelled from the start. *)
Definition cancelled_env : Env := sample_env no_fault (fun _ => true) no_hit.

(** The oracle finds position 1 good. *)
Definition lucky_env : Env := sample_env no_fault never_stop (hit_at 1).

(** An oracle that answers every range with no output and no nonce. *)
Definition silent_oracle : Z -> Z -> Z + oracle.WorkOracleResult :=
  fun _ _ => inr {| oracle.Output := []; oracle.Nonce := None |}.

(** The complete directory with the key file of the command-line tool
    beside the label files. *)
Definition keyed_state : State :=
  {| init := sample_init 1 2;
     disk := {| labelFiles := labelFiles (full_disk None);
                metadataFile := Some (sample_metadata 1);
                otherFiles := ["key.bin"%string] |};
     trace := [] |}.

(** A layout of a single file of four labels. *)
Definition one_file_layout : filesLayout :=
  {| NumFiles := 1; FileNumLabels := 4; LastFileNumLabels := 4 |}.

(** The complete directory seen by an instance that retains nonce 1. *)
Definition completed_state : State :=
  {| init := set_nonce (Some 1) (sample_init 1 2);
     disk := full_disk (Some (sample_metadata 1));
     trace := [] |}.

(** The command line of [sample_flags] with both file flags given. *)
Definition ranged_flags (numUnits : Z) : postcli.flags :=
  {| postcli.datadir := "data"; postcli.maxFileSize := 32; postcli.provider := "0,1";
     postcli.labelsPerUnit := 4; postcli.numUnits := numUnits;
     postcli.fromFile := 5; postcli.toFile := 7 |}.

(** The options after a command line that names three providers. *)
Definition three_providers (o : config.InitOpts) : config.InitOpts :=
  config.set_ProviderID "0,1,2" o.

(** Cancellation arrives once the oracle has been called twice. *)
Definition cancelling_env : Env := sample_env no_fault (stop_after 2) no_hit.

(** An oracle whose labels grow with the position: the label of position
    [p] is fifteen zero bytes followed by the byte [p mod 256]. *)
Definition rising_label (p : Z) : list byte :=
  replicate 15 x00%byte ++ [default x00%byte (Byte.of_N (Z.to_N (p mod 256)))].

Definition rising_oracle (hit : Z -> bool) (startPosition endPosition : Z)
  : Z + oracle.WorkOracleResult :=
  let positions := seqZ startPosition (endPosition - startPosition + 1) in
  inr {| oracle.Output := concat (rising_label <$> positions);
         oracle.Nonce := List.find hit positions |}.

(** Positions 1 and 2 pass the threshold of the oracle. *)
Definition two_hits : Z -> bool := fun q => (q =? 1) || (q =? 2).

Definition rising_env (stop : list Op -> bool) : Env :=
  {| io_fault := no_fault;
     ctx_done := stop;
     work_oracle := fun _ _ _ => rising_oracle two_hits;
     deriveFilesLayout := planLayout;
     config_Validate := fun _ _ => None;
     CommitmentBytes := fun a b => a ++ b;
     PowDifficulty := fun _ => [] |}.

(** The operating system refuses to close any label file. *)
Definition failing_close : list Op -> Op -> bool :=
  fun _ op => match op with OpClose _ => true | _ => false end.

(** ** Predicates on computations

    [preserves Q m]: whatever [m] does, the state it ends in is related by
    [Q] to the state it started from. [raises E m]: every error [m] returns
    satisfies [E]. *)

Definition preserves {A} (Q : State -> State -> Prop) (m : M A) : Prop :=
  forall s r s', m s = (r, s') -> Q s s'.

Definition raises {A} (E : error -> Prop) (m : M A) : Prop :=
  forall s e s', m s = (Err e, s') -> E e.

(** ** Relations used by the invariants *)

(** A relation on initializers, read on the states that hold them. *)
Definition on_init (R : Initializer -> Initializer -> Prop) (s s' : State) : Prop :=
  R (init s) (init s').

(** The lock is in the same state. *)
Definition mtx_kept (i i' : Initializer) : Prop := mtx i' = mtx i.

(** The retained 16-byte value never grows and is never dropped. *)
Definition nonceValue_le (i i' : Initializer) : Prop :=
  forall v, nonceValue i = Some v ->
    exists v', nonceValue i' = Some v' /\ bytes.Compare v' v <= 0.

(** The value retained once the candidate [c] has been seen. *)
Definition retained (best : option (list byte)) (c : list byte) : option (list byte) :=
  match best with
  | None => Some c
  | Some b => if bytes.Compare c b <? 0 then Some c else Some b
  end.

(** The search position is the same. *)
Definition lastPosition_kept (i i' : Initializer) : Prop := lastPosition i' = lastPosition i.

(** The position of batch [k] of the search that starts at [p]. *)
Definition search_position (batchSize p : Z) (k : nat) : Z :=
  Nat.iter k (fun i => uint64 (i + batchSize)) p.

(** Every error but the one that reports an exhausted search. *)
Definition not_NoNonceFound (e : error) : Prop := e <> ErrNoNonceFound.

(** Nothing is persisted: the directory is the same and no save of the
    metadata is added to the history. *)
Definition nothing_saved (s s' : State) : Prop :=
  disk s' = disk s /\ filter isSave (trace s') = filter isSave (trace s).

(** The operating system refuses nothing and nobody cancels. *)
Definition no_faults (env : Env) : Prop := forall h op, io_fault env h op = false.
Definition never_cancelled (env : Env) : Prop := forall h, ctx_done env h = false.

(** A well-behaved oracle answers a range with 16 bytes per position and
    reports a position of the range, if any. *)
Definition oracle_ok (wo : Z -> Z -> Z + oracle.WorkOracleResult) : Prop :=
  forall a b, 0 <= a <= b ->
    exists r, wo a b = inr r /\
      Z.of_nat (length (oracle.Output r)) = 16 * (b - a + 1) /\
      forall n, oracle.Nonce r = Some n -> a <= n <= b.

(** Identity and configuration are the same. *)
Definition same_config (i i' : Initializer) : Prop :=
  nodeId i' = nodeId i /\ commitmentAtxId i' = commitmentAtxId i /\
  commitment i' = commitment i /\ cfg i' = cfg i /\ opts i' = opts i.

(** What [initFile] does once the written-label count [numLabelsWritten]
    of the file is known: its switch and what follows it. *)
Definition initFile_branch (env : Env) (fuel : nat)
    (wo : Z -> Z -> Z + oracle.WorkOracleResult)
    (fileIndex batchSize fileOffset fileNumLabels numLabelsWritten : Z) : M unit :=
  if numLabelsWritten =? fileNumLabels then
    modify (with_init (set_numLabelsWritten (uint64 (fileOffset + fileNumLabels))))
  else if numLabelsWritten >? fileNumLabels then
    do_ writer_Truncate env fileIndex fileNumLabels;
    modify (with_init (set_numLabelsWritten (uint64 (fileOffset + fileNumLabels))))
  else
    do_ initFile_loop env fuel wo fileIndex batchSize fileOffset fileNumLabels numLabelsWritten;
    do_ writer_Flush env fileIndex;
    do _ <- writer_NumLabelsWritten env fileIndex;
    ret tt.

(** A relation on directories, read on the states that hold them. *)
Definition on_disk (D : Disk -> Disk -> Prop) (s s' : State) : Prop :=
  D (disk s) (disk s').

(** Every file but [fileIndex] is as it was. *)
Definition others_kept (fileIndex : Z) (d d' : Disk) : Prop :=
  forall j, j <> fileIndex -> labelFiles d' !! j = labelFiles d !! j.

(** The content of [fileIndex] only grew at its end. *)
Definition only_appended (fileIndex : Z) (d d' : Disk) : Prop :=
  fileBytes d fileIndex `prefix_of` fileBytes d' fileIndex.

(** An oracle call for a range inside [[lo, hi)] of at most [size] positions. *)
Definition call_within (lo hi size : Z) (op : Op) : Prop :=
  match op with
  | OpPositions a b => lo <= a /\ a <= b /\ b < hi /\ b - a + 1 <= size
  | _ => True
  end.

(** The operations added to the history all satisfy [P]. *)
Definition adds_only (P : Op -> Prop) (s s' : State) : Prop :=
  exists rest, trace s' = trace s ++ rest /\ Forall P rest.

(** The names [os_ReadDir] lists for a directory. *)
Definition listing (d : Disk) : list FileName :=
  (OtherFile <$> otherFiles d)
  ++ (InitFile <$> (fst <$> map_to_list (labelFiles d)))
  ++ (match metadataFile d with Some _ => [MetadataFile] | None => [] end).

(** An operation that only inspects: no oracle call, no write, no
    truncation, no save and no removal. *)
Definition inspects (op : Op) : Prop :=
  match op with
  | OpPositions _ _ | OpWrite _ _ | OpTruncate _ _ | OpSaveMetadata _ | OpRemove _ => False
  | _ => True
  end.

(** The target of file [i] in a layout, as [Initialize] computes it. *)
Definition fileTarget (layout : filesLayout) (i : Z) : Z :=
  if i =? int (int (NumFiles layout) - 1) then LastFileNumLabels layout
  else FileNumLabels layout.

(** The option functions the package offers. *)
Inductive package_option : OptionFunc -> Prop :=
  | po_NodeId b : package_option (WithNodeId b)
  | po_CommitmentAtxId b : package_option (WithCommitmentAtxId b)
  | po_InitOpts o : package_option (WithInitOpts o)
  | po_Config c : package_option (WithConfig c)
  | po_Logger : package_option WithLogger
  | po_DifficultyFunc f : package_option (withDifficultyFunc f).

(** The identifiers an [option] struct holds, if any, have 32 bytes. *)
Definition ids_sized (o : options.t) : Prop :=
  forall b, options.nodeId o = Some b \/ options.commitmentAtxId o = Some b ->
            length b = 32%nat.

(** The number of commas of a string. *)
Fixpoint commas (s : string) : nat :=
  match s with
  | EmptyString => O
  | String c rest => if Ascii.eqb c ","%char then S (commas rest) else commas rest
  end.

(** ** The batches of the search past the end of the label space *)

(** The last position of batch [j]. *)
Definition batch_end (batchSize start : Z) (j : nat) : Z :=
  uint64 (search_position batchSize start j + batchSize - 1).

(** What batch [j] adds to the history: the poll of the context and the
    call of the oracle. *)
Definition batch_ops (batchSize start : Z) (j : nat) : list Op :=
  [OpCtxDone; OpPositions (search_position batchSize start j) (batch_end batchSize start j)].

(** The history of the first [n] batches. *)
Definition search_trace (batchSize start : Z) (n : nat) : list Op :=
  concat (batch_ops batchSize start <$> seq 0 n).

(** The oracle answers batch [j] without error and without a nonce. *)
Definition silent (wo : Z -> Z -> Z + oracle.WorkOracleResult) (batchSize start : Z)
    (j : nat) : Prop :=
  exists out,
    wo (search_position batchSize start j) (batch_end batchSize start j)
    = inr {| oracle.Output := out; oracle.Nonce := None |}.

(** The position in memory after [n] batches were begun: each batch stores
    its own position before anything else. *)
Definition stored_position (batchSize start : Z) (before : option Z) (n : nat) : option Z :=
  match n with
  | O => before
  | S m => Some (search_position batchSize start m)
  end.

(** How a search that called the oracle [n] times can end, and what it
    leaves in memory and in the history. *)
Definition search_outcome (env : Env) (wo : Z -> Z -> Z + oracle.WorkOracleResult)
    (batchSize start : Z) (fuel : nat) (s : State) (r : res unit) (s' : State) (n : nat)
    : Prop :=
  let pos := search_position batchSize start in
  match r with
  | Val _ =>
      (* the oracle reported a nonce in the last batch *)
      exists m res found,
        n = S m /\ (forall j, (j < m)%nat -> silent wo batchSize start j) /\
        wo (pos m) (batch_end batchSize start m) = inr res /\
        oracle.Nonce res = Some found /\
        nonce (init s') = Some found /\
        lastPosition (init s') = Some (pos m) /\
        trace s' = trace s ++ search_trace batchSize start n
  | Err ErrCanceled =>
      (* the context was done at the poll of batch [n] *)
      (forall j, (j < n)%nat -> silent wo batchSize start j) /\
      pos n < MaxUint64 /\
      ctx_done env (trace s ++ search_trace batchSize start n) = true /\
      nonce (init s') = nonce (init s) /\
      lastPosition (init s') = Some (pos n) /\
      trace s' = trace s ++ search_trace batchSize start n ++ [OpCtxDone]
  | Err (ErrOracle code) =>
      (* the oracle failed in the last batch *)
      exists m,
        n = S m /\ (forall j, (j < m)%nat -> silent wo batchSize start j) /\
        wo (pos m) (batch_end batchSize start m) = inl code /\
        nonce (init s') = nonce (init s) /\
        lastPosition (init s') = Some (pos m) /\
        trace s' = trace s ++ search_trace batchSize start n
  | Err ErrNoNonceFound =>
      (* the position of batch [n] is the end of the position space *)
      (forall j, (j < n)%nat -> silent wo batchSize start j) /\
      MaxUint64 <= pos n /\
      nonce (init s') = nonce (init s) /\
      lastPosition (init s') = stored_position batchSize start (lastPosition (init s)) n /\
      trace s' = trace s ++ search_trace batchSize start n
  | Timeout =>
      (* the run was stopped from outside after [fuel] batches *)
      n = fuel /\
      (forall j, (j < n)%nat -> silent wo batchSize start j) /\
      nonce (init s') = nonce (init s) /\
      lastPosition (init s') = stored_position batchSize start (lastPosition (init s)) n /\
      trace s' = trace s ++ search_trace batchSize start n
  | _ => False
  end.

(** The number of oracle calls a run added to the history. *)
Definition calls_made (s s' : State) : nat :=
  (length (filter isPositions (trace s')) - length (filter isPositions (trace s)))%nat.

(** Where the search past the end of the label space starts: at the later
    of the number of labels and the recorded position. *)
Definition search_start (numLabels : Z) (recorded : option Z) : Z :=
  match recorded with
  | Some p => Z.max p numLabels
  | None => numLabels
  end.

(** ** The candidates of a run *)

(** The ranges the oracle was called for, in the order of the history. *)
Definition ranges (ops : list Op) : list (Z * Z) :=
  omap (fun op => match op with OpPositions a b => Some (a, b) | _ => None end) ops.

(** The candidate the oracle reports for a range, as the nonce block of
    [initFile] reads it: the 16 bytes of the output at the reported
    position; none when the oracle fails, reports no position, or the
    output is too short. *)
Definition candidate_of (wo : Z -> Z -> Z + oracle.WorkOracleResult) (range : Z * Z)
    : option (list byte) :=
  match wo range.1 range.2 with
  | inl _ => None
  | inr res =>
      match oracle.Nonce res with
      | None => None
      | Some n =>
          match slice_from (oracle.Output res) (uint64 (uint64 (n - range.1) * 16)) with
          | None => None
          | Some tail => slice_to tail 16
          end
      end
  end.

Definition candidates (wo : Z -> Z -> Z + oracle.WorkOracleResult) (ops : list Op)
    : list (list byte) :=
  omap (candidate_of wo) (ranges ops).

(** The retained value follows the candidates: the history grew by [rest]
    and the value is the one retained after the candidates of [rest], in
    their order. *)
Definition follows (wo : Z -> Z -> Z + oracle.WorkOracleResult) (s s' : State) : Prop :=
  exists rest,
    trace s' = trace s ++ rest /\
    nonceValue (init s') = fold_left retained (candidates wo rest) (nonceValue (init s)).

(** The retained value follows the candidates of all of the run but,
    when the run ends with a nonce found by the search past the files, of
    its last oracle call: the search stores the position it finds and reads
    no value. [closing] is what the history ends with after the save. *)
Definition follows_but_last (wo : Z -> Z -> Z + oracle.WorkOracleResult)
    (closing : list Op) (r : res unit) (s s' : State) : Prop :=
  exists rest tail,
    trace s' = trace s ++ rest ++ tail /\
    nonceValue (init s') = fold_left retained (candidates wo rest) (nonceValue (init s)) /\
    (tail = [] \/
     r = Val tt /\ exists a b m, tail = OpPositions a b :: OpSaveMetadata m :: closing).

(** ** What a run that goes on has passed *)

(** What lets [Initialize] go on after an operation made at history [h]:
    the context is not done at a poll, the oracle answers a call without
    an error, and the operating system does not refuse the operation.
    The result of closing a file or the oracle and of a save whose error
    is dropped is not looked at. *)
Definition op_passed (env : Env) (wo : Z -> Z -> Z + oracle.WorkOracleResult)
    (h : list Op) (op : Op) : Prop :=
  match op with
  | OpCtxDone => ctx_done env h = false
  | OpPositions a b => exists res, wo a b = inr res
  | OpClose _ | OpOracleClose | OpSaveMetadata _ => True
  | _ => io_fault env h op = false
  end.

Fixpoint all_passed (env : Env) (wo : Z -> Z -> Z + oracle.WorkOracleResult)
    (h ops : list Op) : Prop :=
  match ops with
  | [] => True
  | op :: rest => op_passed env wo h op /\ all_passed env wo (h ++ [op]) rest
  end.

Definition passed (env : Env) (wo : Z -> Z -> Z + oracle.WorkOracleResult)
    (s s' : State) : Prop :=
  exists rest, trace s' = trace s ++ rest /\ all_passed env wo (trace s) rest.

(** [succeeds Q m]: when [m] returns a value, the state it ends in is
    related by [Q] to the state it started from. *)
Definition succeeds {A} (Q : State -> State -> Prop) (m : M A) : Prop :=
  forall s a s', m s = (Val a, s') -> Q s s'.

(** An operation whose refusal ends the run. *)
Definition looked_at (op : Op) : bool :=
  match op with
  | OpCtxDone | OpPositions _ _ | OpClose _ | OpOracleClose | OpSaveMetadata _ => false
  | _ => true
  end.

(** * Properties *)

(** ** Machine integers and byte slices *)

Lemma uint64_range x : 0 <= uint64 x < 2 ^ 64.
Proof. unfold uint64. apply Z.mod_pos_bound. lia. Qed.

Lemma uint64_small x : 0 <= x < 2 ^ 64 -> uint64 x = x.
Proof. intros H. unfold uint64. apply Z.mod_small. exact H. Qed.

Lemma int_small x : - 2 ^ 63 <= x < 2 ^ 63 -> int x = x.
Proof. intros H. unfold int. rewrite Z.mod_small; lia. Qed.

Lemma uint32_mod x : uint32 x = x mod 2 ^ 32.
Proof. unfold uint32. apply Z.land_ones. lia. Qed.

Lemma bytes_Equal_iff a b : bytes.Equal a b = true <-> a = b.
Proof.
  revert b. induction a as [|x a IH]; intros [|y b]; simpl; split; intros H;
    try congruence; try reflexivity.
  - apply andb_true_iff in H as [Hxy Hab].
    apply Byte.byte_dec_bl in Hxy. apply IH in Hab. congruence.
  - inversion H; subst. apply andb_true_iff. split.
    + now apply Byte.byte_dec_lb.
    + now apply IH.
Qed.

Lemma bytes_Equal_false a b : bytes.Equal a b = false <-> a <> b.
Proof.
  split; intros H.
  - intros E. apply bytes_Equal_iff in E. congruence.
  - destruct (bytes.Equal a b) eqn:E; [|reflexivity].
    apply bytes_Equal_iff in E. contradiction.
Qed.

Example Compare_unsigned : bytes.Compare [x7f%byte] [x80%byte] = -1.
Proof. reflexivity. Qed.

Example Compare_prefix : bytes.Compare [x01%byte] [x01%byte; x00%byte] = -1.
Proof. reflexivity. Qed.

Example Sprintf_x_bytes : fmt.Sprintf_x [x00%byte; x1f%byte; xff%byte] = "001fff"%string.
Proof. reflexivity. Qed.

Example Sprintf_d_number : fmt.Sprintf_d 4096 = "4096"%string.
Proof. reflexivity. Qed.

Example uint32_wraps : uint32 (2 ^ 32 + 7) = 7.
Proof. reflexivity. Qed.

Example Split_two : strings.Split "0,12" = ["0"; "12"]%string.
Proof. reflexivity. Qed.

(** ** Metadata verification *)

Lemma verifyMetadata_None i m :
  verifyMetadata i m = None <->
    nodeId i = shared.NodeId m /\
    commitmentAtxId i = shared.CommitmentAtxId m /\
    config.LabelsPerUnit (cfg i) = shared.LabelsPerUnit m /\
    config.MaxFileSize (opts i) = shared.MaxFileSize m /\
    config.NumUnits (opts i) <= shared.NumUnits m.
Proof.
  unfold verifyMetadata.
  destruct (bytes.Equal (nodeId i) (shared.NodeId m)) eqn:E1; simpl.
  2:{ apply bytes_Equal_false in E1. split; [discriminate | tauto]. }
  destruct (bytes.Equal (commitmentAtxId i) (shared.CommitmentAtxId m)) eqn:E2; simpl.
  2:{ apply bytes_Equal_false in E2. split; [discriminate | tauto]. }
  apply bytes_Equal_iff in E1, E2.
  destruct (config.LabelsPerUnit (cfg i) =? shared.LabelsPerUnit m) eqn:E3; simpl.
  2:{ apply Z.eqb_neq in E3. split; [discriminate | tauto]. }
  destruct (config.MaxFileSize (opts i) =? shared.MaxFileSize m) eqn:E4; simpl.
  2:{ apply Z.eqb_neq in E4. split; [discriminate | tauto]. }
  apply Z.eqb_eq in E3, E4.
  destruct (config.NumUnits (opts i) >? shared.NumUnits m) eqn:E5.
  - split; [discriminate |]. intros (_ & _ & _ & _ & H).
    rewrite Z.gtb_ltb in E5. apply Z.ltb_lt in E5. lia.
  - split; [| reflexivity]. intros _.
    rewrite Z.gtb_ltb in E5. apply Z.ltb_ge in E5. tauto.
Qed.

(** C1 (as amended): verification succeeds exactly when node id, commitment
    reference, labels-per-unit and max-file-size are equal and the requested
    num_units is at most the stored num_units; a request with a greater
    num_units is rejected with a ConfigMismatch error that names the field
    NumUnits, the expected value ">= requested", the found stored value and
    the directory, and a request with a smaller num_units is accepted. The
    four equalities are checked in the order node id, commitment reference,
    labels-per-unit, max-file-size, and the first that fails is the one the
    error names, with the requested value as expected and the stored one as
    found. *)
Theorem verifyMetadata_accepts_iff (i : Initializer) (m : shared.PostMetadata) :
  (verifyMetadata i m = None <->
     nodeId i = shared.NodeId m /\
     commitmentAtxId i = shared.CommitmentAtxId m /\
     config.LabelsPerUnit (cfg i) = shared.LabelsPerUnit m /\
     config.MaxFileSize (opts i) = shared.MaxFileSize m /\
     config.NumUnits (opts i) <= shared.NumUnits m) /\
  (nodeId i = shared.NodeId m ->
   commitmentAtxId i = shared.CommitmentAtxId m ->
   config.LabelsPerUnit (cfg i) = shared.LabelsPerUnit m ->
   config.MaxFileSize (opts i) = shared.MaxFileSize m ->
   (config.NumUnits (opts i) < shared.NumUnits m -> verifyMetadata i m = None) /\
   (config.NumUnits (opts i) > shared.NumUnits m ->
    verifyMetadata i m =
      Some (ErrConfigMismatch
              {| shared.Param := "NumUnits";
                 shared.Expected :=
                   String.append ">= " (fmt.Sprintf_d (config.NumUnits (opts i)));
                 shared.Found := fmt.Sprintf_d (shared.NumUnits m);
                 shared.DataDir := config.DataDir (opts i) |}))) /\
  (nodeId i <> shared.NodeId m ->
   verifyMetadata i m =
     Some (ErrConfigMismatch
             {| shared.Param := "NodeId";
                shared.Expected := fmt.Sprintf_x (nodeId i);
                shared.Found := fmt.Sprintf_x (shared.NodeId m);
                shared.DataDir := config.DataDir (opts i) |})) /\
  (nodeId i = shared.NodeId m ->
   commitmentAtxId i <> shared.CommitmentAtxId m ->
   verifyMetadata i m =
     Some (ErrConfigMismatch
             {| shared.Param := "CommitmentAtxId";
                shared.Expected := fmt.Sprintf_x (commitmentAtxId i);
                shared.Found := fmt.Sprintf_x (shared.CommitmentAtxId m);
                shared.DataDir := config.DataDir (opts i) |})) /\
  (nodeId i = shared.NodeId m ->
   commitmentAtxId i = shared.CommitmentAtxId m ->
   config.LabelsPerUnit (cfg i) <> shared.LabelsPerUnit m ->
   verifyMetadata i m =
     Some (ErrConfigMismatch
             {| shared.Param := "LabelsPerUnit";
                shared.Expected := fmt.Sprintf_d (config.LabelsPerUnit (cfg i));
                shared.Found := fmt.Sprintf_d (shared.LabelsPerUnit m);
                shared.DataDir := config.DataDir (opts i) |})) /\
  (nodeId i = shared.NodeId m ->
   commitmentAtxId i = shared.CommitmentAtxId m ->
   config.LabelsPerUnit (cfg i) = shared.LabelsPerUnit m ->
   config.MaxFileSize (opts i) <> shared.MaxFileSize m ->
   verifyMetadata i m =
     Some (ErrConfigMismatch
             {| shared.Param := "MaxFileSize";
                shared.Expected := fmt.Sprintf_d (config.MaxFileSize (opts i));
                shared.Found := fmt.Sprintf_d (shared.MaxFileSize m);
                shared.DataDir := config.DataDir (opts i) |})).
Proof.
  split; [apply verifyMetadata_None |].
  split.
  { intros H1 H2 H3 H4. split.
    - intros H. apply verifyMetadata_None. repeat split; auto. lia.
    - intros H. unfold verifyMetadata.
      apply bytes_Equal_iff in H1, H2. rewrite H1, H2. simpl.
      apply Z.eqb_eq in H3, H4. rewrite H3, H4. simpl.
      replace (config.NumUnits (opts i) >? shared.NumUnits m) with true; [reflexivity |].
      symmetry. rewrite Z.gtb_ltb. apply Z.ltb_lt. lia. }
  split.
  { intros H1. unfold verifyMetadata. apply bytes_Equal_false in H1. rewrite H1. reflexivity. }
  split.
  { intros H1 H2. unfold verifyMetadata.
    apply bytes_Equal_iff in H1. apply bytes_Equal_false in H2. rewrite H1, H2. reflexivity. }
  split.
  { intros H1 H2 H3. unfold verifyMetadata.
    apply bytes_Equal_iff in H1, H2. apply Z.eqb_neq in H3. rewrite H1, H2, H3. reflexivity. }
  intros H1 H2 H3 H4. unfold verifyMetadata.
  apply bytes_Equal_iff in H1, H2. apply Z.eqb_eq in H3. apply Z.eqb_neq in H4.
  rewrite H1, H2, H3, H4. reflexivity.
Qed.

Lemma verifyMetadata_accepts_iff_witness :
  verifyMetadata (sample_init 1 2) (sample_metadata 2) = None /\
  verifyMetadata (sample_init 2 2) (sample_metadata 1) =
    Some (ErrConfigMismatch
            {| shared.Param := "NumUnits"; shared.Expected := ">= 2";
               shared.Found := "1"; shared.DataDir := "data" |}).
Proof.
  split.
  - apply (proj1 (proj2 (verifyMetadata_accepts_iff (sample_init 1 2) (sample_metadata 2))));
      try reflexivity.
  - apply (proj1 (proj2 (verifyMetadata_accepts_iff (sample_init 2 2) (sample_metadata 1)))
             eq_refl eq_refl eq_refl eq_refl).
    reflexivity.
Defined.

(** C1 (as stated) fails: with every other field equal, a request for 2
    units over a stored record of 1 unit is rejected, although the claim
    accepts every request whose num_units is at least the stored one. *)
Lemma verifyMetadata_grow_rejected :
  ~ (forall (i : Initializer) (m : shared.PostMetadata),
       verifyMetadata i m = None <->
         nodeId i = shared.NodeId m /\
         commitmentAtxId i = shared.CommitmentAtxId m /\
         config.LabelsPerUnit (cfg i) = shared.LabelsPerUnit m /\
         config.MaxFileSize (opts i) = shared.MaxFileSize m /\
         config.NumUnits (opts i) >= shared.NumUnits m).
Proof.
  intros H.
  assert (E : verifyMetadata (sample_init 2 2) (sample_metadata 1) = None).
  { apply H. repeat split; simpl; lia. }
  vm_compute in E. discriminate E.
Qed.

(** ** The command-line tool *)

Lemma main_loop_NumUnits ids : forall w n each total opts o,
  o ∈ postcli.main_loop ids w n each total opts ->
  config.NumUnits o = config.NumUnits opts.
Proof.
  induction ids as [|id rest IH]; intros w n each total opts o Hin; simpl in Hin.
  - inversion Hin.
  - apply elem_of_cons in Hin as [-> | Hin]; [reflexivity |].
    apply IH in Hin. exact Hin.
Qed.

(** C9: the value [v] of the numUnits flag reaches the engine as
    [v mod 2^32]: [parseFlags] narrows it without a check and returns no
    error, every launch of [main] carries the narrowed value, and from
    [2^32] on the configured number of units is smaller than the flag. *)
Theorem parseFlags_numUnits_narrowed
    (f : postcli.flags) (cfg : config.Config) (opts : config.InitOpts) (totalFiles : Z) :
  0 <= postcli.numUnits f < 2 ^ 64 ->
  let configured := config.NumUnits (snd (postcli.parseFlags f cfg opts)) in
  configured = postcli.numUnits f mod 2 ^ 32 /\
  (forall o, o ∈ postcli.main_launches totalFiles (snd (postcli.parseFlags f cfg opts)) ->
             config.NumUnits o = postcli.numUnits f mod 2 ^ 32) /\
  (2 ^ 32 <= postcli.numUnits f -> configured < postcli.numUnits f).
Proof.
  intros Hv configured.
  assert (E : configured = postcli.numUnits f mod 2 ^ 32).
  { unfold configured, postcli.parseFlags. simpl. apply uint32_mod. }
  split; [exact E |]. split.
  - intros o Hin. unfold postcli.main_launches in Hin.
    apply main_loop_NumUnits in Hin. rewrite Hin. exact E.
  - intros Hbig. rewrite E.
    pose proof (Z.mod_pos_bound (postcli.numUnits f) (2 ^ 32) ltac:(lia)). lia.
Qed.

Lemma parseFlags_numUnits_narrowed_witness :
  config.NumUnits (snd (postcli.parseFlags (sample_flags (2 ^ 32 + 4)) sample_cfg
                          (sample_opts 1 2))) = 4.
Proof.
  apply (proj1 (parseFlags_numUnits_narrowed (sample_flags (2 ^ 32 + 4)) sample_cfg
                  (sample_opts 1 2) 2 ltac:(simpl; lia))).
Defined.

(** The loop of [main] from index [w] on: position [k] of the result holds
    the range computed for provider [w + k]. *)
Lemma main_loop_lookup ids : forall w n total opts k o,
  0 <= total < 2 ^ 63 ->
  0 <= w -> w + Z.of_nat (length ids) = n -> n < 2 ^ 63 ->
  postcli.main_loop ids w n (total / n) total opts !! k = Some o ->
  postcli.range o =
    ((w + Z.of_nat k) * (total / n),
     if w + Z.of_nat k =? n - 1 then total - 1
     else (w + Z.of_nat k + 1) * (total / n) - 1) /\
  ids !! k = Some (config.ProviderID o).
Proof.
  induction ids as [|id rest IH]; intros w n total opts k o Ht Hw Hn Hn63 Hk;
    simpl in Hk; [discriminate |].
  simpl length in Hn.
  assert (Hnpos : 0 < n) by lia.
  assert (Hq : 0 <= total / n) by (apply Z.div_pos; lia).
  assert (Hqn : n * (total / n) <= total) by (apply Z.mul_div_le; lia).
  assert (Hw1 : (w + 1) * (total / n) <= total) by nia.
  assert (Hw0 : w * (total / n) <= total) by nia.
  destruct k as [|k].
  - simpl in Hk. injection Hk as <-. unfold postcli.range. simpl.
    rewrite Z.add_0_r.
    rewrite (int_small (w * (total / n))) by nia.
    rewrite (int_small (n - 1)) by lia.
    rewrite (int_small (w + 1)) by lia.
    rewrite (int_small ((w + 1) * (total / n))) by nia.
    rewrite (int_small (total - 1)) by lia.
    rewrite (int_small ((w + 1) * (total / n) - 1)) by nia.
    split; reflexivity.
  - simpl in Hk. rewrite (int_small (w + 1)) in Hk by lia.
    apply IH in Hk; try lia.
    replace (w + Z.of_nat (S k)) with (w + 1 + Z.of_nat k) by lia.
    exact Hk.
Qed.

Lemma main_loop_length ids : forall w n each total opts,
  length (postcli.main_loop ids w n each total opts) = length ids.
Proof.
  induction ids as [|id rest IH]; intros; simpl; [reflexivity |].
  f_equal. apply IH.
Qed.

Lemma Split_nonempty s : (1 <= length (strings.Split s))%nat.
Proof.
  induction s as [| c rest IH]; simpl; [lia |].
  destruct (strings.Split rest) as [| h t]; simpl; [lia |].
  destruct (Ascii.eqb c ","%char); simpl; lia.
Qed.

Lemma main_launches_loop totalFiles opts :
  postcli.main_launches totalFiles opts =
    postcli.main_loop (strings.Split (config.ProviderID opts)) 0
      (Z.of_nat (length (strings.Split (config.ProviderID opts))))
      (int (Z.quot totalFiles (Z.of_nat (length (strings.Split (config.ProviderID opts))))))
      totalFiles opts.
Proof. reflexivity. Qed.

Lemma Split_length s : length (strings.Split s) = S (commas s).
Proof.
  induction s as [| c rest IH]; [reflexivity |].
  cbn [strings.Split commas]. destruct (strings.Split rest) as [| h t] eqn:E.
  - discriminate IH.
  - destruct (Ascii.eqb c ","%char); simpl in *; lia.
Qed.

(** C6: [main] launches one [do] per entry of the provider list; with [N]
    entries (one more than the commas of the flag, so [N >= 1]) and [F]
    files, provider [w < N-1] is launched on the inclusive range
    [[w*(F/N), (w+1)*(F/N)-1]] and the last one on [[(N-1)*(F/N), F-1]];
    the ranges follow each other without gap, no file index lies in two of
    them, all but the last hold [F/N] files, the last holds the remainder
    as well, and together they are [[0, F)]. *)
Theorem main_ranges_partition (F : Z) (opts : config.InitOpts) :
  let ids := strings.Split (config.ProviderID opts) in
  let N := Z.of_nat (length ids) in
  N < 2 ^ 63 ->
  0 <= F < 2 ^ 63 ->
  let launched := postcli.main_launches F opts in
  let first w := w * (F / N) in
  let last w := if w =? N - 1 then F - 1 else (w + 1) * (F / N) - 1 in
  N = 1 + Z.of_nat (commas (config.ProviderID opts)) /\
  length launched = length ids /\
  (forall w o, launched !! w = Some o ->
     postcli.range o = (first (Z.of_nat w), last (Z.of_nat w)) /\
     ids !! w = Some (config.ProviderID o)) /\
  first 0 = 0 /\
  (forall w, 0 <= w < N - 1 -> first (w + 1) = last w + 1) /\
  last (N - 1) = F - 1 /\
  (forall w, 0 <= w < N - 1 -> last w - first w + 1 = F / N) /\
  last (N - 1) - first (N - 1) + 1 = F / N + F mod N /\
  (forall w1 w2 i, 0 <= w1 < N -> 0 <= w2 < N ->
     first w1 <= i <= last w1 -> first w2 <= i <= last w2 -> w1 = w2) /\
  (forall i, 0 <= i < F <-> exists w, 0 <= w < N /\ first w <= i <= last w).
Proof.
  intros ids N HN63 HF launched first last.
  assert (HN : 1 <= N < 2 ^ 63).
  { pose proof (Split_nonempty (config.ProviderID opts)). unfold N, ids in *. lia. }
  assert (Hquot : int (Z.quot F N) = F / N).
  { rewrite Z.quot_div_nonneg by lia.
    apply int_small.
    assert (0 <= F / N) by (apply Z.div_pos; lia).
    assert (F / N <= F) by (apply Z.div_le_upper_bound; nia).
    lia. }
  assert (Hq : 0 <= F / N) by (apply Z.div_pos; lia).
  assert (Hdm : F = N * (F / N) + F mod N) by (apply Z.div_mod; lia).
  assert (Hm : 0 <= F mod N < N) by (apply Z.mod_pos_bound; lia).
  unfold launched. rewrite main_launches_loop. fold ids. fold N. rewrite Hquot.
  split; [unfold N, ids; rewrite Split_length; lia |].
  split; [apply main_loop_length |].
  split.
  { intros w o Hw. apply main_loop_lookup in Hw; try lia.
    rewrite !Z.add_0_l in Hw. exact Hw. }
  split; [unfold first; lia |].
  split.
  { intros w Hw. unfold first, last.
    destruct (Z.eqb_spec w (N - 1)); lia. }
  split; [unfold last; rewrite Z.eqb_refl; reflexivity |].
  split.
  { intros w Hw. unfold first, last.
    destruct (Z.eqb_spec w (N - 1)); lia. }
  split.
  { unfold first, last. rewrite Z.eqb_refl. lia. }
  split.
  { intros w1 w2 i H1 H2 [Ha Hb] [Hc Hd]. unfold first, last in *.
    destruct (Z.lt_trichotomy w1 w2) as [Hlt | [Heq | Hgt]]; [| exact Heq |]; exfalso.
    - destruct (Z.eqb_spec w1 (N - 1)); [lia |]. nia.
    - destruct (Z.eqb_spec w2 (N - 1)); [lia |]. nia. }
  intros i. split.
  - intros Hi.
    destruct (Z_lt_le_dec i ((N - 1) * (F / N))) as [Hlt | Hge].
    + assert (Hpos : 0 < F / N) by nia.
      exists (i / (F / N)).
      assert (Hdi : i = (F / N) * (i / (F / N)) + i mod (F / N)) by (apply Z.div_mod; lia).
      assert (Hmi : 0 <= i mod (F / N) < F / N) by (apply Z.mod_pos_bound; lia).
      assert (Hwi : 0 <= i / (F / N)) by (apply Z.div_pos; lia).
      assert (Hwn : i / (F / N) < N - 1) by (apply Z.div_lt_upper_bound; nia).
      unfold first, last. destruct (Z.eqb_spec (i / (F / N)) (N - 1)); [lia |]. nia.
    + exists (N - 1). unfold first, last. rewrite Z.eqb_refl. lia.
  - intros (w & Hw & Ha & Hb). unfold first, last in *.
    destruct (Z.eqb_spec w (N - 1)); nia.
Qed.

Lemma main_ranges_partition_witness :
  postcli.range <$> postcli.main_launches 8 (three_providers (sample_opts 1 2))
  = [(0, 1); (2, 3); (4, 7)] /\
  config.ProviderID <$> postcli.main_launches 8 (three_providers (sample_opts 1 2))
  = ["0"; "1"; "2"]%string /\
  (forall i, 0 <= i < 8 <->
     exists w, 0 <= w < 3 /\
       w * (8 / 3) <= i <= (if w =? 3 - 1 then 8 - 1 else (w + 1) * (8 / 3) - 1)).
Proof.
  pose proof (main_ranges_partition 8 (three_providers (sample_opts 1 2))
                ltac:(vm_compute; reflexivity) ltac:(lia)) as H.
  cbv zeta in H.
  change (Z.of_nat (length (strings.Split
            (config.ProviderID (three_providers (sample_opts 1 2)))))) with 3 in H.
  destruct H as (_ & Hlen & Hlook & _ & _ & _ & _ & _ & _ & Hcover).
  assert (Hthree : exists a b c,
            postcli.main_launches 8 (three_providers (sample_opts 1 2)) = [a; b; c]).
  { destruct (postcli.main_launches 8 (three_providers (sample_opts 1 2)))
      as [| a [| b [| c [| d l]]]]; try discriminate Hlen. eauto. }
  destruct Hthree as (a & b & c & Hl). rewrite Hl in Hlook |- *.
  destruct (Hlook 0%nat a eq_refl) as [Ha Ha'].
  destruct (Hlook 1%nat b eq_refl) as [Hb Hb'].
  destruct (Hlook 2%nat c eq_refl) as [Hc Hc'].
  cbn [fmap list_fmap]. rewrite Ha, Hb, Hc.
  split; [reflexivity |]. split; [| exact Hcover].
  injection Ha' as <-. injection Hb' as <-. injection Hc' as <-. reflexivity.
Defined.

(** ** Reasoning about computations *)

Section Preserves.

Variable Q : State -> State -> Prop.
Hypothesis Q_refl : forall s, Q s s.
Hypothesis Q_trans : forall a b c, Q a b -> Q b c -> Q a c.

Lemma preserves_ret {A} (a : A) : preserves Q (ret a).
Proof. intros s r s' H. inversion H; subst. apply Q_refl. Qed.

Lemma preserves_fail {A} (e : error) : preserves Q (@fail A e).
Proof. intros s r s' H. inversion H; subst. apply Q_refl. Qed.

Lemma preserves_panic {A} : preserves Q (@panic A).
Proof. intros s r s' H. inversion H; subst. apply Q_refl. Qed.

Lemma preserves_timeout {A} : preserves Q (@timeout A).
Proof. intros s r s' H. inversion H; subst. apply Q_refl. Qed.

Lemma preserves_get : preserves Q get.
Proof. intros s r s' H. inversion H; subst. apply Q_refl. Qed.

Lemma preserves_modify f : (forall s, Q s (f s)) -> preserves Q (modify f).
Proof. intros Hf s r s' H. inversion H; subst. apply Hf. Qed.

Lemma preserves_bind {A B} (m : M A) (k : A -> M B) :
    preserves Q m -> (forall a, preserves Q (k a)) -> preserves Q (bind m k).
Proof.
    intros Hm Hk s r s' H. unfold bind in H.
    destruct (m s) as [[a | e | | ] s1] eqn:E.
    - eapply Q_trans; [eapply Hm; exact E | eapply Hk; exact H].
    - inversion H; subst. eapply Hm; exact E.
    - inversion H; subst. eapply Hm; exact E.
    - inversion H; subst. eapply Hm; exact E.
Qed.

Lemma preserves_try {A} (m : M A) : preserves Q m -> preserves Q (try m).
Proof.
    intros Hm s r s' H. unfold try in H.
    destruct (m s) as [[a | e | | ] s1] eqn:E; inversion H; subst; eapply Hm; exact E.
Qed.

Lemma preserves_discard (m : M unit) : preserves Q m -> preserves Q (discard m).
Proof.
    intros Hm s r s' H. unfold discard in H.
    destruct (m s) as [[a | e | | ] s1] eqn:E; inversion H; subst; eapply Hm; exact E.
Qed.

Lemma preserves_defer {A} (cleanup : M unit) (body : M A) :
    preserves Q cleanup -> preserves Q body -> preserves Q (defer cleanup body).
Proof.
    intros Hc Hb s r s' H. unfold defer in H.
    destruct (body s) as [[a | e | | ] s1] eqn:E; inversion H; subst;
      try (eapply Q_trans; [eapply Hb; exact E | eapply Hc; apply surjective_pairing]).
    eapply Hb; exact E.
Qed.

End Preserves.

Section Raises.

Variable E : error -> Prop.

Lemma raises_ret {A} (a : A) : raises E (ret a).
Proof. intros s e s' H. discriminate H. Qed.

Lemma raises_fail {A} (e : error) : E e -> raises E (@fail A e).
Proof. intros He s e' s' H. inversion H; subst. exact He. Qed.

Lemma raises_panic {A} : raises E (@panic A).
Proof. intros s e s' H. discriminate H. Qed.

Lemma raises_timeout {A} : raises E (@timeout A).
Proof. intros s e s' H. discriminate H. Qed.

Lemma raises_get : raises E get.
Proof. intros s e s' H. discriminate H. Qed.

Lemma raises_modify f : raises E (modify f).
Proof. intros s e s' H. discriminate H. Qed.

Lemma raises_bind {A B} (m : M A) (k : A -> M B) :
    raises E m -> (forall a, raises E (k a)) -> raises E (bind m k).
Proof.
    intros Hm Hk s e s' H. unfold bind in H.
    destruct (m s) as [[a | e1 | | ] s1] eqn:Em; try discriminate H.
    - eapply Hk; exact H.
    - inversion H; subst. eapply Hm; exact Em.
Qed.

Lemma raises_try {A} (m : M A) : raises E (try m).
Proof.
    intros s e s' H. unfold try in H.
    destruct (m s) as [[a | e1 | | ] s1]; discriminate H.
Qed.

Lemma raises_discard (m : M unit) : raises E (discard m).
Proof.
    intros s e s' H. unfold discard in H.
    destruct (m s) as [[a | e1 | | ] s1]; discriminate H.
Qed.

Lemma raises_defer {A} (cleanup : M unit) (body : M A) :
    raises E body -> raises E (defer cleanup body).
Proof.
    intros Hb s e s' H. unfold defer in H.
    destruct (body s) as [[a | e1 | | ] s1] eqn:Eb; inversion H; subst.
    eapply Hb; exact Eb.
Qed.

Lemma raises_io env op : E (ErrIO op) -> raises E (io env op).
Proof.
    intros He s e s' H. unfold io in H.
    destruct (io_fault env (trace s) op); inversion H; subst. exact He.
Qed.

End Raises.

Lemma io_inv env op s r s' :
  io env op s = (r, s') ->
  init s' = init s /\ disk s' = disk s /\ trace s' = trace s ++ [op].
Proof.
  unfold io. destruct (io_fault env (trace s) op); intros H; inversion H; subst; auto.
Qed.


(** ** Invariants of the in-memory initializer

    A relation [R] between the initializer before and after, which the
    stores to [nonce], [lastPosition] and [numLabelsWritten] respect and
    which a store to [nonceValue] respects when the new value replaces
    nothing or something greater, holds across every method body. *)

Ltac preserves_step Hrefl Htrans :=
  first
    [ apply (preserves_ret _ Hrefl)
    | apply (preserves_fail _ Hrefl)
    | apply (preserves_panic _ Hrefl)
    | apply (preserves_timeout _ Hrefl)
    | apply (preserves_get _ Hrefl)
    | apply (preserves_bind _ Htrans); [ | intros ? ]
    | apply (preserves_try _)
    | apply (preserves_discard _)
    | apply (preserves_defer _ Htrans)
    | match goal with
      | |- preserves _ (if ?b then _ else _) => destruct b
      | |- preserves _ (match ?x with _ => _ end) => destruct x
      end ].

Lemma bind_get {B} (k : State -> M B) s : bind get k s = k s s.
Proof. reflexivity. Qed.

Lemma bind_modify {B} f (k : unit -> M B) s : bind (modify f) k s = k tt (f s).
Proof. reflexivity. Qed.

Create HintDb inv.
Create HintDb dinv.
Create HintDb ainv.

Section InitInvariant.

Variable env : Env.
Variable R : Initializer -> Initializer -> Prop.
Hypothesis R_refl : forall i, R i i.
Hypothesis R_trans : forall a b c, R a b -> R b c -> R a c.
Hypothesis R_nonce : forall i v, R i (set_nonce v i).
Hypothesis R_lastPosition : forall i v, R i (set_lastPosition v i).
Hypothesis R_numLabelsWritten : forall i v, R i (set_numLabelsWritten v i).
Hypothesis R_nonceValue : forall i c,
    match nonceValue i with
    | None => True
    | Some best => bytes.Compare c best < 0
    end -> R i (set_nonceValue (Some c) i).

Lemma on_init_refl s : on_init R s s.
Proof. apply R_refl. Qed.

Lemma on_init_trans a b c : on_init R a b -> on_init R b c -> on_init R a c.
Proof. apply R_trans. Qed.

Local Ltac pres :=
    repeat first [ solve [auto with inv] | preserves_step on_init_refl on_init_trans ].

Lemma inv_io op : preserves (on_init R) (io env op).
Proof.
    intros s r s' H. unfold io in H.
    destruct (io_fault env (trace s) op); inversion H; subst; apply R_refl.
Qed.

Lemma inv_log op : preserves (on_init R) (log op).
Proof. apply preserves_modify. intros s. apply R_refl. Qed.

Lemma inv_ctx_Done : preserves (on_init R) (ctx_Done env).
Proof. intros s r s' H. inversion H; subst. apply R_refl. Qed.

Lemma inv_with_disk f : preserves (on_init R) (modify (with_disk f)).
Proof. apply preserves_modify. intros s. apply R_refl. Qed.

Lemma inv_set_nonce v : preserves (on_init R) (modify (with_init (set_nonce v))).
Proof. apply preserves_modify. intros s. apply R_nonce. Qed.

Lemma inv_set_lastPosition v : preserves (on_init R) (modify (with_init (set_lastPosition v))).
Proof. apply preserves_modify. intros s. apply R_lastPosition. Qed.

Lemma inv_set_numLabelsWritten v :
    preserves (on_init R) (modify (with_init (set_numLabelsWritten v))).
Proof. apply preserves_modify. intros s. apply R_numLabelsWritten. Qed.

Local Hint Resolve inv_io inv_log inv_ctx_Done inv_with_disk inv_set_nonce
    inv_set_lastPosition inv_set_numLabelsWritten : inv.

Lemma inv_SaveMetadata dir v : preserves (on_init R) (SaveMetadata env dir v).
Proof. unfold SaveMetadata. pres. Qed.

Lemma inv_saveMetadata : preserves (on_init R) (saveMetadata env).
Proof. unfold saveMetadata. pres. Qed.

Lemma inv_loadMetadata : preserves (on_init R) (loadMetadata env).
Proof. unfold loadMetadata, LoadMetadata. pres. Qed.

Lemma inv_wo_Positions wo a b : preserves (on_init R) (wo_Positions wo a b).
Proof. unfold wo_Positions. pres. Qed.

Lemma inv_NewLabelsWriter i : preserves (on_init R) (NewLabelsWriter env i).
Proof. unfold NewLabelsWriter. pres. Qed.

Lemma inv_writer_NumLabelsWritten i : preserves (on_init R) (writer_NumLabelsWritten env i).
Proof. unfold writer_NumLabelsWritten. pres. Qed.

Lemma inv_writer_Truncate i n : preserves (on_init R) (writer_Truncate env i n).
Proof. unfold writer_Truncate. pres. Qed.

Lemma inv_writer_Write i d : preserves (on_init R) (writer_Write env i d).
Proof. unfold writer_Write. pres. Qed.

Lemma inv_RemoveFile name : preserves (on_init R) (RemoveFile env name).
Proof.
    assert (H : preserves (on_init R) (os_Remove env name)).
    { unfold os_Remove. pres. }
    intros s r s' Hr. unfold RemoveFile in Hr.
    destruct (os_Remove env name s) as [[a | e | | ] s1] eqn:E; inversion Hr; subst;
      eapply H; exact E.
Qed.

Lemma inv_diskState_NumLabelsWritten : preserves (on_init R) (diskState_NumLabelsWritten env).
Proof. unfold diskState_NumLabelsWritten. pres. Qed.

Lemma inv_diskState_NumFilesWritten : preserves (on_init R) (diskState_NumFilesWritten env).
Proof. unfold diskState_NumFilesWritten. pres. Qed.

Lemma inv_writer_Flush i : preserves (on_init R) (writer_Flush env i).
Proof. apply inv_io. Qed.

Lemma inv_writer_Close i : preserves (on_init R) (writer_Close env i).
Proof. apply inv_io. Qed.

Lemma inv_file_Info name : preserves (on_init R) (file_Info env name).
Proof. apply inv_io. Qed.

Lemma inv_wo_Close : preserves (on_init R) wo_Close.
Proof. apply inv_log. Qed.

Lemma inv_oracle_New p c d : preserves (on_init R) (oracle_New env p c d).
Proof. unfold oracle_New. pres. Qed.

Local Hint Resolve inv_writer_Flush inv_writer_Close inv_file_Info inv_wo_Close
    inv_oracle_New : inv.

Local Hint Resolve inv_SaveMetadata inv_saveMetadata inv_loadMetadata inv_wo_Positions
    inv_NewLabelsWriter inv_writer_NumLabelsWritten inv_writer_Truncate inv_writer_Write
    inv_RemoveFile inv_diskState_NumLabelsWritten inv_diskState_NumFilesWritten : inv.

Lemma inv_initFile_nonce res startPosition :
    preserves (on_init R) (initFile_nonce env res startPosition).
Proof.
    unfold initFile_nonce.
    destruct (oracle.Nonce res) as [n |]; [| pres].
    destruct (slice_from _ _) as [tail |]; [| pres].
    destruct (slice_to tail 16) as [candidate |]; [| pres].
    assert (Hrest : preserves (on_init R)
              (do_ modify (with_init (set_nonce (Some n))); discard (saveMetadata env)))
      by pres.
    intros s r s' H. rewrite bind_get in H.
    destruct (nonceValue (init s)) as [best |] eqn:Eb.
    - destruct (bytes.Compare candidate best <? 0) eqn:Ec.
      + rewrite bind_modify in H. apply Hrest in H.
        eapply R_trans; [| exact H]. simpl.
        apply R_nonceValue. rewrite Eb. apply Z.ltb_lt. exact Ec.
      + inversion H; subst. apply R_refl.
    - rewrite bind_modify in H. apply Hrest in H.
      eapply R_trans; [| exact H]. simpl.
      apply R_nonceValue. rewrite Eb. exact I.
Qed.

Local Hint Resolve inv_initFile_nonce : inv.

Lemma inv_initFile_loop fuel wo fileIndex fileOffset fileNumLabels :
    forall batchSize currentPosition,
      preserves (on_init R)
        (initFile_loop env fuel wo fileIndex batchSize fileOffset fileNumLabels currentPosition).
Proof.
    induction fuel as [| fuel IH]; intros batchSize currentPosition; simpl; [pres |].
    destruct (currentPosition <? fileNumLabels); pres.
Qed.

Local Hint Resolve inv_initFile_loop : inv.

Lemma inv_initFile fuel wo fileIndex batchSize fileOffset fileNumLabels difficulty :
    preserves (on_init R)
      (initFile env fuel wo fileIndex batchSize fileOffset fileNumLabels difficulty).
Proof. unfold initFile. pres. Qed.

Local Hint Resolve inv_initFile : inv.

Lemma inv_removeRedundantFiles_loop n : forall i,
    preserves (on_init R) (removeRedundantFiles_loop env n i).
Proof. induction n as [| n IH]; intros i; simpl; pres. Qed.

Local Hint Resolve inv_removeRedundantFiles_loop : inv.

Lemma inv_removeRedundantFiles layout : preserves (on_init R) (removeRedundantFiles env layout).
Proof. unfold removeRedundantFiles. pres. Qed.

Lemma inv_Initialize_files fuel wo layout batchSize difficulty n : forall i,
    preserves (on_init R) (Initialize_files env fuel wo layout batchSize difficulty n i).
Proof. induction n as [| n IH]; intros i; simpl; pres. Qed.

Lemma inv_Initialize_search fuel wo batchSize : forall i,
    preserves (on_init R) (Initialize_search env fuel wo batchSize i).
Proof.
    induction fuel as [| fuel IH]; intros i; simpl; [pres |].
    destruct (i <? MaxUint64); pres.
Qed.

Local Hint Resolve inv_Initialize_files inv_Initialize_search : inv.

Lemma inv_Initialize_finish fuel wo batchSize numLabels :
    preserves (on_init R) (Initialize_finish env fuel wo batchSize numLabels).
Proof. unfold Initialize_finish. pres. Qed.

Local Hint Resolve inv_Initialize_finish : inv.

Lemma inv_Initialize_body fuel : preserves (on_init R) (Initialize_body env fuel).
Proof. unfold Initialize_body, removeRedundantFiles. pres. Qed.

Lemma inv_Reset_loop files : preserves (on_init R) (Reset_loop env files).
Proof. induction files as [| name rest IH]; simpl; pres. Qed.

Lemma inv_Reset_body : preserves (on_init R) (Reset_body env).
Proof.
    unfold Reset_body, os_ReadDir. pres. apply inv_Reset_loop.
Qed.

End InitInvariant.

(** ** Locking and status *)

Lemma set_mtx_id i : set_mtx (mtx i) i = i.
Proof. destruct i; reflexivity. Qed.

Lemma set_mtx_unlock i : mtx i = false -> set_mtx false (set_mtx true i) = i.
Proof. intros H. destruct i. simpl in *. subst. reflexivity. Qed.

Lemma unlock_lock s : mtx (init s) = false ->
  with_init (set_mtx false) (with_init (set_mtx true) s) = s.
Proof.
  intros H. destruct s as [i d t]. destruct i. simpl in *. subst. reflexivity.
Qed.

Lemma Initialize_body_keeps_mtx env fuel : preserves (on_init mtx_kept) (Initialize_body env fuel).
Proof.
  apply inv_Initialize_body; unfold mtx_kept; intros; try reflexivity; congruence.
Qed.

Lemma Reset_body_keeps_mtx env : preserves (on_init mtx_kept) (Reset_body env).
Proof.
  apply inv_Reset_body; unfold mtx_kept; intros; try reflexivity; congruence.
Qed.

Lemma Reset_loop_returns env files s : fst (Reset_loop env files s) <> Timeout.
Proof.
  revert s. induction files as [| name rest IH]; intros s; simpl; [discriminate |].
  unfold bind, try, file_Info, io.
  destruct (io_fault env (trace s) (OpInfo name)); simpl; [apply IH |].
  destruct (IsInitFile name || isMetadataFileName name); [| apply IH].
  unfold RemoveFile, os_Remove, bind, io, get. simpl.
  destruct (io_fault env _ (OpRemove name)); simpl; [discriminate |].
  destruct name as [i | | n]; simpl.
  - destruct (labelFiles (disk s) !! i); simpl; [apply IH | discriminate].
  - destruct (metadataFile (disk s)); simpl; [apply IH | discriminate].
  - destruct (bool_decide _); simpl; [apply IH | discriminate].
Qed.

Lemma Reset_body_returns env s : fst (Reset_body env s) <> Timeout.
Proof.
  unfold Reset_body, os_ReadDir, bind, io, get. simpl.
  destruct (io_fault env (trace s) OpReadDir); simpl; [discriminate |].
  apply Reset_loop_returns.
Qed.

(** C7: while the lock is held, [Initialize] returns AlreadyInitializing and
    [Reset] returns CannotResetWhileInitializing at once and leave the whole
    state (memory, directory, history) as it was; when the lock is free each
    of them runs its body with the lock held and the lock is free again
    whenever the call returns, with a value, an error or a panic. *)
Theorem lock_fail_fast (env : Env) (fuel : nat) (s : State) :
  (mtx (init s) = true ->
     Initialize env fuel s = (Err ErrAlreadyInitializing, s) /\
     Reset env s = (Err ErrCannotResetWhileInitializing, s)) /\
  (mtx (init s) = false ->
     (forall r s', Initialize env fuel s = (r, s') ->
        exists s1,
          Initialize_body env fuel (with_init (set_mtx true) s) = (r, s1) /\
          mtx (init s1) = true /\
          (r <> Timeout -> s' = with_init (set_mtx false) s1 /\ mtx (init s') = false) /\
          (r = Timeout -> s' = s1)) /\
     (forall r s', Reset env s = (r, s') ->
        exists s1,
          Reset_body env (with_init (set_mtx true) s) = (r, s1) /\
          mtx (init s1) = true /\
          r <> Timeout /\
          s' = with_init (set_mtx false) s1 /\ mtx (init s') = false)).
Proof.
  split.
  - intros H. unfold Initialize, Reset, bind, TryLock. rewrite H. split; reflexivity.
  - intros H. split.
    + intros r s' Hr. unfold Initialize, bind, TryLock in Hr. rewrite H in Hr. simpl in Hr.
      unfold defer in Hr.
      destruct (Initialize_body env fuel (with_init (set_mtx true) s)) as [r1 s1] eqn:Eb.
      exists s1.
      pose proof (Initialize_body_keeps_mtx env fuel _ _ _ Eb) as Hk.
      unfold on_init, mtx_kept in Hk. simpl in Hk.
      destruct r1; inversion Hr; subst; repeat split; try congruence; try discriminate.
    + intros r s' Hr. unfold Reset, bind, TryLock in Hr. rewrite H in Hr. simpl in Hr.
      unfold defer in Hr.
      pose proof (Reset_body_returns env (with_init (set_mtx true) s)) as Hnt.
      destruct (Reset_body env (with_init (set_mtx true) s)) as [r1 s1] eqn:Eb.
      exists s1.
      pose proof (Reset_body_keeps_mtx env _ _ _ Eb) as Hk.
      unfold on_init, mtx_kept in Hk. simpl in Hk, Hnt.
      destruct r1; inversion Hr; subst; repeat split; try congruence; try discriminate.
Qed.

Lemma lock_fail_fast_witness :
  Initialize quiet_env 3 busy_state = (Err ErrAlreadyInitializing, busy_state) /\
  Reset quiet_env busy_state = (Err ErrCannotResetWhileInitializing, busy_state).
Proof.
  apply (proj1 (lock_fail_fast quiet_env 3 busy_state)). reflexivity.
Defined.

Lemma bind_val {A B} (m : M A) (k : A -> M B) s a s1 :
  m s = (Val a, s1) -> bind m k s = k a s1.
Proof. intros H. unfold bind. rewrite H. reflexivity. Qed.

Lemma bind_err {A B} (m : M A) (k : A -> M B) s e s1 :
  m s = (Err e, s1) -> bind m k s = (Err e, s1).
Proof. intros H. unfold bind. rewrite H. reflexivity. Qed.

Lemma TryLock_free s : mtx (init s) = false ->
  TryLock s = (Val true, with_init (set_mtx true) s).
Proof. intros H. unfold TryLock. rewrite H. reflexivity. Qed.

Lemma diskState_NumLabelsWritten_eq env s :
  diskState_NumLabelsWritten env s =
    (if io_fault env (trace s) OpDiskNumLabelsWritten
     then Err (ErrIO OpDiskNumLabelsWritten)
     else Val (NumLabels (totalBytes (disk s))),
     {| init := init s; disk := disk s; trace := trace s ++ [OpDiskNumLabelsWritten] |}).
Proof.
  unfold diskState_NumLabelsWritten, bind, io, get.
  destruct (io_fault env (trace s) OpDiskNumLabelsWritten); reflexivity.
Qed.

(** C2 (as amended): when the lock is held [Status] answers Initializing and
    changes nothing; otherwise it asks the disk state for the written-label
    count and answers Error when that inspection fails, Completed when the
    count equals num_units * labels_per_unit (whether or not a nonce is
    retained), Started when the count is positive and differs from the
    target, and NotStarted when the count is zero and the target is not;
    the lock is free again afterwards and the directory is untouched. *)
Theorem Status_classifies (env : Env) (s : State) :
  (mtx (init s) = true -> Status env s = (Val StatusInitializing, s)) /\
  (mtx (init s) = false ->
     let written := NumLabels (totalBytes (disk s)) in
     let target :=
       uint64 (uint64 (config.NumUnits (opts (init s)))
               * uint64 (config.LabelsPerUnit (cfg (init s)))) in
     Status env s =
       (Val (if io_fault env (trace s) OpDiskNumLabelsWritten then StatusError
             else if written =? target then StatusCompleted
             else if written >? 0 then StatusStarted
             else StatusNotStarted),
        {| init := init s; disk := disk s;
           trace := trace s ++ [OpDiskNumLabelsWritten] |})).
Proof.
  split.
  - intros H. unfold Status, bind, TryLock. rewrite H. reflexivity.
  - intros H written target.
    unfold Status.
    rewrite (bind_val _ _ _ _ _ (TryLock_free s H)). cbn [negb].
    unfold defer, bind, try. rewrite diskState_NumLabelsWritten_eq.
    cbn [with_init init disk trace].
    destruct (io_fault env (trace s) OpDiskNumLabelsWritten).
    + cbn -[set_mtx]; unfold with_init; cbn -[set_mtx].
      rewrite (set_mtx_unlock _ H). reflexivity.
    + cbn -[NumLabels totalBytes uint64 Z.eqb Z.gtb set_mtx].
      change (opts (set_mtx true (init s))) with (opts (init s)).
      change (cfg (set_mtx true (init s))) with (cfg (init s)).
      fold written. fold target.
      destruct (written =? target); [| destruct (written >? 0)];
        cbn -[set_mtx]; unfold with_init; cbn -[set_mtx];
        rewrite (set_mtx_unlock _ H); reflexivity.
Qed.

Lemma Status_classifies_witness :
  Status quiet_env busy_state = (Val StatusInitializing, busy_state) /\
  fst (Status quiet_env written_state) = Val StatusCompleted.
Proof.
  split.
  - apply (proj1 (Status_classifies quiet_env busy_state)). reflexivity.
  - rewrite (proj2 (Status_classifies quiet_env written_state) eq_refl). reflexivity.
Defined.

(** C2 (as stated) fails: with all four labels on disk and no nonce
    retained, neither in memory nor in the metadata record, [Status] answers
    Completed. *)
Lemma Status_completed_without_nonce :
  fst (Status quiet_env written_state) = Val StatusCompleted /\
  nonce (init written_state) = None /\
  (metadataFile (disk written_state) ≫= shared.Nonce) = None /\
  NumLabels (totalBytes (disk written_state)) =
    config.NumUnits (opts (init written_state))
    * config.LabelsPerUnit (cfg (init written_state)).
Proof. vm_compute. repeat split. Qed.

(** ** Best-nonce search *)

Lemma Compare_refl a : bytes.Compare a a = 0.
Proof.
  induction a as [| x a IH]; simpl; [reflexivity |].
  rewrite N.compare_refl. exact IH.
Qed.

Lemma Compare_values a b :
  bytes.Compare a b = -1 \/ bytes.Compare a b = 0 \/ bytes.Compare a b = 1.
Proof.
  revert b. induction a as [| x a IH]; intros [| y b]; simpl; auto.
  destruct (N.compare (Byte.to_N x) (Byte.to_N y)); auto.
Qed.

Lemma to_N_inj x y : Byte.to_N x = Byte.to_N y -> x = y.
Proof.
  intros H. pose proof (Byte.of_to_N x) as Hx. pose proof (Byte.of_to_N y) as Hy.
  rewrite H in Hx. congruence.
Qed.

Lemma Compare_eq a b : bytes.Compare a b = 0 -> a = b.
Proof.
  revert b. induction a as [| x a IH]; intros [| y b]; simpl; intros H;
    try reflexivity; try discriminate.
  destruct (N.compare_spec (Byte.to_N x) (Byte.to_N y)) as [E | E | E]; try discriminate.
  apply to_N_inj in E. apply IH in H. congruence.
Qed.

Lemma Compare_antisym a b : bytes.Compare b a = - bytes.Compare a b.
Proof.
  revert b. induction a as [| x a IH]; intros [| y b]; simpl; try reflexivity.
  rewrite (N.compare_antisym (Byte.to_N x) (Byte.to_N y)).
  destruct (N.compare (Byte.to_N x) (Byte.to_N y)); simpl; auto.
Qed.

Lemma Compare_trans a : forall b c,
  bytes.Compare a b <= 0 -> bytes.Compare b c <= 0 -> bytes.Compare a c <= 0.
Proof.
  induction a as [| x a IH]; intros [| y b] [| z c]; simpl; try lia.
  destruct (N.compare_spec (Byte.to_N x) (Byte.to_N y)) as [E1 | E1 | E1];
    destruct (N.compare_spec (Byte.to_N y) (Byte.to_N z)) as [E2 | E2 | E2];
    destruct (N.compare_spec (Byte.to_N x) (Byte.to_N z)) as [E3 | E3 | E3];
    try lia; intros H1 H2.
  eapply IH; eassumption.
Qed.

Lemma Compare_total a b : bytes.Compare a b <= 0 \/ bytes.Compare b a <= 0.
Proof. rewrite (Compare_antisym a b). destruct (Compare_values a b) as [H | [H | H]]; lia. Qed.

Lemma nonceValue_le_refl i : nonceValue_le i i.
Proof. intros v H. exists v. rewrite Compare_refl. split; [exact H | lia]. Qed.

Lemma nonceValue_le_trans a b c : nonceValue_le a b -> nonceValue_le b c -> nonceValue_le a c.
Proof.
  intros H1 H2 v Hv. destruct (H1 v Hv) as (v1 & Hv1 & Hc1).
  destruct (H2 v1 Hv1) as (v2 & Hv2 & Hc2). exists v2. split; [exact Hv2 |].
  eapply Compare_trans; eassumption.
Qed.

Lemma nonceValue_le_same i i' : nonceValue i' = nonceValue i -> nonceValue_le i i'.
Proof.
  intros E v H. exists v. rewrite E, Compare_refl. split; [exact H | lia].
Qed.

Lemma Initialize_body_nonceValue_le env fuel :
  preserves (on_init nonceValue_le) (Initialize_body env fuel).
Proof.
  apply inv_Initialize_body.
  - apply nonceValue_le_refl.
  - apply nonceValue_le_trans.
  - intros i v. apply nonceValue_le_same. reflexivity.
  - intros i v. apply nonceValue_le_same. reflexivity.
  - intros i v. apply nonceValue_le_same. reflexivity.
  - intros i c H v Hv. rewrite Hv in H. exists c. simpl. split; [reflexivity | lia].
Qed.

Lemma Initialize_nonceValue_le env fuel : preserves (on_init nonceValue_le) (Initialize env fuel).
Proof.
  intros s r s' H. unfold Initialize, bind, TryLock in H.
  destruct (mtx (init s)) eqn:Em; simpl in H.
  - inversion H; subst. apply nonceValue_le_refl.
  - unfold defer in H.
    destruct (Initialize_body env fuel (with_init (set_mtx true) s)) as [r1 s1] eqn:Eb.
    apply Initialize_body_nonceValue_le in Eb. unfold on_init in *. simpl in Eb.
    destruct r1; inversion H; subst; simpl; exact Eb.
Qed.

Lemma initFile_nonce_eq env res startPosition n tail c s :
  oracle.Nonce res = Some n ->
  slice_from (oracle.Output res) (uint64 (uint64 (n - startPosition) * 16)) = Some tail ->
  slice_to tail 16 = Some c ->
  let i' := set_nonce (Some n) (set_nonceValue (Some c) (init s)) in
  initFile_nonce env res startPosition s =
    if match nonceValue (init s) with
       | None => true
       | Some best => bytes.Compare c best <? 0
       end
    then (Val tt,
          {| init := i';
             disk := if io_fault env (trace s) (OpSaveMetadata (metadataOf i')) then disk s
                     else set_metadataFile (Some (metadataOf i')) (disk s);
             trace := trace s ++ [OpSaveMetadata (metadataOf i')] |})
    else (Val tt, s).
Proof.
  intros Hn Ht Hc i'. unfold initFile_nonce. rewrite Hn, Ht, Hc, bind_get.
  destruct (match nonceValue (init s) with
            | None => true
            | Some best => bytes.Compare c best <? 0
            end); [| reflexivity].
  rewrite !bind_modify.
  unfold discard, saveMetadata. rewrite bind_get.
  unfold SaveMetadata, bind, io, modify, with_init, with_disk.
  cbn [init disk trace]. fold i'.
  destruct (io_fault env (trace s) (OpSaveMetadata (metadataOf i'))); reflexivity.
Qed.

Lemma retained_Some b c :
  exists b', retained (Some b) c = Some b' /\ (b' = b \/ b' = c) /\
             bytes.Compare b' b <= 0 /\ bytes.Compare b' c <= 0.
Proof.
  unfold retained. destruct (bytes.Compare c b <? 0) eqn:E.
  - exists c. apply Z.ltb_lt in E. rewrite Compare_refl. repeat split; auto; lia.
  - exists b. apply Z.ltb_ge in E. rewrite Compare_refl, (Compare_antisym c b).
    repeat split; auto; lia.
Qed.

Lemma fold_retained_min l : forall b,
  exists m, fold_left retained l (Some b) = Some m /\
            m ∈ b :: l /\ forall c, c ∈ b :: l -> bytes.Compare m c <= 0.
Proof.
  induction l as [| x l IH]; intros b; cbn [fold_left].
  - exists b. split; [reflexivity |]. split; [left |].
    intros c Hc. apply list_elem_of_singleton in Hc. subst. rewrite Compare_refl. lia.
  - destruct (retained_Some b x) as (b' & -> & Hb' & Hle1 & Hle2).
    destruct (IH b') as (m & Hm & Hin & Hmin). exists m. split; [exact Hm |].
    assert (Hmb' : bytes.Compare m b' <= 0) by (apply Hmin; left).
    split.
    + apply elem_of_cons in Hin as [-> | Hin].
      * destruct Hb' as [-> | ->]; [left | right; left].
      * right; right; exact Hin.
    + intros c Hc. apply elem_of_cons in Hc as [-> | Hc].
      * eapply Compare_trans; eassumption.
      * apply elem_of_cons in Hc as [-> | Hc].
        -- eapply Compare_trans; eassumption.
        -- apply Hmin. right; exact Hc.
Qed.

Lemma minimum_unique (l l' : list (list byte)) m m' :
  l ≡ₚ l' ->
  m ∈ l -> (forall c, c ∈ l -> bytes.Compare m c <= 0) ->
  m' ∈ l' -> (forall c, c ∈ l' -> bytes.Compare m' c <= 0) ->
  m = m'.
Proof.
  intros Hp Hin Hmin Hin' Hmin'.
  assert (H1 : bytes.Compare m m' <= 0) by (apply Hmin; rewrite Hp; exact Hin').
  assert (H2 : bytes.Compare m' m <= 0) by (apply Hmin'; rewrite <- Hp; exact Hin).
  rewrite (Compare_antisym m m') in H2. apply Compare_eq. lia.
Qed.

(** C10: when a new best nonce is found the result of the metadata save is
    dropped: if the save fails the block still returns normally with the
    nonce and its value updated in memory only, and a whole [Initialize]
    can write every label and return success while the metadata record on
    disk never receives the nonce. *)
Theorem save_error_discarded :
  (forall env res startPosition n tail c s,
     oracle.Nonce res = Some n ->
     slice_from (oracle.Output res) (uint64 (uint64 (n - startPosition) * 16)) = Some tail ->
     slice_to tail 16 = Some c ->
     match nonceValue (init s) with
     | None => True
     | Some best => bytes.Compare c best < 0
     end ->
     let i' := set_nonce (Some n) (set_nonceValue (Some c) (init s)) in
     io_fault env (trace s) (OpSaveMetadata (metadataOf i')) = true ->
     initFile_nonce env res startPosition s =
       (Val tt, {| init := i'; disk := disk s;
                   trace := trace s ++ [OpSaveMetadata (metadataOf i')] |})) /\
  (let run := Initialize (sample_env failing_save never_stop (hit_at 1)) 3 fresh_state in
   fst run = Val tt /\
   nonce (init (snd run)) = Some 1 /\
   nonceValue (init (snd run)) = Some (sample_label 1) /\
   mtx (init (snd run)) = false /\
   NumLabels (totalBytes (disk (snd run))) = 4 /\
   metadataFile (disk (snd run)) = Some (sample_metadata 1) /\
   shared.Nonce (sample_metadata 1) = None).
Proof.
  split.
  - intros env res startPosition n tail c s Hn Ht Hc Hbest i' Hfault.
    rewrite (initFile_nonce_eq env res startPosition n tail c s Hn Ht Hc).
    cbv zeta. fold i'. rewrite Hfault.
    destruct (nonceValue (init s)) as [best |]; [| reflexivity].
    apply Z.ltb_lt in Hbest. rewrite Hbest. reflexivity.
  - vm_compute. repeat split; reflexivity.
Qed.

Lemma save_error_discarded_witness :
  let res := {| oracle.Output := sample_label 1; oracle.Nonce := Some 1 |} in
  let env := sample_env failing_save never_stop (hit_at 1) in
  fst (initFile_nonce env res 1 fresh_state) = Val tt /\
  disk (snd (initFile_nonce env res 1 fresh_state)) = disk fresh_state.
Proof.
  cbv zeta.
  rewrite (proj1 save_error_discarded (sample_env failing_save never_stop (hit_at 1))
             {| oracle.Output := sample_label 1; oracle.Nonce := Some 1 |} 1 1
             (sample_label 1) (sample_label 1) fresh_state
             eq_refl eq_refl eq_refl I eq_refl).
  split; reflexivity.
Defined.

(** ** The search past the end of the label space *)

Lemma bind_Err_inv {A B} (m : M A) (k : A -> M B) s e s' :
  bind m k s = (Err e, s') ->
  m s = (Err e, s') \/ exists a s1, m s = (Val a, s1) /\ k a s1 = (Err e, s').
Proof.
  unfold bind. destruct (m s) as [[a | e1 | | ] s1]; intros H; try discriminate H.
  - right. eauto.
  - left. inversion H; subst. reflexivity.
Qed.

Lemma defer_Err_inv {A} (cleanup : M unit) (body : M A) s e s' :
  defer cleanup body s = (Err e, s') ->
  exists s1, body s = (Err e, s1) /\ s' = snd (cleanup s1).
Proof.
  unfold defer. destruct (body s) as [[a | e1 | | ] s1]; intros H; inversion H; subst.
  exists s1. split; reflexivity.
Qed.

Lemma bind_Val_inv {A B} (m : M A) (k : A -> M B) s b s' :
  bind m k s = (Val b, s') ->
  exists a s1, m s = (Val a, s1) /\ k a s1 = (Val b, s').
Proof.
  unfold bind. destruct (m s) as [[a | e | | ] s1]; intros H; try discriminate H. eauto.
Qed.

Lemma defer_Val_inv {A} (cleanup : M unit) (body : M A) s a s' :
  defer cleanup body s = (Val a, s') ->
  exists s1, body s = (Val a, s1) /\ s' = snd (cleanup s1).
Proof.
  unfold defer. destruct (body s) as [[a1 | e1 | | ] s1]; intros H; inversion H; subst.
  exists s1. split; reflexivity.
Qed.

Lemma bind_raises_inv {A B} (E : error -> Prop) (m : M A) (k : A -> M B) s e s' :
  raises E m -> ~ E e ->
  bind m k s = (Err e, s') ->
  exists a s1, m s = (Val a, s1) /\ k a s1 = (Err e, s').
Proof.
  intros Hm He H. apply bind_Err_inv in H as [H | H]; [| exact H].
  apply Hm in H. contradiction.
Qed.

Ltac raises_step :=
  first
    [ apply raises_ret | apply raises_panic | apply raises_timeout | apply raises_get
    | apply raises_modify | apply raises_try | apply raises_discard
    | apply raises_fail; discriminate
    | apply raises_io; discriminate
    | apply raises_bind; [ | intros ? ]
    | apply raises_defer
    | match goal with
      | |- raises _ (if ?b then _ else _) => destruct b
      | |- raises _ (match ?x with _ => _ end) => destruct x
      end ].

Lemma raises_ctx_Done E env : raises E (ctx_Done env).
Proof. intros s e s' H. discriminate H. Qed.

Lemma raises_RemoveFile env name : raises not_NoNonceFound (RemoveFile env name).
Proof.
  intros s e s' H. unfold RemoveFile in H.
  destruct (os_Remove env name s) as [[a | e1 | | ] s1]; inversion H; subst. discriminate.
Qed.

Lemma raises_files env fuel wo layout batchSize difficulty n : forall i,
  raises not_NoNonceFound (Initialize_files env fuel wo layout batchSize difficulty n i).
Proof.
  assert (Hloop : forall fuel fileIndex fileOffset fileNumLabels batchSize currentPosition,
            raises not_NoNonceFound
              (initFile_loop env fuel wo fileIndex batchSize fileOffset fileNumLabels
                 currentPosition)).
  { clear. intros fuel fileIndex fileOffset fileNumLabels.
    induction fuel as [| fuel IH]; intros batchSize currentPosition; simpl.
    - apply raises_timeout.
    - destruct (currentPosition <? fileNumLabels); [| apply raises_ret].
      unfold wo_Positions, initFile_nonce, writer_Flush, writer_Write, log.
      repeat first [ apply raises_ctx_Done | apply IH | raises_step ]. }
  induction n as [| n IH]; intros i; simpl; [apply raises_ret |].
  unfold initFile, NewLabelsWriter, writer_NumLabelsWritten, writer_Truncate, writer_Flush.
  repeat first [ apply Hloop | apply IH | raises_step ].
Qed.

Lemma raises_removeRedundantFiles_loop env n : forall i,
  raises not_NoNonceFound (removeRedundantFiles_loop env n i).
Proof.
  induction n as [| n IH]; intros i; simpl.
  - apply raises_ret.
  - apply raises_bind; [apply raises_RemoveFile | intros _; apply IH].
Qed.

Lemma raises_removeRedundantFiles env layout :
  raises not_NoNonceFound (removeRedundantFiles env layout).
Proof.
  unfold removeRedundantFiles, diskState_NumFilesWritten.
  apply raises_bind; [repeat raises_step |]. intros numFiles.
  apply raises_removeRedundantFiles_loop.
Qed.

Lemma oracle_New_inv env p c d s a s1 :
  oracle_New env p c d s = (Val a, s1) ->
  a = work_oracle env p c d /\ init s1 = init s.
Proof.
  unfold oracle_New, bind, io, ret.
  destruct (io_fault env (trace s) _); intros H; inversion H; subst. split; reflexivity.
Qed.

Lemma search_position_S batchSize p k :
  search_position batchSize p (S k) = search_position batchSize (uint64 (p + batchSize)) k.
Proof. unfold search_position. rewrite Nat.iter_succ_r. reflexivity. Qed.

Lemma wo_Positions_eq (wo : WorkOracle) a b s :
  wo_Positions wo a b s =
    (match wo a b with
     | inl code => Err (ErrOracle code)
     | inr r => Val r
     end,
     {| init := init s; disk := disk s; trace := trace s ++ [OpPositions a b] |}).
Proof. unfold wo_Positions, bind, log, modify. simpl. destruct (wo a b); reflexivity. Qed.

Lemma Initialize_search_S env fuel wo batchSize i :
  Initialize_search env (S fuel) wo batchSize i =
    if i <? MaxUint64 then
      do_ modify (with_init (set_lastPosition (Some i)));
      do stopped <- ctx_Done env;
      if (stopped : bool) then fail ErrCanceled
      else
        do res <- wo_Positions wo i (uint64 (i + batchSize - 1));
        match oracle.Nonce res with
        | Some n => modify (with_init (set_nonce (Some n)))
        | None => Initialize_search env fuel wo batchSize (uint64 (i + batchSize))
        end
    else fail ErrNoNonceFound.
Proof. reflexivity. Qed.

(** ** The outcome of the search, batch by batch *)

Lemma search_trace_front batchSize i n :
  search_trace batchSize i (S n)
  = batch_ops batchSize i 0 ++ search_trace batchSize (uint64 (i + batchSize)) n.
Proof.
  unfold search_trace. cbn [seq fmap list_fmap concat]. f_equal.
  rewrite <- fmap_S_seq, <- list_fmap_compose. f_equal.
  apply list_fmap_ext. intros k j _. unfold compose, batch_ops, batch_end.
  rewrite !search_position_S. reflexivity.
Qed.

Lemma search_trace_back batchSize i n :
  search_trace batchSize i (S n) = search_trace batchSize i n ++ batch_ops batchSize i n.
Proof.
  unfold search_trace. rewrite seq_S, fmap_app, concat_app. cbn.
  rewrite ?app_nil_r. reflexivity.
Qed.

Lemma silent_shift wo batchSize i j :
  silent wo batchSize (uint64 (i + batchSize)) j -> silent wo batchSize i (S j).
Proof.
  unfold silent, batch_end. rewrite !search_position_S. auto.
Qed.

Lemma below_S (P : nat -> Prop) n :
  P O -> (forall j, (j < n)%nat -> P (S j)) -> forall j, (j < S n)%nat -> P j.
Proof. intros H0 HS [| j] Hj; [exact H0 | apply HS; lia]. Qed.

Lemma Initialize_search_outcome env wo batchSize fuel : forall i s r s',
  Initialize_search env fuel wo batchSize i s = (r, s') ->
  exists n,
    (n <= fuel)%nat /\
    disk s' = disk s /\
    (forall j, (j < n)%nat ->
       search_position batchSize i j < MaxUint64 /\
       ctx_done env (trace s ++ search_trace batchSize i j) = false) /\
    search_outcome env wo batchSize i fuel s r s' n.
Proof.
  induction fuel as [| fuel IH]; intros i s r s' H.
  { inversion H; subst. exists O. split; [lia |]. split; [reflexivity |].
    split; [intros j Hj; lia |]. cbn. rewrite app_nil_r. repeat split; intros; lia. }
  rewrite Initialize_search_S in H. destruct (i <? MaxUint64) eqn:Elt.
  2:{ inversion H; subst. apply Z.ltb_ge in Elt. exists O. split; [lia |].
      split; [reflexivity |]. split; [intros j Hj; lia |].
      cbn. rewrite app_nil_r. repeat split; try (intros; lia); try assumption. }
  apply Z.ltb_lt in Elt.
  rewrite bind_modify in H. unfold bind in H at 1. unfold ctx_Done in H at 1.
  cbn [with_init init disk trace] in H.
  destruct (ctx_done env (trace s)) eqn:Ectx.
  { inversion H; subst. exists O. split; [lia |]. split; [reflexivity |].
    split; [intros j Hj; lia |].
    cbn. rewrite app_nil_r. repeat split; try (intros; lia); try assumption. }
  unfold bind in H at 1. rewrite wo_Positions_eq in H. cbn [init disk trace] in H.
  assert (Hfirst : search_position batchSize i 0 < MaxUint64 /\
                   ctx_done env (trace s ++ search_trace batchSize i 0) = false).
  { cbn. rewrite app_nil_r. split; assumption. }
  change (uint64 (i + batchSize - 1)) with (batch_end batchSize i 0) in H.
  destruct (wo i (batch_end batchSize i 0)) as [code | [out [found |]]] eqn:Ewo.
  - inversion H; subst. exists 1%nat. split; [lia |]. split; [reflexivity |].
    split; [apply below_S; [exact Hfirst | intros j Hj; lia] |].
    exists O. cbn. rewrite <- app_assoc. repeat split; try (intros; lia); try assumption.
  - inversion H; subst. exists 1%nat. split; [lia |]. split; [reflexivity |].
    split; [apply below_S; [exact Hfirst | intros j Hj; lia] |].
    exists O, {| oracle.Output := out; oracle.Nonce := Some found |}, found.
    cbn. rewrite <- app_assoc. repeat split; try (intros; lia); try assumption.
  - cbn [oracle.Nonce] in H.
    match type of H with Initialize_search _ _ _ _ _ ?st = _ =>
      remember st as s2 eqn:Es2 end.
    assert (Ht2 : trace s2 = trace s ++ batch_ops batchSize i 0).
    { subst s2. cbn. rewrite <- app_assoc. reflexivity. }
    assert (Hd2 : disk s2 = disk s) by (subst s2; reflexivity).
    assert (Hn2 : nonce (init s2) = nonce (init s)) by (subst s2; reflexivity).
    assert (Hl2 : lastPosition (init s2) = Some i) by (subst s2; reflexivity).
    clear Es2.
    apply IH in H as (n & Hn & Hdisk & Hpolls & Hout).
    assert (Hsilent0 : silent wo batchSize i 0) by (exists out; exact Ewo).
    assert (Htr : forall k,
              trace s2 ++ search_trace batchSize (uint64 (i + batchSize)) k
              = trace s ++ search_trace batchSize i (S k)).
    { intros k. rewrite Ht2, search_trace_front, <- app_assoc. reflexivity. }
    assert (Hsil : forall m,
              (forall j, (j < m)%nat -> silent wo batchSize (uint64 (i + batchSize)) j) ->
              forall j, (j < S m)%nat -> silent wo batchSize i j).
    { intros m Hs. apply below_S; [exact Hsilent0 |].
      intros j Hj. apply silent_shift, Hs, Hj. }
    exists (S n). split; [lia |]. split; [congruence |]. split.
    { apply below_S; [exact Hfirst |]. intros j Hj. rewrite search_position_S.
      destruct (Hpolls j Hj) as [Hp Hc]. split; [exact Hp |].
      rewrite <- Htr. exact Hc. }
    unfold search_outcome in *. unfold batch_end in *.
    destruct r as [[] | e | |].
    + destruct Hout as (m & res & fd & -> & Hs & Hw & Hnn & Hno & Hlp & Htrace).
      exists (S m), res, fd. rewrite !search_position_S.
      split; [reflexivity |]. split; [apply Hsil, Hs |].
      split; [exact Hw |]. split; [exact Hnn |]. split; [exact Hno |].
      split; [exact Hlp |]. rewrite Htrace. apply Htr.
    + destruct e; try contradiction.
      * destruct Hout as (Hs & Hmax & Hno & Hlp & Htrace).
        rewrite search_position_S.
        split; [apply Hsil, Hs |]. split; [exact Hmax |]. split; [congruence |]. split.
        { rewrite Hlp. destruct n as [| m]; unfold stored_position; [exact Hl2 |].
          rewrite search_position_S. reflexivity. }
        rewrite Htrace. apply Htr.
      * destruct Hout as (Hs & Hmax & Hc & Hno & Hlp & Htrace).
        rewrite search_position_S.
        split; [apply Hsil, Hs |]. split; [exact Hmax |]. split.
        { rewrite <- Htr. exact Hc. }
        split; [congruence |]. split; [exact Hlp |].
        rewrite Htrace, app_assoc, Htr, <- app_assoc. reflexivity.
      * destruct Hout as (m & -> & Hs & Hw & Hno & Hlp & Htrace).
        exists (S m). rewrite !search_position_S.
        split; [reflexivity |]. split; [apply Hsil, Hs |].
        split; [exact Hw |]. split; [congruence |].
        split; [exact Hlp |]. rewrite Htrace. apply Htr.
    + contradiction.
    + destruct Hout as (-> & Hs & Hno & Hlp & Htrace).
      split; [reflexivity |]. split; [apply Hsil, Hs |]. split; [congruence |]. split.
      { rewrite Hlp. destruct fuel as [| m]; unfold stored_position; [exact Hl2 |].
        rewrite search_position_S. reflexivity. }
      rewrite Htrace. apply Htr.
Qed.

Lemma Initialize_search_exhausted env wo batchSize fuel : forall i s s',
  0 <= i < 2 ^ 64 ->
  Initialize_search env fuel wo batchSize i s = (Err ErrNoNonceFound, s') ->
  nonce (init s') = nonce (init s) /\
  exists k,
    search_position batchSize i k = MaxUint64 /\
    forall j, (j < k)%nat ->
      search_position batchSize i j < MaxUint64 /\
      exists out,
        wo (search_position batchSize i j)
           (uint64 (search_position batchSize i j + batchSize - 1))
        = inr {| oracle.Output := out; oracle.Nonce := None |}.
Proof.
  induction fuel as [| fuel IH]; intros i s s' Hi H; [discriminate H |].
  rewrite Initialize_search_S in H.
  destruct (i <? MaxUint64) eqn:Elt.
  - rewrite bind_modify in H.
    apply bind_Err_inv in H as [H | (stopped & s1 & Hs1 & H)]; [discriminate H |].
    inversion Hs1; subst; clear Hs1.
    destruct (ctx_done env _); [discriminate H |].
    apply bind_Err_inv in H as [H | (res & s2 & Hs2 & H)];
      rewrite wo_Positions_eq in *.
    { destruct (wo i (uint64 (i + batchSize - 1))); discriminate H. }
    destruct (wo i (uint64 (i + batchSize - 1))) as [code | [out [n |]]] eqn:Ewo;
      inversion Hs2; subst; clear Hs2; try discriminate H.
    simpl in H. apply IH in H; [| apply uint64_range].
    destruct H as [Hnonce (k & Hk & Hall)]. split; [exact Hnonce |].
    exists (S k). split; [rewrite search_position_S; exact Hk |].
    intros [| j] Hj.
    + simpl. split; [apply Z.ltb_lt; exact Elt | eauto].
    + rewrite search_position_S. apply Hall. lia.
  - inversion H; subst. split; [reflexivity |]. exists O. split.
    + simpl. apply Z.ltb_ge in Elt. unfold MaxUint64 in *. lia.
    + intros j Hj. lia.
Qed.
Lemma files_keep_lastPosition env fuel wo layout batchSize difficulty n i :
  preserves (on_init lastPosition_kept)
    (Initialize_files env fuel wo layout batchSize difficulty n i).
Proof.
  apply inv_Initialize_files; unfold lastPosition_kept; intros; try reflexivity; congruence.
Qed.

Lemma removeRedundantFiles_keeps_init env layout s r s' :
  removeRedundantFiles env layout s = (r, s') -> init s' = init s.
Proof.
  intros H. apply (inv_removeRedundantFiles env (fun i i' => i' = i)) in H;
    [exact H | reflexivity | intros; congruence].
Qed.

Lemma saveMetadata_keeps_init env s : init (snd (saveMetadata env s)) = init s.
Proof.
  apply (inv_saveMetadata env (fun i i' => i' = i) (fun _ => eq_refl)
           ltac:(intros; congruence) s (fst (saveMetadata env s))).
  apply surjective_pairing.
Qed.

(** ** Persistence of the search position *)

Lemma nothing_saved_refl s : nothing_saved s s.
Proof. split; reflexivity. Qed.

Lemma nothing_saved_trans a b c : nothing_saved a b -> nothing_saved b c -> nothing_saved a c.
Proof. intros [H1 H2] [H3 H4]. split; congruence. Qed.

Lemma nothing_saved_log s op : isSave op = false ->
  nothing_saved s {| init := init s; disk := disk s; trace := trace s ++ [op] |}.
Proof.
  intros H. split; [reflexivity |]. simpl. rewrite filter_app.
  rewrite filter_cons_False by (rewrite H; auto). apply app_nil_r.
Qed.

Lemma Initialize_search_nothing_saved env wo batchSize fuel : forall i,
  preserves nothing_saved (Initialize_search env fuel wo batchSize i).
Proof.
  induction fuel as [| fuel IH]; intros i.
  - apply (preserves_timeout _ nothing_saved_refl).
  - rewrite Initialize_search_S. destruct (i <? MaxUint64).
    2:{ apply (preserves_fail _ nothing_saved_refl). }
    apply (preserves_bind _ nothing_saved_trans).
    { apply preserves_modify. intros s. split; reflexivity. }
    intros _. apply (preserves_bind _ nothing_saved_trans).
    { intros s r s' H. inversion H; subst. apply nothing_saved_log. reflexivity. }
    intros stopped. destruct stopped; [apply (preserves_fail _ nothing_saved_refl) |].
    apply (preserves_bind _ nothing_saved_trans).
    { intros s r s' H. rewrite wo_Positions_eq in H. inversion H; subst.
      apply nothing_saved_log. reflexivity. }
    intros res. destruct (oracle.Nonce res); [| apply IH].
    apply preserves_modify. intros s. split; reflexivity.
Qed.

Lemma saveMetadata_eq env s :
  saveMetadata env s =
    (if io_fault env (trace s) (OpSaveMetadata (metadataOf (init s)))
     then Err (ErrIO (OpSaveMetadata (metadataOf (init s)))) else Val tt,
     {| init := init s;
        disk := if io_fault env (trace s) (OpSaveMetadata (metadataOf (init s)))
                then disk s
                else set_metadataFile (Some (metadataOf (init s))) (disk s);
        trace := trace s ++ [OpSaveMetadata (metadataOf (init s))] |}).
Proof.
  unfold saveMetadata. rewrite bind_get.
  unfold SaveMetadata, bind, io, modify, with_disk.
  destruct (io_fault env (trace s) _); reflexivity.
Qed.

Lemma Initialize_finish_eq env fuel wo batchSize numLabels s :
  nonce (init s) = None ->
  let start := match lastPosition (init s) with
               | Some p => Z.max p numLabels
               | None => numLabels
               end in
  Initialize_finish env fuel wo batchSize numLabels s =
    defer (saveMetadata env) (Initialize_search env fuel wo batchSize start)
      (with_init (set_lastPosition (Some start)) s).
Proof.
  intros Hn start. unfold Initialize_finish. rewrite bind_get, Hn.
  assert (Hstep : forall se, lastPosition (init se) = Some start ->
            (do s2 <- get;
             match lastPosition (init s2) with
             | Some p => Initialize_search env fuel wo batchSize p
             | None => panic
             end) se = Initialize_search env fuel wo batchSize start se).
  { intros se Hse. rewrite bind_get, Hse. reflexivity. }
  destruct (lastPosition (init s)) as [p |] eqn:Ep.
  - destruct (p <? numLabels) eqn:Ecmp.
    + apply Z.ltb_lt in Ecmp.
      assert (Hst : start = numLabels) by (unfold start; lia).
      clearbody start. subst start. rewrite bind_modify.
      unfold defer. rewrite Hstep by reflexivity. reflexivity.
    + apply Z.ltb_ge in Ecmp.
      assert (Hst : start = p) by (unfold start; lia).
      clearbody start. subst start.
      replace (with_init (set_lastPosition (Some p)) s) with s.
      2:{ destruct s as [i d t]. unfold with_init. simpl in *. f_equal.
          destruct i; simpl in *; subst; reflexivity. }
      change ((do_ ret tt; ?k) s) with (k s).
      unfold defer. rewrite Hstep by exact Ep. reflexivity.
  - subst start. rewrite bind_modify. unfold defer. rewrite Hstep by reflexivity. reflexivity.
Qed.

Lemma NewInitializer_resume_loads env s m :
  io_fault env (trace s) OpDiskNumLabelsWritten = false ->
  io_fault env (trace s ++ [OpDiskNumLabelsWritten]) OpLoadMetadata = false ->
  NumLabels (totalBytes (disk s)) > 0 ->
  metadataFile (disk s) = Some m ->
  verifyMetadata (init s) m = None ->
  let i' := set_lastPosition (shared.LastPosition m) (set_nonce (shared.Nonce m) (init s)) in
  init (snd (NewInitializer_resume env s)) = i' /\
  lastPosition (init (snd (NewInitializer_resume env s))) = shared.LastPosition m.
Proof.
  intros Hf1 Hf2 Hpos Hm Hv i'.
  assert (init (snd (NewInitializer_resume env s)) = i'); [| split; [assumption |]].
  2:{ rewrite H. reflexivity. }
  unfold NewInitializer_resume.
  pose proof (diskState_NumLabelsWritten_eq env s) as H1. rewrite Hf1 in H1.
  rewrite (bind_val _ _ _ _ _ H1).
  replace (NumLabels (totalBytes (disk s)) >? 0) with true
    by (symmetry; rewrite Z.gtb_ltb; apply Z.ltb_lt; lia).
  set (s1 := {| init := init s; disk := disk s;
                trace := trace s ++ [OpDiskNumLabelsWritten] |}).
  assert (H2 : loadMetadata env s1 =
               (Val m, {| init := init s; disk := disk s;
                          trace := trace s1 ++ [OpLoadMetadata] |})).
  { unfold loadMetadata. rewrite bind_get. unfold LoadMetadata, bind, io, get.
    subst s1. cbn [init disk trace]. rewrite Hf2. cbn [init disk trace]. rewrite Hm.
    reflexivity. }
  erewrite bind_val.
  2:{ rewrite (bind_val _ _ _ _ _ H2). rewrite bind_get. cbn [init]. rewrite Hv.
      rewrite bind_modify. reflexivity. }
  rewrite saveMetadata_keeps_init. reflexivity.
Qed.

Lemma filter_isPositions_search_trace batchSize i n :
  length (filter isPositions (search_trace batchSize i n)) = n.
Proof.
  induction n as [| n IH]; [reflexivity |].
  rewrite search_trace_back, filter_app, length_app, IH. unfold batch_ops.
  rewrite filter_cons_False by (cbn; auto).
  rewrite filter_cons_True by (cbn; auto). cbn. lia.
Qed.

Lemma calls_made_search s s' batchSize i n tail :
  trace s' = trace s ++ search_trace batchSize i n ++ tail ->
  filter isPositions tail = [] ->
  calls_made s s' = n.
Proof.
  intros Ht Htail. unfold calls_made.
  rewrite Ht, !filter_app, !length_app, Htail, filter_isPositions_search_trace. cbn. lia.
Qed.

Lemma search_outcome_calls env wo batchSize i fuel s r s' n :
  search_outcome env wo batchSize i fuel s r s' n -> calls_made s s' = n.
Proof.
  unfold search_outcome. intros H.
  destruct r as [[] | e | |]; [| destruct e | |]; try contradiction.
  - destruct H as (m & res & fd & _ & _ & _ & _ & _ & _ & Ht).
    apply (calls_made_search s s' batchSize i n []); [rewrite app_nil_r; exact Ht | reflexivity].
  - destruct H as (_ & _ & _ & _ & Ht).
    apply (calls_made_search s s' batchSize i n []); [rewrite app_nil_r; exact Ht | reflexivity].
  - destruct H as (_ & _ & _ & _ & _ & Ht).
    apply (calls_made_search s s' batchSize i n [OpCtxDone]); [exact Ht | reflexivity].
  - destruct H as (m & _ & _ & _ & _ & _ & Ht).
    apply (calls_made_search s s' batchSize i n []); [rewrite app_nil_r; exact Ht | reflexivity].
  - destruct H as (_ & _ & _ & _ & Ht).
    apply (calls_made_search s s' batchSize i n []); [rewrite app_nil_r; exact Ht | reflexivity].
Qed.

Lemma calls_made_saved env s sf :
  calls_made s (snd (saveMetadata env sf)) = calls_made s sf.
Proof.
  unfold calls_made. rewrite saveMetadata_eq. cbn [snd trace].
  rewrite filter_app, filter_cons_False by (cbn; auto). rewrite app_nil_r. reflexivity.
Qed.

(** [Initialize_finish] without a nonce: the search from [search_start],
    followed by the deferred save unless the run is stopped from outside. *)
Lemma Initialize_finish_search env fuel wo batchSize numLabels s r s' :
  nonce (init s) = None ->
  Initialize_finish env fuel wo batchSize numLabels s = (r, s') ->
  let start := search_start numLabels (lastPosition (init s)) in
  exists sf,
    search_outcome env wo batchSize start fuel
      (with_init (set_lastPosition (Some start)) s) r sf (calls_made s s') /\
    (forall j, (j < calls_made s s')%nat ->
       search_position batchSize start j < MaxUint64 /\
       ctx_done env (trace s ++ search_trace batchSize start j) = false) /\
    disk sf = disk s /\
    s' = match r with Timeout => sf | _ => snd (saveMetadata env sf) end.
Proof.
  intros Hn H start.
  rewrite (Initialize_finish_eq env fuel wo batchSize numLabels s Hn) in H. cbv zeta in H.
  fold (search_start numLabels (lastPosition (init s))) in H. fold start in H.
  set (se := with_init (set_lastPosition (Some start)) s) in *.
  unfold defer in H.
  destruct (Initialize_search env fuel wo batchSize start se) as [r1 sf] eqn:Es.
  destruct (Initialize_search_outcome env wo batchSize fuel start se r1 sf Es)
    as (n & _ & Hdisk & Hpolls & Hout).
  pose proof (search_outcome_calls _ _ _ _ _ _ _ _ _ Hout) as Hcalls.
  assert (Hsame : forall x, calls_made s x = calls_made se x) by reflexivity.
  exists sf.
  assert (Hr : r = r1 /\ s' = match r1 with Timeout => sf | _ => snd (saveMetadata env sf) end).
  { destruct r1; inversion H; subst; split; reflexivity. }
  destruct Hr as [-> Hs'].
  assert (Hc : calls_made s s' = n).
  { rewrite Hs'. destruct r1; rewrite ?calls_made_saved, Hsame; exact Hcalls. }
  rewrite Hc. split; [exact Hout |]. split; [exact Hpolls |]. split; [exact Hdisk | exact Hs'].
Qed.




(** ** What a run that ends at the bound has passed *)

Lemma all_passed_app env wo h a b :
  all_passed env wo h (a ++ b) <-> all_passed env wo h a /\ all_passed env wo (h ++ a) b.
Proof.
  revert h. induction a as [| op a IH]; intros h; cbn [app all_passed].
  - rewrite app_nil_r. tauto.
  - rewrite IH, <- app_assoc. cbn [app]. tauto.
Qed.

Lemma passed_refl env wo s : passed env wo s s.
Proof. exists []. rewrite app_nil_r. split; [reflexivity | exact I]. Qed.

Lemma passed_trans env wo a b c : passed env wo a b -> passed env wo b c -> passed env wo a c.
Proof.
  intros (r1 & Ht1 & Hp1) (r2 & Ht2 & Hp2). exists (r1 ++ r2). split.
  - rewrite Ht2, Ht1, app_assoc. reflexivity.
  - apply all_passed_app. split; [exact Hp1 |]. rewrite <- Ht1. exact Hp2.
Qed.

Lemma passed_one env wo s s' op :
  trace s' = trace s ++ [op] -> op_passed env wo (trace s) op -> passed env wo s s'.
Proof. intros Ht Hop. exists [op]. split; [exact Ht |]. split; [exact Hop | exact I]. Qed.

Section Succeeds.

Variable Q : State -> State -> Prop.
Hypothesis Q_refl : forall s, Q s s.
Hypothesis Q_trans : forall a b c, Q a b -> Q b c -> Q a c.

Lemma succeeds_ret {A} (a : A) : succeeds Q (ret a).
Proof. intros s a' s' H. inversion H; subst. apply Q_refl. Qed.

Lemma succeeds_fail {A} (e : error) : succeeds Q (@fail A e).
Proof. intros s a s' H. discriminate H. Qed.

Lemma succeeds_panic {A} : succeeds Q (@panic A).
Proof. intros s a s' H. discriminate H. Qed.

Lemma succeeds_timeout {A} : succeeds Q (@timeout A).
Proof. intros s a s' H. discriminate H. Qed.

Lemma succeeds_get : succeeds Q get.
Proof. intros s a s' H. inversion H; subst. apply Q_refl. Qed.

Lemma succeeds_modify f : (forall s, Q s (f s)) -> succeeds Q (modify f).
Proof. intros Hf s a s' H. inversion H; subst. apply Hf. Qed.

Lemma succeeds_bind {A B} (m : M A) (k : A -> M B) :
  succeeds Q m -> (forall a, succeeds Q (k a)) -> succeeds Q (bind m k).
Proof.
  intros Hm Hk s b s' H. apply bind_Val_inv in H as (a & s1 & H1 & H2).
  eapply Q_trans; [eapply Hm; exact H1 | eapply Hk; exact H2].
Qed.

Lemma succeeds_defer {A} (cleanup : M unit) (body : M A) :
  preserves Q cleanup -> succeeds Q body -> succeeds Q (defer cleanup body).
Proof.
  intros Hc Hb s a s' H. apply defer_Val_inv in H as (s1 & H & ->).
  eapply Q_trans; [eapply Hb; exact H | eapply Hc; apply surjective_pairing].
Qed.

Lemma succeeds_discard (m : M unit) : preserves Q m -> succeeds Q (discard m).
Proof.
  intros Hm s a s' H. unfold discard in H.
  destruct (m s) as [[a1 | e | | ] s1] eqn:E; inversion H; subst; eapply Hm; exact E.
Qed.

End Succeeds.

Ltac succeeds_step Hrefl Htrans :=
  first
    [ apply (succeeds_ret _ Hrefl)
    | apply succeeds_fail
    | apply succeeds_panic
    | apply succeeds_timeout
    | apply (succeeds_get _ Hrefl)
    | apply (succeeds_bind _ Htrans); [ | intros ? ]
    | match goal with
      | |- succeeds _ (if ?b then _ else _) => destruct b
      | |- succeeds _ (match ?x with _ => _ end) => destruct x
      end ].

Create HintDb pinv.

Section Passed.

Variable env : Env.
Variable wo : Z -> Z -> Z + oracle.WorkOracleResult.

Local Ltac spres :=
  repeat first [ solve [auto with pinv]
               | succeeds_step (passed_refl env wo) (passed_trans env wo) ].

Lemma pinv_io op : looked_at op = true -> succeeds (passed env wo) (io env op).
Proof.
  intros Hop s a s' H. unfold io in H.
  destruct (io_fault env (trace s) op) eqn:Ef; inversion H; subst.
  eapply passed_one; [reflexivity |].
  destruct op; try discriminate Hop; exact Ef.
Qed.

Lemma pinv_dropped op :
  match op with OpClose _ | OpOracleClose | OpSaveMetadata _ => True | _ => False end ->
  preserves (passed env wo) (io env op).
Proof.
  intros Hop s r s' H. apply io_inv in H as (_ & _ & Ht).
  eapply passed_one; [exact Ht |]. destruct op; try contradiction; exact I.
Qed.

Lemma pinv_modify f : (forall s, trace (f s) = trace s) -> succeeds (passed env wo) (modify f).
Proof.
  intros Hf. apply succeeds_modify. intros s. exists []. rewrite app_nil_r, Hf.
  split; [reflexivity | exact I].
Qed.

Lemma pinv_with_init f : succeeds (passed env wo) (modify (with_init f)).
Proof. apply pinv_modify. reflexivity. Qed.

Lemma pinv_with_disk f : succeeds (passed env wo) (modify (with_disk f)).
Proof. apply pinv_modify. reflexivity. Qed.

Local Hint Resolve pinv_with_init pinv_with_disk : pinv.
Local Hint Extern 1 (succeeds _ (io _ _)) => apply pinv_io; reflexivity : pinv.

Lemma pinv_saveMetadata_dropped : preserves (passed env wo) (saveMetadata env).
Proof.
  unfold saveMetadata, SaveMetadata.
  apply (preserves_bind _ (passed_trans env wo)); [apply (preserves_get _ (passed_refl env wo)) |].
  intros s0. apply (preserves_bind _ (passed_trans env wo)); [apply pinv_dropped; exact I |].
  intros _. apply preserves_modify. intros s. exists []. rewrite app_nil_r.
  split; [reflexivity | exact I].
Qed.

Lemma pinv_wo_Positions a b : succeeds (passed env wo) (wo_Positions wo a b).
Proof.
  intros s res s' H. rewrite wo_Positions_eq in H.
  destruct (wo a b) as [code | r] eqn:Ewo; inversion H; subst.
  eapply passed_one; [reflexivity |]. cbn. rewrite Ewo. eauto.
Qed.

Lemma pinv_poll {A} (k : bool -> M A) :
  (forall s a s', k true s <> (Val a, s')) ->
  succeeds (passed env wo) (k false) ->
  succeeds (passed env wo) (bind (ctx_Done env) k).
Proof.
  intros Htrue Hfalse s a s' H. unfold bind in H at 1. unfold ctx_Done in H at 1.
  destruct (ctx_done env (trace s)) eqn:Ec.
  - exfalso. eapply Htrue. exact H.
  - eapply passed_trans; [| eapply Hfalse; exact H].
    eapply passed_one; [reflexivity | exact Ec].
Qed.

Lemma pinv_initFile_nonce res startPosition :
  succeeds (passed env wo) (initFile_nonce env res startPosition).
Proof.
  unfold initFile_nonce. spres.
  apply succeeds_discard. apply pinv_saveMetadata_dropped.
Qed.

Local Hint Resolve pinv_wo_Positions pinv_initFile_nonce : pinv.

Lemma pinv_initFile_loop fileIndex fileOffset fileNumLabels fuel :
  forall batchSize currentPosition,
    succeeds (passed env wo)
      (initFile_loop env fuel wo fileIndex batchSize fileOffset fileNumLabels currentPosition).
Proof.
  induction fuel as [| fuel IH]; intros batchSize cur; cbn [initFile_loop]; [spres |].
  destruct (cur <? fileNumLabels); [| spres].
  apply pinv_poll.
  { intros s a s' H. unfold writer_Flush, bind, io, fail in H.
    destruct (io_fault env (trace s) _); discriminate H. }
  cbv zeta. unfold writer_Write.
  repeat first [ solve [auto with pinv] | apply IH
               | succeeds_step (passed_refl env wo) (passed_trans env wo) ].
Qed.

Lemma pinv_initFile fuel fileIndex batchSize fileOffset fileNumLabels difficulty :
  succeeds (passed env wo)
    (initFile env fuel wo fileIndex batchSize fileOffset fileNumLabels difficulty).
Proof.
  pose proof pinv_initFile_loop.
  unfold initFile, NewLabelsWriter, writer_NumLabelsWritten, writer_Truncate, writer_Flush.
  apply (succeeds_bind _ (passed_trans env wo)); [spres |]. intros _.
  apply (succeeds_defer _ (passed_trans env wo)); [apply pinv_dropped; exact I |].
  spres.
Qed.

Lemma pinv_Initialize_files fuel layout batchSize difficulty n : forall i,
  succeeds (passed env wo) (Initialize_files env fuel wo layout batchSize difficulty n i).
Proof.
  induction n as [| n IH]; intros i; cbn [Initialize_files]; [spres |].
  apply (succeeds_bind _ (passed_trans env wo)); [apply pinv_initFile | intros _; apply IH].
Qed.

Lemma pinv_RemoveFile name : succeeds (passed env wo) (RemoveFile env name).
Proof.
  assert (Hos : succeeds (passed env wo) (os_Remove env name)).
  { unfold os_Remove. spres. }
  intros s a s' H. unfold RemoveFile in H.
  destruct (os_Remove env name s) as [[a1 | e | | ] s1] eqn:E; inversion H; subst.
  eapply Hos. exact E.
Qed.

Lemma pinv_removeRedundantFiles layout :
  succeeds (passed env wo) (removeRedundantFiles env layout).
Proof.
  assert (Hloop : forall n i, succeeds (passed env wo) (removeRedundantFiles_loop env n i)).
  { induction n as [| n IH]; intros i; cbn [removeRedundantFiles_loop]; [spres |].
    apply (succeeds_bind _ (passed_trans env wo)); [apply pinv_RemoveFile | intros _; apply IH]. }
  unfold removeRedundantFiles, diskState_NumFilesWritten. spres.
Qed.

Lemma pinv_oracle_New p c d : succeeds (passed env wo) (oracle_New env p c d).
Proof. unfold oracle_New. spres. Qed.

End Passed.

(** C8: [Initialize] returns NoNonceFound only when the search past the end
    of the label space arrives at the last 64-bit position. On such a run
    no nonce is retained and, from the start of the run to that return,
    the context was not done at any poll, the operating system refused no
    operation whose error the run looks at, and the oracle answered every
    call without an error; every batch of the search, from its starting
    position up to [MaxUint64], was polled for, and answered without a
    candidate. The history ends with the deferred save and the closing of
    the oracle. *)
Theorem NoNonceFound_only_at_bound (env : Env) (fuel : nat) (s s' : State) :
  (forall p, lastPosition (init s) = Some p -> 0 <= p < 2 ^ 64) ->
  Initialize env fuel s = (Err ErrNoNonceFound, s') ->
  let i0 := init s in
  let numLabels := uint64 (config.NumUnits (opts i0) * config.LabelsPerUnit (cfg i0)) in
  let wo := work_oracle env (config.ProviderID (opts i0)) (commitment i0)
              (powDifficultyFunc i0 numLabels) in
  let batchSize := config.ComputeBatchSize (opts i0) in
  let start := search_start numLabels (lastPosition i0) in
  nonce (init s') = None /\
  mtx (init s') = false /\
  exists files k,
    trace s' = trace s ++ files ++ search_trace batchSize start k
                 ++ [OpSaveMetadata (metadataOf (init s')); OpOracleClose] /\
    all_passed env wo (trace s) files /\
    search_position batchSize start k = MaxUint64 /\
    forall j, (j < k)%nat ->
      search_position batchSize start j < MaxUint64 /\
      ctx_done env (trace s ++ files ++ search_trace batchSize start j) = false /\
      exists out,
        wo (search_position batchSize start j)
           (uint64 (search_position batchSize start j + batchSize - 1))
        = inr {| oracle.Output := out; oracle.Nonce := None |}.
Proof.
  intros Hrange H i0 numLabels wo batchSize start.
  assert (HE : ~ not_NoNonceFound ErrNoNonceFound) by (intros C; apply C; reflexivity).
  unfold Initialize in H.
  apply bind_Err_inv in H as [H | (locked & s0 & Hlock & H)].
  { unfold TryLock in H. destruct (mtx (init s)); discriminate H. }
  unfold TryLock in Hlock. destruct (mtx (init s)) eqn:Emtx; inversion Hlock; subst; clear Hlock.
  { discriminate H. }
  cbn [negb] in H. apply defer_Err_inv in H as (s1 & Hbody & ->).
  unfold Initialize_body in Hbody. rewrite bind_get in Hbody.
  cbn [with_init init] in Hbody.
  change (cfg (set_mtx true (init s))) with (cfg i0) in Hbody.
  change (opts (set_mtx true (init s))) with (opts i0) in Hbody.
  change (commitment (set_mtx true (init s))) with (commitment i0) in Hbody.
  change (powDifficultyFunc (set_mtx true (init s))) with (powDifficultyFunc i0) in Hbody.
  fold numLabels in Hbody. fold batchSize in Hbody.
  apply (bind_raises_inv _ _ _ _ _ _ (raises_removeRedundantFiles env _) HE) in Hbody
    as ([] & sa & Hrm & Hbody).
  pose proof (pinv_removeRedundantFiles env wo _ _ _ _ Hrm) as Hp1.
  apply removeRedundantFiles_keeps_init in Hrm.
  apply bind_Err_inv in Hbody as [Hbody | (w & sb & Hnew & Hbody)].
  { unfold oracle_New, bind, io in Hbody.
    destruct (io_fault env _ _); discriminate Hbody. }
  pose proof (pinv_oracle_New env wo _ _ _ _ _ _ Hnew) as Hp2.
  apply oracle_New_inv in Hnew as [-> Hsb]. fold wo in Hbody.
  apply defer_Err_inv in Hbody as (sc & Hbody & ->).
  apply (bind_raises_inv _ _ _ _ _ _ (raises_files env _ _ _ _ _ _ _) HE) in Hbody
    as ([] & sd & Hfiles & Hfin).
  pose proof (pinv_Initialize_files env wo _ _ _ _ _ _ _ _ _ Hfiles) as Hp3.
  apply files_keep_lastPosition in Hfiles. unfold on_init, lastPosition_kept in Hfiles.
  assert (Hlp : lastPosition (init sd) = lastPosition i0).
  { rewrite Hfiles, Hsb, Hrm. reflexivity. }
  assert (Hpassed : passed env wo s sd).
  { apply (passed_trans env wo s sa); [exact Hp1 |].
    apply (passed_trans env wo sa sb); [exact Hp2 | exact Hp3]. }
  destruct Hpassed as (files & Htfiles & Hall).
  destruct (nonce (init sd)) eqn:Enonce.
  { unfold Initialize_finish in Hfin. rewrite bind_get, Enonce in Hfin. discriminate Hfin. }
  destruct (Initialize_finish_search env fuel wo batchSize numLabels sd _ sc Enonce Hfin)
    as (sf & Hout & Hpolls & _ & Hsc).
  rewrite Hlp in Hout, Hpolls. fold start in Hout, Hpolls.
  remember (calls_made sd sc) as k eqn:Hk. clear Hk.
  cbn [search_outcome with_init init trace] in Hout.
  destruct Hout as (Hsilent & Hmax & Hno & _ & Htsf).
  assert (Hin : 0 <= start < 2 ^ 64).
  { unfold start, search_start. pose proof (uint64_range
      (config.NumUnits (opts i0) * config.LabelsPerUnit (cfg i0))) as Hn.
    fold numLabels in Hn.
    destruct (lastPosition i0) as [p |] eqn:Ep; [| exact Hn].
    specialize (Hrange p Ep). lia. }
  assert (Hposk : search_position batchSize start k = MaxUint64).
  { assert (Hr : 0 <= search_position batchSize start k < 2 ^ 64).
    { destruct k as [| k]; [exact Hin |]. cbn. apply uint64_range. }
    unfold MaxUint64 in *. lia. }
  assert (Hinit : init sc = init sf) by (rewrite Hsc; apply saveMetadata_keeps_init).
  split; [| split].
  - change (nonce (init sc) = None). rewrite Hinit, Hno. exact Enonce.
  - reflexivity.
  - exists files, k. split; [| split; [exact Hall | split; [exact Hposk |]]].
    + change (trace sc ++ [OpOracleClose]
              = trace s ++ files ++ search_trace batchSize start k
                  ++ [OpSaveMetadata (metadataOf (init sc)); OpOracleClose]).
      rewrite Hinit. rewrite Hsc at 1. rewrite saveMetadata_eq. cbn [snd trace].
      rewrite Htsf, Htfiles, <- !app_assoc. reflexivity.
    + intros j Hj. destruct (Hpolls j Hj) as [Hlt Hctx].
      split; [exact Hlt |]. split.
      * rewrite Htfiles, <- app_assoc in Hctx. exact Hctx.
      * exact (Hsilent j Hj).
Qed.

Lemma NoNonceFound_only_at_bound_witness :
  let run := Initialize quiet_env 3 exhausted_state in
  fst run = Err ErrNoNonceFound /\
  nonce (init (snd run)) = None /\
  exists files k,
    trace (snd run) = files ++ search_trace 2 (2 ^ 64 - 3) k
                        ++ [OpSaveMetadata (metadataOf (init (snd run))); OpOracleClose] /\
    search_position 2 (2 ^ 64 - 3) k = MaxUint64.
Proof.
  cbv zeta.
  assert (Hrange : forall p, lastPosition (init exhausted_state) = Some p -> 0 <= p < 2 ^ 64).
  { intros p E. simpl in E. injection E as <-. lia. }
  assert (Hfst : fst (Initialize quiet_env 3 exhausted_state) = Err ErrNoNonceFound).
  { vm_compute. reflexivity. }
  split; [exact Hfst |].
  destruct (NoNonceFound_only_at_bound quiet_env 3 exhausted_state
              (snd (Initialize quiet_env 3 exhausted_state)) Hrange)
    as (Hnonce & _ & files & k & Htrace & _ & Hk & _).
  { rewrite <- Hfst. apply surjective_pairing. }
  split; [exact Hnonce |]. exists files, k. split; [exact Htrace | exact Hk].
Defined.

(** C8 (as stated) fails for an error the run does not look at: every
    label file fails to close, which is an I/O error that occurs before the
    search, and [Initialize] still goes on to the end of the position space
    and returns NoNonceFound. *)
Lemma NoNonceFound_after_dropped_error :
  let env := sample_env failing_close never_stop no_hit in
  let run := Initialize env 3 exhausted_state in
  fst run = Err ErrNoNonceFound /\
  OpClose 0 ∈ trace (snd run) /\
  (forall h, io_fault env h (OpClose 0) = true) /\
  filter isPositions (trace (snd run)) = [OpPositions (2 ^ 64 - 3) (2 ^ 64 - 2)].
Proof.
  cbv zeta. split; [vm_compute; reflexivity |]. split; [| split; [reflexivity |]].
  - apply list_elem_of_lookup. exists 4%nat. vm_compute. reflexivity.
  - vm_compute. reflexivity.
Qed.

(** ** Resuming a file *)

Lemma fileBytes_insert d i c :
  fileBytes (set_labelFiles (<[i := c]> (labelFiles d)) d) i = c.
Proof. unfold fileBytes. simpl. rewrite lookup_insert_eq. reflexivity. Qed.

Lemma fileBytes_set_metadataFile d m i :
  fileBytes (set_metadataFile m d) i = fileBytes d i.
Proof. reflexivity. Qed.

Lemma NumLabels_div n : NumLabels n = n / 16.
Proof.
  unfold NumLabels, config.BitsPerLabel.
  replace 128 with (8 * 16) by reflexivity.
  rewrite (Z.mul_comm n 8). rewrite Z.div_mul_cancel_l by lia. reflexivity.
Qed.

Section Resume.

Variable env : Env.
Hypothesis Hnf : no_faults env.

Lemma io_ok op s :
    io env op s = (Val tt, {| init := init s; disk := disk s; trace := trace s ++ [op] |}).
Proof. unfold io. rewrite Hnf. reflexivity. Qed.

Lemma NewLabelsWriter_eq i s :
    NewLabelsWriter env i s =
      (Val tt,
       {| init := init s;
          disk := set_labelFiles (<[i := fileBytes (disk s) i]> (labelFiles (disk s))) (disk s);
          trace := trace s ++ [OpNewLabelsWriter i] |}).
Proof. unfold NewLabelsWriter. rewrite (bind_val _ _ _ _ _ (io_ok _ s)). reflexivity. Qed.

Lemma writer_NumLabelsWritten_eq i s :
    writer_NumLabelsWritten env i s =
      (Val (NumLabels (Z.of_nat (length (fileBytes (disk s) i)))),
       {| init := init s; disk := disk s; trace := trace s ++ [OpWriterNumLabelsWritten i] |}).
Proof.
    unfold writer_NumLabelsWritten. rewrite (bind_val _ _ _ _ _ (io_ok _ s)). reflexivity.
Qed.

Lemma writer_Truncate_eq i n s :
    writer_Truncate env i n s =
      (Val tt,
       {| init := init s;
          disk := set_labelFiles
                    (<[i := resize (Z.to_nat (n * config.BitsPerLabel / 8)) x00%byte
                              (fileBytes (disk s) i)]> (labelFiles (disk s))) (disk s);
          trace := trace s ++ [OpTruncate i n] |}).
Proof. unfold writer_Truncate. rewrite (bind_val _ _ _ _ _ (io_ok _ s)). reflexivity. Qed.

Lemma writer_Write_eq i data s :
    writer_Write env i data s =
      (Val tt,
       {| init := init s;
          disk := set_labelFiles (<[i := fileBytes (disk s) i ++ data]> (labelFiles (disk s)))
                    (disk s);
          trace := trace s ++ [OpWrite i data] |}).
Proof. unfold writer_Write. rewrite (bind_val _ _ _ _ _ (io_ok _ s)). reflexivity. Qed.

  (** Case 1: the file holds exactly its target. *)
Lemma initFile_complete fuel wo fileIndex batchSize fileOffset fileNumLabels difficulty s :
    NumLabels (Z.of_nat (length (fileBytes (disk s) fileIndex))) = fileNumLabels ->
    initFile env fuel wo fileIndex batchSize fileOffset fileNumLabels difficulty s =
      (Val tt,
       {| init := set_numLabelsWritten (uint64 (fileOffset + fileNumLabels)) (init s);
          disk := set_labelFiles
                    (<[fileIndex := fileBytes (disk s) fileIndex]> (labelFiles (disk s)))
                    (disk s);
          trace := trace s ++ [OpNewLabelsWriter fileIndex;
                               OpWriterNumLabelsWritten fileIndex; OpClose fileIndex] |}).
Proof.
    intros Hw. unfold initFile.
    rewrite (bind_val _ _ _ _ _ (NewLabelsWriter_eq _ s)).
    unfold defer. rewrite (bind_val _ _ _ _ _ (writer_NumLabelsWritten_eq _ _)).
    cbn [disk]. rewrite fileBytes_insert, Hw, Z.eqb_refl.
    unfold writer_Close. cbn. rewrite io_ok. cbn. rewrite <- !app_assoc. reflexivity.
Qed.

  (** Case 2: the file holds more than its target. *)
Lemma initFile_truncate fuel wo fileIndex batchSize fileOffset fileNumLabels difficulty s :
    NumLabels (Z.of_nat (length (fileBytes (disk s) fileIndex))) > fileNumLabels ->
    initFile env fuel wo fileIndex batchSize fileOffset fileNumLabels difficulty s =
      (Val tt,
       {| init := set_numLabelsWritten (uint64 (fileOffset + fileNumLabels)) (init s);
          disk := set_labelFiles
                    (<[fileIndex := resize (Z.to_nat (fileNumLabels * config.BitsPerLabel / 8))
                                      x00%byte (fileBytes (disk s) fileIndex)]>
                       (labelFiles (disk s)))
                    (disk s);
          trace := trace s ++ [OpNewLabelsWriter fileIndex; OpWriterNumLabelsWritten fileIndex;
                               OpTruncate fileIndex fileNumLabels; OpClose fileIndex] |}).
Proof.
    intros Hw. unfold initFile.
    rewrite (bind_val _ _ _ _ _ (NewLabelsWriter_eq _ s)).
    unfold defer. rewrite (bind_val _ _ _ _ _ (writer_NumLabelsWritten_eq _ _)).
    cbn [disk]. rewrite fileBytes_insert.
    replace (_ =? fileNumLabels) with false by (symmetry; apply Z.eqb_neq; lia).
    replace (_ >? fileNumLabels) with true
      by (symmetry; rewrite Z.gtb_ltb; apply Z.ltb_lt; lia).
    rewrite (bind_val _ _ _ _ _ (writer_Truncate_eq _ _ _)).
    unfold writer_Close. cbn -[resize Z.to_nat Z.mul Z.div]. rewrite io_ok.
    cbn -[resize Z.to_nat Z.mul Z.div]. rewrite fileBytes_insert, insert_insert_eq.
    rewrite <- !app_assoc. reflexivity.
Qed.


Lemma initFile_nonce_ok res startPosition count s :
    Z.of_nat (length (oracle.Output res)) = 16 * count ->
    16 * count < 2 ^ 64 ->
    (forall n, oracle.Nonce res = Some n -> startPosition <= n <= startPosition + count - 1) ->
    exists s',
      initFile_nonce env res startPosition s = (Val tt, s') /\
      labelFiles (disk s') = labelFiles (disk s) /\
      exists rest, trace s' = trace s ++ rest.
Proof.
    intros Hlen Hsmall Hin.
    destruct (oracle.Nonce res) as [n |] eqn:En.
    2:{ exists s. unfold initFile_nonce. rewrite En. split; [reflexivity |].
        split; [reflexivity |]. exists []. symmetry. apply app_nil_r. }
    specialize (Hin n eq_refl).
    assert (Hk : uint64 (uint64 (n - startPosition) * 16) = (n - startPosition) * 16).
    { rewrite (uint64_small (n - startPosition)) by lia. apply uint64_small. lia. }
    set (tail := drop (Z.to_nat ((n - startPosition) * 16)) (oracle.Output res)).
    assert (Hf : slice_from (oracle.Output res) (uint64 (uint64 (n - startPosition) * 16))
                 = Some tail).
    { rewrite Hk. unfold slice_from.
      replace (_ <=? _) with true by (symmetry; apply Z.leb_le; lia). reflexivity. }
    assert (Ht : slice_to tail 16 = Some (take 16 tail)).
    { unfold slice_to.
      replace (_ <=? _) with true; [reflexivity |].
      symmetry. apply Z.leb_le. unfold tail. rewrite length_drop. lia. }
    rewrite (initFile_nonce_eq env res startPosition n tail (take 16 tail) s En Hf Ht).
    cbv zeta.
    destruct (match nonceValue (init s) with
              | None => true
              | Some best => bytes.Compare (take 16 tail) best <? 0
              end).
    - eexists. split; [reflexivity |]. cbn [disk trace]. rewrite Hnf. split; [reflexivity |].
      eexists. reflexivity.
    - exists s. split; [reflexivity |]. split; [reflexivity |].
      exists []. symmetry. apply app_nil_r.
Qed.

Variable wo : WorkOracle.
Hypothesis Hnc : never_cancelled env.
Hypothesis Hwo : oracle_ok wo.

Variables fileIndex fileOffset fileNumLabels : Z.
Hypothesis Hoff : 0 <= fileOffset.
Hypothesis Hend : fileOffset + fileNumLabels < 2 ^ 64.

Lemma initFile_loop_S fuel batchSize currentPosition :
    initFile_loop env (S fuel) wo fileIndex batchSize fileOffset fileNumLabels currentPosition =
      if currentPosition <? fileNumLabels then
        do stopped <- ctx_Done env;
        if (stopped : bool) then
          do_ writer_Flush env fileIndex;
          fail ErrCanceled
        else
          let remaining := uint64 (fileNumLabels - currentPosition) in
          let batchSize := if remaining <? batchSize then remaining else batchSize in
          let startPosition := uint64 (fileOffset + currentPosition) in
          let endPosition := uint64 (startPosition + batchSize - 1) in
          do res <- wo_Positions wo startPosition endPosition;
          do_ initFile_nonce env res startPosition;
          do_ writer_Write env fileIndex (oracle.Output res);
          do_ modify (with_init
                (set_numLabelsWritten (uint64 (fileOffset + currentPosition + batchSize))));
          initFile_loop env fuel wo fileIndex batchSize fileOffset fileNumLabels
            (uint64 (currentPosition + batchSize))
      else ret tt.
Proof. reflexivity. Qed.

  (** Case 3: the batches from the current position up to the target. *)
Lemma initFile_loop_completes fuel : forall batchSize currentPosition s,
    0 < batchSize -> 16 * batchSize < 2 ^ 64 ->
    0 <= currentPosition <= fileNumLabels ->
    fileNumLabels - currentPosition < Z.of_nat fuel ->
    exists s',
      initFile_loop env fuel wo fileIndex batchSize fileOffset fileNumLabels currentPosition s
        = (Val tt, s') /\
      (exists new,
         fileBytes (disk s') fileIndex = fileBytes (disk s) fileIndex ++ new /\
         Z.of_nat (length new) = 16 * (fileNumLabels - currentPosition)) /\
      (exists rest,
         trace s' = trace s ++ rest /\
         (currentPosition < fileNumLabels ->
          exists e rest',
            rest = OpCtxDone :: OpPositions (fileOffset + currentPosition) e :: rest')).
Proof.
    induction fuel as [| fuel IH]; intros batchSize cur s Hbs Hsmall Hcur Hfuel; [lia |].
    rewrite initFile_loop_S.
    destruct (cur <? fileNumLabels) eqn:Elt.
    2:{ apply Z.ltb_ge in Elt. exists s. split; [reflexivity |]. split.
        - exists []. rewrite app_nil_r. split; [reflexivity |]. simpl. lia.
        - exists []. rewrite app_nil_r. split; [reflexivity |]. lia. }
    apply Z.ltb_lt in Elt.
    unfold bind at 1. unfold ctx_Done. rewrite Hnc.
    cbv zeta.
    rewrite (uint64_small (fileNumLabels - cur)) by lia.
    rewrite (uint64_small (fileOffset + cur)) by lia.
    set (bs := if fileNumLabels - cur <? batchSize then fileNumLabels - cur else batchSize).
    assert (Hbs' : 0 < bs /\ bs <= batchSize /\ bs <= fileNumLabels - cur).
    { unfold bs. destruct (Z.ltb_spec (fileNumLabels - cur) batchSize); lia. }
    rewrite (uint64_small (fileOffset + cur + bs - 1)) by lia.
    destruct (Hwo (fileOffset + cur) (fileOffset + cur + bs - 1) ltac:(lia))
      as (res & Hres & Hlen & Hnonce).
    set (s1 := {| init := init s; disk := disk s; trace := trace s ++ [OpCtxDone] |}).
    unfold bind at 1. rewrite wo_Positions_eq, Hres.
    set (s2 := {| init := init s1; disk := disk s1;
                  trace := trace s1 ++ [OpPositions (fileOffset + cur)
                                          (fileOffset + cur + bs - 1)] |}).
    destruct (initFile_nonce_ok res (fileOffset + cur) bs s2) as (s3 & Hs3 & Hfiles & rest3 & Ht3).
    { rewrite Hlen. lia. }
    { lia. }
    { exact Hnonce. }
    rewrite (bind_val _ _ _ _ _ Hs3).
    rewrite (bind_val _ _ _ _ _ (writer_Write_eq _ _ s3)).
    rewrite bind_modify.
    rewrite (uint64_small (cur + bs)) by lia.
    match goal with |- context [initFile_loop env fuel wo fileIndex bs fileOffset
                                  fileNumLabels (cur + bs) ?st] => set (s4 := st) end.
    destruct (IH bs (cur + bs) s4) as (s' & Hs' & (new & Hnew & Hnewlen) & (rest & Hrest & _));
      try lia.
    exists s'. split; [exact Hs' |]. split.
    - exists (oracle.Output res ++ new). split.
      + rewrite Hnew. subst s4. cbn [with_init disk]. rewrite fileBytes_insert.
        unfold fileBytes at 1. rewrite Hfiles. fold (fileBytes (disk s2) fileIndex).
        subst s2 s1. cbn [disk]. rewrite app_assoc. reflexivity.
      + rewrite length_app, Nat2Z.inj_add, Hnewlen, Hlen. lia.
    - eexists. split.
      + rewrite Hrest. subst s4. cbn [with_init trace]. rewrite Ht3. subst s2 s1.
        cbn [trace]. rewrite <- !app_assoc. reflexivity.
      + intros _. eexists. eexists. simpl. reflexivity.
Qed.

End Resume.

Lemma defer_val {A} (cleanup : M unit) (body : M A) s a s1 :
  body s = (Val a, s1) -> defer cleanup body s = (Val a, snd (cleanup s1)).
Proof. intros H. unfold defer. rewrite H. reflexivity. Qed.

(** C5: on resuming a file the writer reads its written-label count and
    does one of three things. If the count equals the target it writes
    nothing: the content is kept and only the open, the count and the close
    reach the disk. If the count exceeds the target it truncates the file to
    exactly the target and never calls the oracle. Otherwise it resumes: the
    first oracle call starts at the current offset, the existing content is
    kept as a prefix, and the file ends with exactly the target count. *)
Theorem initFile_resumes (env : Env) (fuel : nat) (wo : Z -> Z -> Z + oracle.WorkOracleResult)
    (fileIndex batchSize fileOffset fileNumLabels : Z) (difficulty : list byte) (s : State) :
  no_faults env ->
  0 <= fileNumLabels ->
  let content := fileBytes (disk s) fileIndex in
  let written := NumLabels (Z.of_nat (length content)) in
  let run := initFile env fuel wo fileIndex batchSize fileOffset fileNumLabels difficulty s in
  (written = fileNumLabels ->
     fst run = Val tt /\
     fileBytes (disk (snd run)) fileIndex = content /\
     trace (snd run) =
       trace s ++ [OpNewLabelsWriter fileIndex; OpWriterNumLabelsWritten fileIndex;
                   OpClose fileIndex] /\
     numLabelsWritten (init (snd run)) = uint64 (fileOffset + fileNumLabels)) /\
  (written > fileNumLabels ->
     fst run = Val tt /\
     fileBytes (disk (snd run)) fileIndex = take (Z.to_nat (16 * fileNumLabels)) content /\
     NumLabels (Z.of_nat (length (fileBytes (disk (snd run)) fileIndex))) = fileNumLabels /\
     trace (snd run) =
       trace s ++ [OpNewLabelsWriter fileIndex; OpWriterNumLabelsWritten fileIndex;
                   OpTruncate fileIndex fileNumLabels; OpClose fileIndex] /\
     numLabelsWritten (init (snd run)) = uint64 (fileOffset + fileNumLabels)) /\
  (written < fileNumLabels ->
     never_cancelled env -> oracle_ok wo ->
     0 < batchSize -> 16 * batchSize < 2 ^ 64 ->
     0 <= fileOffset -> fileOffset + fileNumLabels < 2 ^ 64 ->
     fileNumLabels - written < Z.of_nat fuel ->
     fst run = Val tt /\
     (exists new,
        fileBytes (disk (snd run)) fileIndex = content ++ new /\
        Z.of_nat (length new) = 16 * (fileNumLabels - written)) /\
     NumLabels (Z.of_nat (length (fileBytes (disk (snd run)) fileIndex))) = fileNumLabels /\
     exists e rest,
       trace (snd run) =
         trace s ++ [OpNewLabelsWriter fileIndex; OpWriterNumLabelsWritten fileIndex;
                     OpCtxDone; OpPositions (fileOffset + written) e] ++ rest).
Proof.
  intros Hnf Htarget content written run.
  assert (Hw0 : 0 <= written).
  { unfold written. rewrite NumLabels_div. apply Z.div_pos; lia. }
  split; [| split].
  - intros Hw. unfold run.
    rewrite (initFile_complete env Hnf fuel wo fileIndex batchSize fileOffset fileNumLabels
               difficulty s Hw).
    cbn [fst snd init disk trace]. rewrite fileBytes_insert. repeat split; reflexivity.
  - intros Hw. unfold run.
    rewrite (initFile_truncate env Hnf fuel wo fileIndex batchSize fileOffset fileNumLabels
               difficulty s Hw).
    cbn [fst snd init disk trace]. rewrite fileBytes_insert.
    assert (Hlen : 16 * fileNumLabels + 16 <= Z.of_nat (length content)).
    { unfold written in Hw. rewrite NumLabels_div in Hw.
      pose proof (Z.div_mod (Z.of_nat (length content)) 16 ltac:(lia)).
      pose proof (Z.mod_pos_bound (Z.of_nat (length content)) 16 ltac:(lia)). lia. }
    assert (Hn : Z.to_nat (fileNumLabels * config.BitsPerLabel / 8)
                 = Z.to_nat (16 * fileNumLabels)).
    { f_equal. unfold config.BitsPerLabel.
      replace (fileNumLabels * 128) with (16 * fileNumLabels * 8) by lia.
      apply Z.div_mul. lia. }
    rewrite Hn. fold content. rewrite resize_le by lia.
    split; [reflexivity |]. split; [reflexivity |]. split; [| split; reflexivity].
    rewrite NumLabels_div, length_take.
    replace (Z.of_nat (Z.to_nat (16 * fileNumLabels) `min` length content))
      with (fileNumLabels * 16) by lia.
    apply Z.div_mul. lia.
  - intros Hw Hnc Hwo Hbs Hsmall Hoff Hend Hfuel. unfold run, initFile.
    rewrite (bind_val _ _ _ _ _ (NewLabelsWriter_eq env Hnf _ s)).
    set (s1 := {| init := init s;
                  disk := set_labelFiles (<[fileIndex := fileBytes (disk s) fileIndex]>
                                            (labelFiles (disk s))) (disk s);
                  trace := trace s ++ [OpNewLabelsWriter fileIndex] |}).
    set (s2 := {| init := init s1; disk := disk s1;
                  trace := trace s1 ++ [OpWriterNumLabelsWritten fileIndex] |}).
    assert (Hc2 : fileBytes (disk s2) fileIndex = content).
    { subst s2 s1. cbn [disk]. apply fileBytes_insert. }
    destruct (initFile_loop_completes env Hnf wo Hnc Hwo fileIndex fileOffset fileNumLabels
                Hoff Hend fuel batchSize written s2 Hbs Hsmall ltac:(lia) Hfuel)
      as (s3 & Hs3 & (new & Hnew & Hnewlen) & (rest & Hrest & Hfirst)).
    erewrite defer_val.
    2:{ rewrite (bind_val _ _ _ _ _ (writer_NumLabelsWritten_eq env Hnf _ s1)).
        fold s2. replace (fileBytes (disk s1) fileIndex) with content
          by (symmetry; exact Hc2).
        fold written.
        replace (written =? fileNumLabels) with false by (symmetry; apply Z.eqb_neq; lia).
        replace (written >? fileNumLabels) with false
          by (symmetry; rewrite Z.gtb_ltb; apply Z.ltb_ge; lia).
        rewrite (bind_val _ _ _ _ _ Hs3).
        unfold writer_Flush. rewrite (bind_val _ _ _ _ _ (io_ok env Hnf _ s3)).
        rewrite (bind_val _ _ _ _ _ (writer_NumLabelsWritten_eq env Hnf _ _)).
        reflexivity. }
    unfold writer_Close. rewrite io_ok by exact Hnf.
    cbn [fst snd init disk trace].
    rewrite Hnew, Hc2.
    split; [reflexivity |]. split; [exists new; split; [reflexivity | exact Hnewlen] |].
    split.
    + rewrite NumLabels_div, length_app, Nat2Z.inj_add, Hnewlen.
      unfold written in *. rewrite NumLabels_div in *.
      pose proof (Z.div_mod (Z.of_nat (length content)) 16 ltac:(lia)).
      pose proof (Z.mod_pos_bound (Z.of_nat (length content)) 16 ltac:(lia)).
      symmetry. apply (Z.div_unique _ 16 _ (Z.of_nat (length content) mod 16)); lia.
    + destruct (Hfirst Hw) as (e & rest' & ->). exists e. eexists.
      rewrite Hrest. subst s2 s1. cbn [trace]. rewrite <- !app_assoc. simpl. reflexivity.
Qed.

Lemma sample_labels_length l :
  Z.of_nat (length (concat (sample_label <$> l))) = 16 * Z.of_nat (length l).
Proof.
  induction l as [| p l IH]; [reflexivity |].
  rewrite fmap_cons.
  change (concat (sample_label p :: (sample_label <$> l)))
    with (sample_label p ++ concat (sample_label <$> l)).
  rewrite length_app.
  change (length (sample_label p)) with 16%nat.
  rewrite Nat2Z.inj_add, IH. simpl length. lia.
Qed.

Lemma sample_oracle_ok hit : oracle_ok (sample_oracle hit).
Proof.
  intros a b Hab. eexists. split; [reflexivity |]. cbn [oracle.Output oracle.Nonce]. split.
  - rewrite sample_labels_length, length_seqZ. lia.
  - intros n Hn. apply find_some in Hn as [Hin _].
    apply list_elem_of_In, elem_of_seqZ in Hin. lia.
Qed.

Lemma initFile_resumes_witness :
  (let run := initFile quiet_env 3 (sample_oracle no_hit) 0 2 0 2 [] written_state in
   fst run = Val tt /\
   fileBytes (disk (snd run)) 0 = fileBytes (disk written_state) 0 /\
   trace (snd run) = [OpNewLabelsWriter 0; OpWriterNumLabelsWritten 0; OpClose 0]) /\
  (let run := initFile quiet_env 3 (sample_oracle no_hit) 0 2 0 2 [] fresh_state in
   fst run = Val tt /\
   NumLabels (Z.of_nat (length (fileBytes (disk (snd run)) 0))) = 2).
Proof.
  split.
  - pose proof (proj1 (initFile_resumes quiet_env 3 (sample_oracle no_hit) 0 2 0 2 []
                         written_state (fun _ _ => eq_refl) ltac:(lia)) eq_refl) as H.
    cbv zeta. destruct H as (H1 & H2 & H3 & _). repeat split; assumption.
  - pose proof (proj2 (proj2 (initFile_resumes quiet_env 3 (sample_oracle no_hit) 0 2 0 2 []
                         fresh_state (fun _ _ => eq_refl) ltac:(lia)))
                  eq_refl (fun _ => eq_refl) (sample_oracle_ok no_hit)
                  ltac:(lia) ltac:(lia) ltac:(lia) ltac:(lia) eq_refl) as H.
    cbv zeta. destruct H as (H1 & _ & H3 & _). split; assumption.
Defined.

(** ** The retained value follows the candidates of the run *)

Lemma candidates_app wo a b : candidates wo (a ++ b) = candidates wo a ++ candidates wo b.
Proof. unfold candidates, ranges. rewrite !omap_app. reflexivity. Qed.

Lemma follows_refl wo s : follows wo s s.
Proof. exists []. rewrite app_nil_r. split; reflexivity. Qed.

Lemma follows_trans wo a b c : follows wo a b -> follows wo b c -> follows wo a c.
Proof.
  intros (r1 & Ht1 & Hv1) (r2 & Ht2 & Hv2). exists (r1 ++ r2). split.
  - rewrite Ht2, Ht1, app_assoc. reflexivity.
  - rewrite Hv2, Hv1, candidates_app, fold_left_app. reflexivity.
Qed.

Lemma follows_one wo s s' op :
  trace s' = trace s ++ [op] ->
  isPositions op = false ->
  nonceValue (init s') = nonceValue (init s) ->
  follows wo s s'.
Proof.
  intros Ht Hop Hv. exists [op]. split; [exact Ht |].
  rewrite Hv. destruct op; try discriminate Hop; reflexivity.
Qed.

Create HintDb finv.

Section Follows.

Variable env : Env.
Variable wo : Z -> Z -> Z + oracle.WorkOracleResult.

Local Ltac fpres :=
  repeat first [ solve [auto with finv]
               | preserves_step (follows_refl wo) (follows_trans wo) ].

Lemma finv_io op : isPositions op = false -> preserves (follows wo) (io env op).
Proof.
  intros Hop s r s' H. apply io_inv in H as (Hi & _ & Ht).
  eapply follows_one; [exact Ht | exact Hop | rewrite Hi; reflexivity].
Qed.

Lemma finv_log op : isPositions op = false -> preserves (follows wo) (log op).
Proof.
  intros Hop s r s' H. inversion H; subst.
  eapply follows_one; [reflexivity | exact Hop | reflexivity].
Qed.

Lemma finv_modify f :
  (forall s, trace (f s) = trace s /\ nonceValue (init (f s)) = nonceValue (init s)) ->
  preserves (follows wo) (modify f).
Proof.
  intros Hf. apply preserves_modify. intros s. destruct (Hf s) as [Ht Hv].
  exists []. rewrite app_nil_r. split; [exact Ht | exact Hv].
Qed.

Lemma finv_ctx_Done : preserves (follows wo) (ctx_Done env).
Proof.
  intros s r s' H. inversion H; subst.
  eapply follows_one; [reflexivity | reflexivity | reflexivity].
Qed.

Lemma finv_with_disk f : preserves (follows wo) (modify (with_disk f)).
Proof. apply finv_modify. intros s. split; reflexivity. Qed.

Lemma finv_set_numLabelsWritten v :
  preserves (follows wo) (modify (with_init (set_numLabelsWritten v))).
Proof. apply finv_modify. intros s. split; reflexivity. Qed.

Lemma finv_set_nonce v : preserves (follows wo) (modify (with_init (set_nonce v))).
Proof. apply finv_modify. intros s. split; reflexivity. Qed.

Lemma finv_set_lastPosition v :
  preserves (follows wo) (modify (with_init (set_lastPosition v))).
Proof. apply finv_modify. intros s. split; reflexivity. Qed.

Lemma finv_set_mtx v : preserves (follows wo) (modify (with_init (set_mtx v))).
Proof. apply finv_modify. intros s. split; reflexivity. Qed.

Local Hint Resolve finv_ctx_Done finv_with_disk finv_set_numLabelsWritten finv_set_nonce
  finv_set_lastPosition finv_set_mtx : finv.
Local Hint Extern 1 (preserves _ (io _ _)) => apply finv_io; reflexivity : finv.
Local Hint Extern 1 (preserves _ (log _)) => apply finv_log; reflexivity : finv.

Lemma finv_saveMetadata : preserves (follows wo) (saveMetadata env).
Proof. unfold saveMetadata, SaveMetadata. fpres. Qed.

Local Hint Resolve finv_saveMetadata : finv.

(** The oracle call of a batch together with the nonce block that reads
    its answer. *)
Lemma finv_batch {A} a b (k : oracle.WorkOracleResult -> M A) :
  (forall res, preserves (follows wo) (k res)) ->
  preserves (follows wo)
    (do res <- wo_Positions wo a b; do_ initFile_nonce env res a; k res).
Proof.
  intros Hk s r s' H. unfold bind in H at 1. rewrite wo_Positions_eq in H.
  set (s1 := {| init := init s; disk := disk s; trace := trace s ++ [OpPositions a b] |}) in *.
  assert (Hcand : candidates wo [OpPositions a b] = match candidate_of wo (a, b) with
                                                    | Some c => [c]
                                                    | None => []
                                                    end).
  { unfold candidates, ranges. cbn. destruct (candidate_of wo (a, b)); reflexivity. }
  assert (Hnone : candidate_of wo (a, b) = None -> follows wo s s1).
  { intros Hc. exists [OpPositions a b]. split; [reflexivity |]. rewrite Hcand, Hc.
    reflexivity. }
  unfold candidate_of in Hcand, Hnone. cbn [fst snd] in Hcand, Hnone.
  destruct (wo a b) as [code | res] eqn:Ewo.
  { inversion H; subst. apply Hnone. reflexivity. }
  destruct (oracle.Nonce res) as [n |] eqn:En.
  2:{ unfold bind in H at 1. unfold initFile_nonce in H at 1. rewrite En in H.
      cbn [ret] in H. eapply follows_trans; [apply Hnone; reflexivity |].
      eapply Hk. exact H. }
  destruct (slice_from (oracle.Output res) (uint64 (uint64 (n - a) * 16)))
    as [tail |] eqn:Et.
  2:{ unfold bind in H at 1. unfold initFile_nonce in H at 1. rewrite En, Et in H.
      inversion H; subst. apply Hnone. reflexivity. }
  destruct (slice_to tail 16) as [c |] eqn:Ec.
  2:{ unfold bind in H at 1. unfold initFile_nonce in H at 1. rewrite En, Et, Ec in H.
      inversion H; subst. apply Hnone. reflexivity. }
  unfold bind in H at 1.
  rewrite (initFile_nonce_eq env res a n tail c s1 En Et Ec) in H. cbv zeta in H.
  match type of H with
  | context [if ?cond then (Val tt, ?sa) else (Val tt, ?sb)] =>
      assert (Hstep : exists s2, (if cond then (Val tt, sa) else (Val tt, sb)) = (Val tt, s2) /\
                                 follows wo s s2)
  end.
  { cbn [init s1 trace].
    destruct (nonceValue (init s)) as [best |] eqn:Eb.
    - destruct (bytes.Compare c best <? 0) eqn:Ecmp.
      + eexists. split; [reflexivity |].
        exists [OpPositions a b; OpSaveMetadata
                  (metadataOf (set_nonce (Some n) (set_nonceValue (Some c) (init s))))].
        cbn [trace init]. rewrite <- app_assoc. split; [reflexivity |].
        rewrite Eb. unfold candidates, ranges. cbn.
        unfold candidate_of. cbn [fst snd]. rewrite Ewo, En, Et, Ec. cbn. rewrite Ecmp.
        reflexivity.
      + eexists. split; [reflexivity |].
        exists [OpPositions a b]. split; [reflexivity |].
        rewrite Hcand. cbn. rewrite Eb. cbn. rewrite Ecmp. reflexivity.
    - eexists. split; [reflexivity |].
      exists [OpPositions a b; OpSaveMetadata
                (metadataOf (set_nonce (Some n) (set_nonceValue (Some c) (init s))))].
      cbn [trace init]. rewrite <- app_assoc. split; [reflexivity |].
      rewrite Eb. unfold candidates, ranges. cbn.
      unfold candidate_of. cbn [fst snd]. rewrite Ewo, En, Et, Ec. reflexivity. }
  destruct Hstep as (s2 & Hs2 & Hfol). rewrite Hs2 in H.
  eapply follows_trans; [exact Hfol |]. eapply Hk. exact H.
Qed.

Lemma finv_initFile_loop fileIndex fileOffset fileNumLabels fuel :
  forall batchSize currentPosition,
    preserves (follows wo)
      (initFile_loop env fuel wo fileIndex batchSize fileOffset fileNumLabels currentPosition).
Proof.
  induction fuel as [| fuel IH]; intros batchSize cur; cbn [initFile_loop]; [fpres |].
  destruct (cur <? fileNumLabels); [| fpres].
  apply (preserves_bind _ (follows_trans wo)); [apply finv_ctx_Done |].
  intros stopped. destruct stopped.
  { unfold writer_Flush. fpres. }
  cbv zeta. apply finv_batch. intros res. unfold writer_Write.
  repeat first [ solve [auto with finv] | apply IH
               | preserves_step (follows_refl wo) (follows_trans wo) ].
Qed.

Lemma finv_initFile fuel fileIndex batchSize fileOffset fileNumLabels difficulty :
  preserves (follows wo)
    (initFile env fuel wo fileIndex batchSize fileOffset fileNumLabels difficulty).
Proof.
  pose proof finv_initFile_loop.
  unfold initFile, NewLabelsWriter, writer_Close, writer_NumLabelsWritten, writer_Truncate,
    writer_Flush.
  fpres.
Qed.

Lemma finv_Initialize_files fuel layout batchSize difficulty n : forall i,
  preserves (follows wo) (Initialize_files env fuel wo layout batchSize difficulty n i).
Proof.
  induction n as [| n IH]; intros i; cbn [Initialize_files]; [fpres |].
  apply (preserves_bind _ (follows_trans wo)); [apply finv_initFile | intros _; apply IH].
Qed.

Lemma finv_RemoveFile name : preserves (follows wo) (RemoveFile env name).
Proof.
  assert (Hos : preserves (follows wo) (os_Remove env name)).
  { unfold os_Remove. fpres. }
  intros s r s' H. unfold RemoveFile in H.
  destruct (os_Remove env name s) as [r1 s1] eqn:E.
  apply Hos in E. destruct r1; inversion H; subst; exact E.
Qed.

Lemma finv_removeRedundantFiles layout :
  preserves (follows wo) (removeRedundantFiles env layout).
Proof.
  assert (Hloop : forall n i, preserves (follows wo) (removeRedundantFiles_loop env n i)).
  { induction n as [| n IH]; intros i; cbn [removeRedundantFiles_loop]; [fpres |].
    apply (preserves_bind _ (follows_trans wo)); [apply finv_RemoveFile | intros _; apply IH]. }
  unfold removeRedundantFiles, diskState_NumFilesWritten. fpres.
Qed.

Lemma finv_oracle_New p c d : preserves (follows wo) (oracle_New env p c d).
Proof. unfold oracle_New. fpres. Qed.

End Follows.

Lemma bind_cases {A B} (m : M A) (k : A -> M B) s r s' :
  bind m k s = (r, s') ->
  (exists a s1, m s = (Val a, s1) /\ k a s1 = (r, s')) \/
  (exists r0, m s = (r0, s') /\ (forall a, r0 <> Val a) /\ (forall b, r <> Val b)).
Proof.
  unfold bind. destruct (m s) as [[a | e | | ] s1] eqn:E; intros H.
  - left. eauto.
  - right. inversion H; subst. eexists. split; [reflexivity |]. split; intros; discriminate.
  - right. inversion H; subst. eexists. split; [reflexivity |]. split; intros; discriminate.
  - right. inversion H; subst. eexists. split; [reflexivity |]. split; intros; discriminate.
Qed.

Lemma defer_cases {A} (cleanup : M unit) (body : M A) s r s' :
  defer cleanup body s = (r, s') ->
  exists s1, body s = (r, s1) /\
             (r = Timeout /\ s' = s1 \/ r <> Timeout /\ s' = snd (cleanup s1)).
Proof.
  unfold defer. destruct (body s) as [[a | e | | ] s1] eqn:E; intros H; inversion H; subst;
    eexists; (split; [reflexivity |]);
    first [left; split; reflexivity | right; split; [discriminate | reflexivity]].
Qed.

Lemma candidates_silent wo batchSize start n :
  (forall j, (j < n)%nat -> silent wo batchSize start j) ->
  candidates wo (search_trace batchSize start n) = [].
Proof.
  induction n as [| n IH]; intros Hs; [reflexivity |].
  rewrite search_trace_back, candidates_app, IH by (intros j Hj; apply Hs; lia).
  destruct (Hs n ltac:(lia)) as [out Hw].
  unfold candidates, ranges, batch_ops. cbn. unfold candidate_of. cbn [fst snd].
  rewrite Hw. reflexivity.
Qed.

Lemma follows_but_last_of_follows wo closing r s s' :
  follows wo s s' -> follows_but_last wo closing r s s'.
Proof.
  intros (rest & Ht & Hv). exists rest, []. rewrite app_nil_r. auto.
Qed.

Lemma follows_but_last_after wo closing r s s1 s' :
  follows wo s s1 -> follows_but_last wo closing r s1 s' -> follows_but_last wo closing r s s'.
Proof.
  intros (r1 & Ht1 & Hv1) (rest & tail & Ht & Hv & Htail).
  exists (r1 ++ rest), tail. split; [| split; [| exact Htail]].
  - rewrite Ht, Ht1, <- !app_assoc. reflexivity.
  - rewrite Hv, Hv1, candidates_app, fold_left_app. reflexivity.
Qed.

(** After the files: either a nonce is retained and nothing happens, or
    the search runs, whose calls report no candidate but for the last one
    of a search that finds a nonce. *)
Lemma Initialize_finish_follows env fuel wo batchSize numLabels s r s' :
  Initialize_finish env fuel wo batchSize numLabels s = (r, s') ->
  follows_but_last wo [] r s s'.
Proof.
  intros H.
  assert (Hv : nonceValue (init s') = nonceValue (init s)).
  { apply (inv_Initialize_finish env (fun i i' => nonceValue i' = nonceValue i)) in H;
      [exact H | reflexivity | intros; congruence | reflexivity | reflexivity]. }
  destruct (nonce (init s)) as [n0 |] eqn:En.
  { unfold Initialize_finish in H. rewrite bind_get, En in H. inversion H; subst.
    apply follows_but_last_of_follows, follows_refl. }
  destruct (Initialize_finish_search env fuel wo batchSize numLabels s r s' En H)
    as (sf & Hout & _ & _ & Hs').
  set (start := search_start numLabels (lastPosition (init s))) in *.
  remember (calls_made s s') as n eqn:Hn. clear Hn.
  assert (Hquiet : forall ops,
            trace s' = trace s ++ ops -> candidates wo ops = [] ->
            follows_but_last wo [] r s s').
  { intros ops Ht Hc. exists ops, []. rewrite app_nil_r, Hc. auto. }
  assert (Hsaved : forall r0, r = r0 -> r0 <> Timeout ->
            trace s' = trace sf ++ [OpSaveMetadata (metadataOf (init sf))]).
  { intros r0 -> Hr0. assert (s' = snd (saveMetadata env sf)) as -> by (destruct r0; congruence).
    rewrite saveMetadata_eq. reflexivity. }
  unfold search_outcome in Hout. cbn [with_init trace init] in Hout.
  destruct r as [[] | e | |]; [| destruct e | |]; try contradiction.
  - destruct Hout as (m & res & fd & -> & Hs & _ & _ & _ & _ & Ht).
    exists (search_trace batchSize start m ++ [OpCtxDone]),
           [OpPositions (search_position batchSize start m) (batch_end batchSize start m);
            OpSaveMetadata (metadataOf (init sf))].
    split; [| split].
    + rewrite (Hsaved _ eq_refl ltac:(discriminate)), Ht, search_trace_back.
      unfold batch_ops. rewrite <- !app_assoc. reflexivity.
    + rewrite Hv, candidates_app, (candidates_silent _ _ _ _ Hs). reflexivity.
    + right. split; [reflexivity |]. eauto.
  - destruct Hout as (Hs & _ & _ & _ & Ht).
    apply (Hquiet (search_trace batchSize start n ++ [OpSaveMetadata (metadataOf (init sf))])).
    + rewrite (Hsaved _ eq_refl ltac:(discriminate)), Ht, <- !app_assoc. reflexivity.
    + rewrite candidates_app, (candidates_silent _ _ _ _ Hs). reflexivity.
  - destruct Hout as (Hs & _ & _ & _ & _ & Ht).
    apply (Hquiet (search_trace batchSize start n
                   ++ [OpCtxDone; OpSaveMetadata (metadataOf (init sf))])).
    + rewrite (Hsaved _ eq_refl ltac:(discriminate)), Ht, <- !app_assoc. reflexivity.
    + rewrite candidates_app, (candidates_silent _ _ _ _ Hs). reflexivity.
  - destruct Hout as (m & -> & Hs & Hw & _ & _ & Ht).
    apply (Hquiet (search_trace batchSize start (S m)
                   ++ [OpSaveMetadata (metadataOf (init sf))])).
    + rewrite (Hsaved _ eq_refl ltac:(discriminate)), Ht, <- !app_assoc. reflexivity.
    + rewrite candidates_app, search_trace_back, candidates_app,
        (candidates_silent _ _ _ _ Hs).
      unfold candidates, ranges, batch_ops. cbn. unfold candidate_of. cbn [fst snd].
      rewrite Hw. reflexivity.
  - destruct Hout as (_ & Hs & _ & _ & Ht). subst s'.
    apply (Hquiet (search_trace batchSize start n)); [exact Ht |].
    apply candidates_silent, Hs.
Qed.

Lemma follows_but_last_closed wo r s s1 s' op :
  follows_but_last wo [] r s s1 ->
  isPositions op = false ->
  trace s' = trace s1 ++ [op] ->
  nonceValue (init s') = nonceValue (init s1) ->
  follows_but_last wo [op] r s s'.
Proof.
  intros (rest & tail & Ht & Hv & Htail) Hop Ht' Hv'.
  destruct Htail as [-> | (Hr & a & b & m & ->)].
  - exists (rest ++ [op]), []. rewrite !app_nil_r in *. split; [| split; [| left; reflexivity]].
    + rewrite Ht', Ht, <- app_assoc. reflexivity.
    + rewrite Hv', Hv, candidates_app.
      replace (candidates wo [op]) with (@nil (list byte))
        by (destruct op; try discriminate Hop; reflexivity).
      rewrite app_nil_r. reflexivity.
  - exists rest, [OpPositions a b; OpSaveMetadata m; op]. split; [| split].
    + rewrite Ht', Ht, <- !app_assoc. reflexivity.
    + rewrite Hv'. exact Hv.
    + right. split; [exact Hr |]. eauto.
Qed.

Lemma follows_but_last_timeout wo closing s s' :
  follows_but_last wo [] Timeout s s' -> follows_but_last wo closing Timeout s s'.
Proof.
  intros (rest & tail & Ht & Hv & [-> | (Hr & _)]); [| discriminate Hr].
  exists rest, []. auto.
Qed.

Lemma Initialize_body_follows env fuel s r s' :
  Initialize_body env fuel s = (r, s') ->
  let numLabels := uint64 (config.NumUnits (opts (init s))
                           * config.LabelsPerUnit (cfg (init s))) in
  let wo := work_oracle env (config.ProviderID (opts (init s))) (commitment (init s))
              (powDifficultyFunc (init s) numLabels) in
  follows_but_last wo [OpOracleClose] r s s'.
Proof.
  intros H numLabels wo. unfold Initialize_body in H. rewrite bind_get in H.
  fold numLabels in H.
  apply bind_cases in H as [([] & sa & Hrm & H) | (r0 & Hrm & _ & _)].
  2:{ apply follows_but_last_of_follows.
      eapply (finv_removeRedundantFiles env wo); exact Hrm. }
  apply (finv_removeRedundantFiles env wo) in Hrm.
  apply (follows_but_last_after _ _ _ _ sa); [exact Hrm |].
  apply bind_cases in H as [(w & sb & Hnew & H) | (r0 & Hnew & _ & _)].
  2:{ apply follows_but_last_of_follows. eapply (finv_oracle_New env wo); exact Hnew. }
  pose proof (finv_oracle_New env wo _ _ _ _ _ _ Hnew) as Hfnew.
  apply oracle_New_inv in Hnew as [-> _]. fold wo in H.
  apply (follows_but_last_after _ _ _ _ sb); [exact Hfnew |].
  apply defer_cases in H as (sc & H & Hclose).
  assert (Hinner : follows_but_last wo [] r sb sc).
  { apply bind_cases in H as [([] & sd & Hfiles & H) | (r0 & Hfiles & _ & _)].
    - apply (follows_but_last_after _ _ _ _ sd).
      + eapply (finv_Initialize_files env wo); exact Hfiles.
      + eapply Initialize_finish_follows; exact H.
    - apply follows_but_last_of_follows.
      eapply (finv_Initialize_files env wo); exact Hfiles. }
  destruct Hclose as [[-> ->] | [_ ->]].
  - apply follows_but_last_timeout. exact Hinner.
  - eapply follows_but_last_closed; [exact Hinner | reflexivity | reflexivity | reflexivity].
Qed.

Lemma Initialize_follows env fuel s r s' :
  Initialize env fuel s = (r, s') ->
  let numLabels := uint64 (config.NumUnits (opts (init s))
                           * config.LabelsPerUnit (cfg (init s))) in
  let wo := work_oracle env (config.ProviderID (opts (init s))) (commitment (init s))
              (powDifficultyFunc (init s) numLabels) in
  follows_but_last wo [OpOracleClose] r s s'.
Proof.
  intros H numLabels wo. unfold Initialize in H.
  unfold bind in H at 1. unfold TryLock in H at 1.
  destruct (mtx (init s)) eqn:Em; cbn [negb] in H.
  { inversion H; subst. apply follows_but_last_of_follows, follows_refl. }
  apply defer_cases in H as (s1 & H & Hunlock).
  apply Initialize_body_follows in H. cbv zeta in H. cbn [with_init init] in H.
  change (opts (set_mtx true (init s))) with (opts (init s)) in H.
  change (cfg (set_mtx true (init s))) with (cfg (init s)) in H.
  change (commitment (set_mtx true (init s))) with (commitment (init s)) in H.
  change (powDifficultyFunc (set_mtx true (init s))) with (powDifficultyFunc (init s)) in H.
  fold numLabels in H. fold wo in H.
  destruct H as (rest & tail & Ht & Hv & Htail).
  exists rest, tail. cbn [trace with_init init] in Ht, Hv.
  destruct Hunlock as [[_ ->] | [_ ->]]; auto.
Qed.

Lemma fold_retained_from_None l :
  l <> [] ->
  exists m, fold_left retained l None = Some m /\
            m ∈ l /\ forall c, c ∈ l -> bytes.Compare m c <= 0.
Proof.
  destruct l as [| c l]; [contradiction |]. intros _. cbn [fold_left retained].
  apply fold_retained_min.
Qed.




(** ** Opening a directory *)

Lemma bytes_Equal_refl a : bytes.Equal a a = true.
Proof. apply bytes_Equal_iff. reflexivity. Qed.

(** X1: An initializer accepts the record it saves itself, whatever nonce and
    search position it holds. *)
Theorem verifyMetadata_own_record (i : Initializer) :
  verifyMetadata i (metadataOf i) = None.
Proof.
  unfold verifyMetadata, metadataOf. simpl.
  rewrite !bytes_Equal_refl, !Z.eqb_refl. simpl.
  replace (config.NumUnits (opts i) >? config.NumUnits (opts i)) with false; [reflexivity |].
  symmetry. rewrite Z.gtb_ltb. apply Z.ltb_irrefl.
Qed.

Lemma loadMetadata_eq env s :
  no_faults env ->
  loadMetadata env s =
    (match metadataFile (disk s) with
     | Some m => Val m
     | None => Err ErrStateMetadataFileMissing
     end,
     {| init := init s; disk := disk s; trace := trace s ++ [OpLoadMetadata] |}).
Proof.
  intros Hnf. unfold loadMetadata. rewrite bind_get.
  unfold LoadMetadata, bind, io, get. rewrite Hnf. cbn [init disk trace].
  destruct (metadataFile (disk s)); reflexivity.
Qed.

Lemma NewInitializer_resume_labels env s :
  no_faults env ->
  NumLabels (totalBytes (disk s)) > 0 ->
  let s1 := {| init := init s; disk := disk s;
               trace := trace s ++ [OpDiskNumLabelsWritten] |} in
  NewInitializer_resume env s =
    (do_ (do m <- loadMetadata env;
          do s <- get;
          match verifyMetadata (init s) m with
          | Some e => fail e
          | None =>
              do_ modify (with_init (set_nonce (shared.Nonce m)));
              modify (with_init (set_lastPosition (shared.LastPosition m)))
          end);
     saveMetadata env) s1.
Proof.
  intros Hnf Hpos s1. unfold NewInitializer_resume.
  pose proof (diskState_NumLabelsWritten_eq env s) as H1. rewrite Hnf in H1.
  rewrite (bind_val _ _ _ _ _ H1).
  replace (NumLabels (totalBytes (disk s)) >? 0) with true
    by (symmetry; rewrite Z.gtb_ltb; apply Z.ltb_lt; lia).
  reflexivity.
Qed.

(** X2: When the directory holds labels, [NewInitializer] fails before it
    writes anything: with no metadata record it returns
    [ErrStateMetadataFileMissing], with a record that verification rejects it
    returns that ConfigMismatch error, and in both cases the directory and
    the instance are as they were and no save was attempted. *)
Theorem NewInitializer_fails_before_writing (env : Env) (s : State) :
  no_faults env ->
  NumLabels (totalBytes (disk s)) > 0 ->
  let s' := {| init := init s; disk := disk s;
               trace := trace s ++ [OpDiskNumLabelsWritten; OpLoadMetadata] |} in
  (metadataFile (disk s) = None ->
     NewInitializer_resume env s = (Err ErrStateMetadataFileMissing, s')) /\
  (forall m e,
     metadataFile (disk s) = Some m ->
     verifyMetadata (init s) m = Some e ->
     NewInitializer_resume env s = (Err e, s')).
Proof.
  intros Hnf Hpos s'.
  rewrite (NewInitializer_resume_labels env s Hnf Hpos). cbv zeta.
  split.
  - intros Hm. apply bind_err. apply bind_err.
    rewrite (loadMetadata_eq env _ Hnf). cbn [init disk trace]. rewrite Hm.
    unfold s'. rewrite <- app_assoc. reflexivity.
  - intros m e Hm Hv. apply bind_err.
    erewrite bind_val.
    2:{ rewrite (loadMetadata_eq env _ Hnf). cbn [init disk trace]. rewrite Hm. reflexivity. }
    rewrite bind_get. cbn [init]. rewrite Hv.
    unfold s', fail. rewrite <- app_assoc. reflexivity.
Qed.

Lemma NewInitializer_fails_before_writing_witness :
  fst (NewInitializer_resume quiet_env orphan_state) = Err ErrStateMetadataFileMissing /\
  disk (snd (NewInitializer_resume quiet_env orphan_state)) = disk orphan_state /\
  fst (NewInitializer_resume quiet_env (reopening 2 1))
    = Err (ErrConfigMismatch
             {| shared.Param := "NumUnits"; shared.Expected := ">= 2"; shared.Found := "1";
                shared.DataDir := "data" |}) /\
  disk (snd (NewInitializer_resume quiet_env (reopening 2 1))) = disk (reopening 2 1).
Proof.
  pose proof (NewInitializer_fails_before_writing quiet_env orphan_state
                (fun _ _ => eq_refl) eq_refl) as [Hmissing _].
  pose proof (NewInitializer_fails_before_writing quiet_env (reopening 2 1)
                (fun _ _ => eq_refl) eq_refl) as [_ Hrejected].
  rewrite (Hmissing eq_refl), (Hrejected _ _ eq_refl eq_refl).
  repeat split.
Defined.

(** X3: When the directory holds no label, [NewInitializer] does not read the
    metadata: whatever record is there, compatible or not, is replaced by
    the record of the requested configuration with no nonce of its own. *)
Theorem NewInitializer_without_labels (env : Env) (s : State) :
  no_faults env ->
  NumLabels (totalBytes (disk s)) <= 0 ->
  NewInitializer_resume env s =
    (Val tt,
     {| init := init s;
        disk := set_metadataFile (Some (metadataOf (init s))) (disk s);
        trace := trace s ++ [OpDiskNumLabelsWritten; OpSaveMetadata (metadataOf (init s))] |}).
Proof.
  intros Hnf Hzero. unfold NewInitializer_resume.
  pose proof (diskState_NumLabelsWritten_eq env s) as H1. rewrite Hnf in H1.
  rewrite (bind_val _ _ _ _ _ H1).
  replace (NumLabels (totalBytes (disk s)) >? 0) with false
    by (symmetry; rewrite Z.gtb_ltb; apply Z.ltb_ge; lia).
  change ((do_ ret tt; ?k) ?st) with (k st).
  rewrite saveMetadata_eq. cbn [init disk trace]. rewrite Hnf, <- app_assoc. reflexivity.
Qed.

Lemma NewInitializer_without_labels_witness :
  fst (NewInitializer_resume quiet_env fresh_state) = Val tt /\
  trace (snd (NewInitializer_resume quiet_env fresh_state))
    = [OpDiskNumLabelsWritten; OpSaveMetadata (metadataOf (sample_init 1 2))].
Proof.
  rewrite (NewInitializer_without_labels quiet_env fresh_state (fun _ _ => eq_refl)
             ltac:(vm_compute; discriminate)).
  split; reflexivity.
Defined.

(** X4: On a directory with labels and a compatible record, [NewInitializer]
    takes the nonce and the search position from the record and at once
    saves the record of the requested configuration. A request for fewer
    units therefore lowers the stored num_units before any file is touched,
    and from then on every request for more units than that is rejected. *)
Theorem NewInitializer_persists_request (env : Env) (s : State) (m : shared.PostMetadata) :
  no_faults env ->
  NumLabels (totalBytes (disk s)) > 0 ->
  metadataFile (disk s) = Some m ->
  verifyMetadata (init s) m = None ->
  let i' := set_lastPosition (shared.LastPosition m) (set_nonce (shared.Nonce m) (init s)) in
  NewInitializer_resume env s =
    (Val tt,
     {| init := i';
        disk := set_metadataFile (Some (metadataOf i')) (disk s);
        trace := trace s ++ [OpDiskNumLabelsWritten; OpLoadMetadata;
                             OpSaveMetadata (metadataOf i')] |}) /\
  shared.NumUnits (metadataOf i') = config.NumUnits (opts (init s)) /\
  forall j, config.NumUnits (opts j) > config.NumUnits (opts (init s)) ->
            verifyMetadata j (metadataOf i') <> None.
Proof.
  intros Hnf Hpos Hm Hv i'. split; [| split; [reflexivity |]].
  - rewrite (NewInitializer_resume_labels env s Hnf Hpos). cbv zeta.
    erewrite bind_val.
    2:{ erewrite bind_val.
        2:{ rewrite (loadMetadata_eq env _ Hnf). cbn [init disk trace]. rewrite Hm.
            reflexivity. }
        rewrite bind_get. cbn [init]. rewrite Hv. rewrite bind_modify. reflexivity. }
    rewrite saveMetadata_eq. unfold with_init. cbn [init disk trace]. fold i'.
    rewrite Hnf, <- !app_assoc. reflexivity.
  - intros j Hj Hnone. apply verifyMetadata_None in Hnone.
    destruct Hnone as (_ & _ & _ & _ & Hle). simpl in Hle. lia.
Qed.

Lemma NewInitializer_persists_request_witness :
  fst (NewInitializer_resume quiet_env (reopening 1 2)) = Val tt /\
  (shared.NumUnits <$> metadataFile (disk (snd (NewInitializer_resume quiet_env
                                                  (reopening 1 2))))) = Some 1 /\
  verifyMetadata (sample_init 2 2)
    (metadataOf (set_lastPosition None (set_nonce None (sample_init 1 2)))) <> None.
Proof.
  pose proof (NewInitializer_persists_request quiet_env (reopening 1 2) (sample_metadata 2)
                (fun _ _ => eq_refl) eq_refl eq_refl eq_refl) as (Hrun & _ & Hlater).
  rewrite Hrun. split; [reflexivity |]. split; [reflexivity |].
  apply (Hlater (sample_init 2 2)). reflexivity.
Defined.

(** ** What a successful [Initialize] guarantees *)

Lemma Initialize_search_found env wo batchSize fuel : forall i s s',
  Initialize_search env fuel wo batchSize i s = (Val tt, s') ->
  exists n, nonce (init s') = Some n.
Proof.
  induction fuel as [| fuel IH]; intros i s s' H; [discriminate H |].
  rewrite Initialize_search_S in H.
  destruct (i <? MaxUint64); [| discriminate H].
  rewrite bind_modify in H.
  apply bind_Val_inv in H as (stopped & s1 & _ & H).
  destruct stopped; [discriminate H |].
  apply bind_Val_inv in H as (res & s2 & _ & H).
  destruct (oracle.Nonce res) as [n |].
  - inversion H; subst. exists n. reflexivity.
  - eapply IH; exact H.
Qed.

(** X5: [Initialize] returns without error only with a nonce retained: either
    one was retained when the files were done, or the search past the end of
    the label space found one. *)
Theorem Initialize_success_retains_nonce (env : Env) (fuel : nat) (s s' : State) :
  Initialize env fuel s = (Val tt, s') ->
  exists n, nonce (init s') = Some n.
Proof.
  intros H. unfold Initialize in H.
  apply bind_Val_inv in H as (locked & s0 & _ & H).
  destruct locked; [| discriminate H]. cbn [negb] in H.
  apply defer_Val_inv in H as (s1 & H & ->).
  unfold Initialize_body in H. rewrite bind_get in H.
  apply bind_Val_inv in H as ([] & sa & _ & H).
  apply bind_Val_inv in H as (w & sb & _ & H).
  apply defer_Val_inv in H as (sc & H & ->).
  apply bind_Val_inv in H as ([] & sd & _ & H).
  change (exists n, nonce (init sc) = Some n).
  unfold Initialize_finish in H. rewrite bind_get in H.
  destruct (nonce (init sd)) as [n |] eqn:En.
  - inversion H; subst. eauto.
  - apply bind_Val_inv in H as ([] & se & _ & H).
    apply defer_Val_inv in H as (sf & H & ->).
    rewrite saveMetadata_keeps_init.
    rewrite bind_get in H. destruct (lastPosition (init se)); [| discriminate H].
    eapply Initialize_search_found; exact H.
Qed.

Lemma Initialize_success_retains_nonce_witness :
  exists n, nonce (init (snd (Initialize lucky_env 3 fresh_state))) = Some n.
Proof.
  assert (Hfst : fst (Initialize lucky_env 3 fresh_state) = Val tt).
  { vm_compute. reflexivity. }
  apply (Initialize_success_retains_nonce lucky_env 3 fresh_state).
  rewrite <- Hfst. apply surjective_pairing.
Defined.

(** ** Identity and configuration never change *)

Lemma same_config_refl i : same_config i i.
Proof. repeat split. Qed.

Lemma same_config_trans a b c : same_config a b -> same_config b c -> same_config a c.
Proof.
  intros (H1 & H2 & H3 & H4 & H5) (G1 & G2 & G3 & G4 & G5). repeat split; congruence.
Qed.

Lemma locked_preserves {A} (R : Initializer -> Initializer -> Prop) (busy body : M A) :
  (forall i, R i i) -> (forall a b c, R a b -> R b c -> R a c) ->
  (forall i b, R i (set_mtx b i)) ->
  preserves (on_init R) busy ->
  preserves (on_init R) body ->
  preserves (on_init R)
    (do locked <- TryLock; if negb locked then busy else defer Unlock body).
Proof.
  intros Hrefl Htrans Hmtx Hbusy Hbody.
  assert (Ht : forall a b c, on_init R a b -> on_init R b c -> on_init R a c).
  { intros a b c. apply Htrans. }
  apply (preserves_bind _ Ht).
  - intros s r s' H. unfold TryLock in H.
    destruct (mtx (init s)); inversion H; subst; [apply Hrefl | apply Hmtx].
  - intros locked. destruct locked; cbn [negb]; [| exact Hbusy].
    apply (preserves_defer _ Ht); [| exact Hbody].
    apply preserves_modify. intros s. apply Hmtx.
Qed.

Lemma NewInitializer_resume_keeps_config env :
  preserves (on_init same_config) (NewInitializer_resume env).
Proof.
  assert (Href := same_config_refl). assert (Htr := same_config_trans).
  assert (Hr : forall s, on_init same_config s s) by (intros; apply Href).
  assert (Ht : forall a b c, on_init same_config a b -> on_init same_config b c ->
                             on_init same_config a c) by (intros a b c; apply Htr).
  unfold NewInitializer_resume.
  apply (preserves_bind _ Ht); [apply inv_diskState_NumLabelsWritten; assumption |].
  intros n. apply (preserves_bind _ Ht); [| intros _; apply inv_saveMetadata; assumption].
  destruct (n >? 0); [| apply (preserves_ret _ Hr)].
  apply (preserves_bind _ Ht); [apply inv_loadMetadata; assumption |].
  intros m. apply (preserves_bind _ Ht); [apply (preserves_get _ Hr) |].
  intros s0. destruct (verifyMetadata (init s0) m); [apply (preserves_fail _ Hr) |].
  apply (preserves_bind _ Ht); [| intros _];
    apply preserves_modify; intros s1; repeat split.
Qed.

(** X6: Whatever the disk, the oracle and the context do, [Initialize], [Reset],
    [Status] and the resumption of [NewInitializer] leave node id,
    commitment reference, commitment, configuration and options of the
    instance as they were. *)
Theorem methods_keep_configuration (env : Env) (fuel : nat) (s : State) :
  same_config (init s) (init (snd (Initialize env fuel s))) /\
  same_config (init s) (init (snd (Reset env s))) /\
  same_config (init s) (init (snd (Status env s))) /\
  same_config (init s) (init (snd (NewInitializer_resume env s))).
Proof.
  assert (Href := same_config_refl). assert (Htr := same_config_trans).
  assert (Hr : forall s, on_init same_config s s) by (intros; apply Href).
  assert (Ht : forall a b c, on_init same_config a b -> on_init same_config b c ->
                             on_init same_config a c) by (intros a b c; apply Htr).
  assert (Hset : forall i b, same_config i (set_mtx b i)) by (intros; repeat split).
  split; [| split; [| split]].
  - apply (locked_preserves same_config (fail ErrAlreadyInitializing)
             (Initialize_body env fuel) Href Htr Hset) with (r := fst (Initialize env fuel s)).
    + apply (preserves_fail _ Hr).
    + apply inv_Initialize_body; try assumption; intros; repeat split.
    + apply surjective_pairing.
  - apply (locked_preserves same_config (fail ErrCannotResetWhileInitializing)
             (Reset_body env) Href Htr Hset) with (r := fst (Reset env s)).
    + apply (preserves_fail _ Hr).
    + apply inv_Reset_body; assumption.
    + apply surjective_pairing.
  - unfold Status.
    match goal with |- same_config _ (init (snd (bind TryLock ?k s))) =>
      assert (Hp : preserves (on_init same_config) (bind TryLock k)) end.
    { apply (locked_preserves same_config (ret StatusInitializing)); try assumption.
      - apply (preserves_ret _ Hr).
      - apply (preserves_bind _ Ht).
        + apply preserves_try. apply inv_diskState_NumLabelsWritten; assumption.
        + intros [e | n]; [apply (preserves_ret _ Hr) |].
          apply (preserves_bind _ Ht); [apply (preserves_get _ Hr) |].
          intros s0. repeat (match goal with |- preserves _ (if ?b then _ else _) =>
                                 destruct b end); apply (preserves_ret _ Hr). }
    eapply Hp. apply surjective_pairing.
  - eapply NewInitializer_resume_keeps_config. apply surjective_pairing.
Qed.

(** ** The search positions wrap around *)

Lemma search_position_closed batchSize p k :
  0 <= p < 2 ^ 64 ->
  search_position batchSize p k = (p + Z.of_nat k * batchSize) mod 2 ^ 64.
Proof.
  revert p. induction k as [| k IH]; intros p Hp.
  - simpl. rewrite Z.add_0_r. symmetry. apply Z.mod_small. exact Hp.
  - rewrite search_position_S, IH by apply uint64_range.
    unfold uint64. rewrite Zplus_mod_idemp_l. f_equal. lia.
Qed.

(** X7: The position of batch [k] of the search is [start + k * batchSize]
    reduced modulo [2^64]: the loop index wraps around instead of stopping
    above [MaxUint64]. In particular, from an even starting position with an
    even batch size the search never arrives at [MaxUint64], so it never
    returns NoNonceFound whatever the fuel. *)
Theorem search_wraps_around (env : Env) (wo : Z -> Z -> Z + oracle.WorkOracleResult)
    (batchSize start : Z) :
  0 <= start < 2 ^ 64 ->
  (forall k, search_position batchSize start k
             = (start + Z.of_nat k * batchSize) mod 2 ^ 64) /\
  (Z.even start = true -> Z.even batchSize = true ->
   forall fuel s, fst (Initialize_search env fuel wo batchSize start s) <> Err ErrNoNonceFound).
Proof.
  intros Hs. split; [intros k; apply search_position_closed; exact Hs |].
  intros He Hb fuel s Hnnf.
  destruct (Initialize_search env fuel wo batchSize start s) as [r s'] eqn:E.
  simpl in Hnnf. subst r.
  apply Initialize_search_exhausted in E as [_ (k & Hk & _)]; [| exact Hs].
  rewrite search_position_closed in Hk by exact Hs.
  apply Z.even_spec in He as [a Ha]. apply Z.even_spec in Hb as [b Hb].
  pose proof (Z.div_mod (start + Z.of_nat k * batchSize) (2 ^ 64) ltac:(lia)) as Hdm.
  rewrite Hk in Hdm. unfold MaxUint64 in Hdm. subst start batchSize.
  set (q := (2 * a + Z.of_nat k * (2 * b)) / 2 ^ 64) in Hdm.
  assert (Hpar : 2 * (a + Z.of_nat k * b - 2 ^ 63 * q - 2 ^ 63) = -1) by lia.
  lia.
Qed.

Lemma search_wraps_around_witness :
  search_position 4 (2 ^ 64 - 6) 2 = 2 /\
  fst (Initialize_search quiet_env 5 (sample_oracle no_hit) 4 (2 ^ 64 - 6) fresh_state)
    <> Err ErrNoNonceFound.
Proof.
  pose proof (search_wraps_around quiet_env (sample_oracle no_hit) 4 (2 ^ 64 - 6)
                ltac:(lia)) as [Hpos Hnever].
  split.
  - rewrite Hpos. reflexivity.
  - apply Hnever; reflexivity.
Defined.

(** X8: With a batch size of zero the search never advances: as long as nobody
    cancels and the oracle reports no nonce for the degenerate range, the
    loop asks for the same position again, whatever the fuel. *)
Theorem search_zero_batch_never_returns (env : Env)
    (wo : Z -> Z -> Z + oracle.WorkOracleResult) (start : Z) (out : list byte) :
  never_cancelled env ->
  0 <= start < MaxUint64 ->
  wo start (uint64 (start + 0 - 1)) = inr {| oracle.Output := out; oracle.Nonce := None |} ->
  forall fuel s,
    fst (Initialize_search env fuel wo 0 start s) = Timeout /\
    filter isPositions (trace (snd (Initialize_search env fuel wo 0 start s))) =
      filter isPositions (trace s)
      ++ replicate fuel (OpPositions start (uint64 (start + 0 - 1))).
Proof.
  intros Hnc Hs Hwo fuel. induction fuel as [| fuel IH]; intros s.
  - simpl. rewrite app_nil_r. split; reflexivity.
  - assert (Hstep : Initialize_search env (S fuel) wo 0 start s =
                    Initialize_search env fuel wo 0 start
                      {| init := set_lastPosition (Some start) (init s); disk := disk s;
                         trace := (trace s ++ [OpCtxDone])
                                  ++ [OpPositions start (uint64 (start + 0 - 1))] |}).
    { rewrite Initialize_search_S.
      replace (start <? MaxUint64) with true by (symmetry; apply Z.ltb_lt; lia).
      rewrite bind_modify. unfold bind at 1. unfold ctx_Done. rewrite Hnc.
      unfold bind at 1. rewrite wo_Positions_eq, Hwo. cbn [oracle.Nonce].
      unfold MaxUint64 in Hs. rewrite (uint64_small (start + 0)) by lia.
      rewrite Z.add_0_r. reflexivity. }
    rewrite Hstep.
    match goal with |- context [Initialize_search env fuel wo 0 start ?st] =>
      destruct (IH st) as [H1 H2]; rewrite H1, H2 end.
    split; [reflexivity |]. cbn [trace].
    rewrite !filter_app. rewrite (filter_cons_False _ OpCtxDone) by (simpl; auto).
    rewrite filter_cons_True by (simpl; auto). rewrite !filter_nil, app_nil_r.
    rewrite <- app_assoc. reflexivity.
Qed.

Lemma search_zero_batch_never_returns_witness :
  fst (Initialize_search quiet_env 7 silent_oracle 0 5 fresh_state) = Timeout /\
  filter isPositions (trace (snd (Initialize_search quiet_env 7 silent_oracle 0 5 fresh_state)))
    = replicate 7 (OpPositions 5 4).
Proof.
  apply (search_zero_batch_never_returns quiet_env silent_oracle 5 []
           (fun _ => eq_refl) ltac:(vm_compute; split; [discriminate | reflexivity])
           eq_refl 7%nat fresh_state).
Defined.

(** ** What [initFile] does to the directory *)

Lemma initFile_unfold env fuel wo fileIndex batchSize fileOffset fileNumLabels difficulty :
  initFile env fuel wo fileIndex batchSize fileOffset fileNumLabels difficulty =
    (do_ NewLabelsWriter env fileIndex;
     defer (writer_Close env fileIndex)
       (do numLabelsWritten <- writer_NumLabelsWritten env fileIndex;
        initFile_branch env fuel wo fileIndex batchSize fileOffset fileNumLabels
          numLabelsWritten)).
Proof. reflexivity. Qed.

Lemma writer_NumLabelsWritten_inv env i s r s' :
  writer_NumLabelsWritten env i s = (r, s') ->
  init s' = init s /\ disk s' = disk s /\
  trace s' = trace s ++ [OpWriterNumLabelsWritten i] /\
  forall n, r = Val n -> n = NumLabels (Z.of_nat (length (fileBytes (disk s) i))).
Proof.
  unfold writer_NumLabelsWritten, bind, io, get, ret.
  destruct (io_fault env (trace s) _); intros H; inversion H; subst; cbn;
    repeat split; auto; intros n Hn; inversion Hn; reflexivity.
Qed.

Lemma NewLabelsWriter_inv env i s r s' :
  NewLabelsWriter env i s = (r, s') ->
  init s' = init s /\ trace s' = trace s ++ [OpNewLabelsWriter i] /\
  metadataFile (disk s') = metadataFile (disk s) /\
  forall j, fileBytes (disk s') j = fileBytes (disk s) j.
Proof.
  unfold NewLabelsWriter, bind, io, modify.
  destruct (io_fault env (trace s) _); intros H; inversion H; subst; cbn;
    repeat split; auto.
  intros j. unfold fileBytes. simpl. destruct (decide (i = j)) as [-> | Hne].
  - rewrite lookup_insert_eq. reflexivity.
  - rewrite lookup_insert_ne by exact Hne. reflexivity.
Qed.

Section DiskInvariant.

Variable env : Env.
Variable fileIndex : Z.
Variable D : Disk -> Disk -> Prop.
Hypothesis D_refl : forall d, D d d.
Hypothesis D_trans : forall a b c, D a b -> D b c -> D a c.
Hypothesis D_metadata : forall d m, D d (set_metadataFile m d).
Hypothesis D_open : forall d,
  D d (set_labelFiles (<[fileIndex := fileBytes d fileIndex]> (labelFiles d)) d).
Hypothesis D_write : forall d data,
  D d (set_labelFiles (<[fileIndex := fileBytes d fileIndex ++ data]> (labelFiles d)) d).
Hypothesis D_truncate : forall d n,
  D d (set_labelFiles (<[fileIndex := resize n x00%byte (fileBytes d fileIndex)]>
                         (labelFiles d)) d).

Lemma on_disk_refl s : on_disk D s s.
Proof. apply D_refl. Qed.

Lemma on_disk_trans a b c : on_disk D a b -> on_disk D b c -> on_disk D a c.
Proof. apply D_trans. Qed.

Local Ltac dpres :=
  repeat first [ solve [auto with dinv] | preserves_step on_disk_refl on_disk_trans ].

Lemma dinv_io op : preserves (on_disk D) (io env op).
Proof. intros s r s' H. apply io_inv in H as (_ & Hd & _). unfold on_disk. rewrite Hd. apply D_refl. Qed.

Lemma dinv_log op : preserves (on_disk D) (log op).
Proof. apply preserves_modify. intros s. apply D_refl. Qed.

Lemma dinv_ctx_Done : preserves (on_disk D) (ctx_Done env).
Proof. intros s r s' H. inversion H; subst. apply D_refl. Qed.

Lemma dinv_with_init f : preserves (on_disk D) (modify (with_init f)).
Proof. apply preserves_modify. intros s. apply D_refl. Qed.

Lemma dinv_set_metadataFile m : preserves (on_disk D) (modify (with_disk (set_metadataFile m))).
Proof. apply preserves_modify. intros s. apply D_metadata. Qed.

Local Hint Resolve dinv_io dinv_log dinv_ctx_Done dinv_with_init dinv_set_metadataFile : dinv.

Lemma dinv_saveMetadata : preserves (on_disk D) (saveMetadata env).
Proof. unfold saveMetadata, SaveMetadata. dpres. Qed.

Lemma dinv_wo_Positions wo a b : preserves (on_disk D) (wo_Positions wo a b).
Proof. unfold wo_Positions. dpres. Qed.

Lemma dinv_NewLabelsWriter : preserves (on_disk D) (NewLabelsWriter env fileIndex).
Proof.
  unfold NewLabelsWriter. dpres. apply preserves_modify. intros s. apply D_open.
Qed.

Lemma dinv_writer_NumLabelsWritten : preserves (on_disk D) (writer_NumLabelsWritten env fileIndex).
Proof. unfold writer_NumLabelsWritten. dpres. Qed.

Lemma dinv_writer_Write data : preserves (on_disk D) (writer_Write env fileIndex data).
Proof.
  unfold writer_Write. dpres. apply preserves_modify. intros s. apply D_write.
Qed.

Lemma dinv_writer_Truncate n : preserves (on_disk D) (writer_Truncate env fileIndex n).
Proof.
  unfold writer_Truncate. dpres. apply preserves_modify. intros s. apply D_truncate.
Qed.

Lemma dinv_writer_Flush : preserves (on_disk D) (writer_Flush env fileIndex).
Proof. apply dinv_io. Qed.

Lemma dinv_writer_Close : preserves (on_disk D) (writer_Close env fileIndex).
Proof. apply dinv_io. Qed.

Lemma dinv_initFile_nonce res startPosition :
  preserves (on_disk D) (initFile_nonce env res startPosition).
Proof.
  pose proof dinv_saveMetadata. unfold initFile_nonce. dpres.
Qed.

Local Hint Resolve dinv_saveMetadata dinv_wo_Positions dinv_NewLabelsWriter
  dinv_writer_NumLabelsWritten dinv_writer_Write dinv_writer_Flush dinv_writer_Close
  dinv_initFile_nonce : dinv.

Lemma dinv_initFile_loop fuel wo fileOffset fileNumLabels : forall batchSize currentPosition,
  preserves (on_disk D)
    (initFile_loop env fuel wo fileIndex batchSize fileOffset fileNumLabels currentPosition).
Proof.
  induction fuel as [| fuel IH]; intros batchSize currentPosition; simpl; [dpres |].
  destruct (currentPosition <? fileNumLabels); dpres.
Qed.

Local Hint Resolve dinv_initFile_loop : dinv.

Lemma dinv_initFile_branch_le fuel wo batchSize fileOffset fileNumLabels n :
  n <= fileNumLabels ->
  preserves (on_disk D)
    (initFile_branch env fuel wo fileIndex batchSize fileOffset fileNumLabels n).
Proof.
  intros Hle. unfold initFile_branch.
  destruct (n =? fileNumLabels); [dpres |].
  replace (n >? fileNumLabels) with false
    by (symmetry; rewrite Z.gtb_ltb; apply Z.ltb_ge; lia).
  dpres.
Qed.

Lemma dinv_initFile_branch fuel wo batchSize fileOffset fileNumLabels n :
  preserves (on_disk D)
    (initFile_branch env fuel wo fileIndex batchSize fileOffset fileNumLabels n).
Proof.
  pose proof dinv_writer_Truncate. unfold initFile_branch.
  destruct (n =? fileNumLabels); [dpres |].
  destruct (n >? fileNumLabels); dpres.
Qed.

Lemma dinv_initFile fuel wo batchSize fileOffset fileNumLabels difficulty :
  preserves (on_disk D)
    (initFile env fuel wo fileIndex batchSize fileOffset fileNumLabels difficulty).
Proof.
  pose proof dinv_initFile_branch. rewrite initFile_unfold. dpres.
Qed.

End DiskInvariant.

(** X9: [initFile] never touches another label file: whatever the disk, the
    oracle and the context do, every file but its own is as it was. *)
Theorem initFile_touches_own_file_only (env : Env) (fuel : nat)
    (wo : Z -> Z -> Z + oracle.WorkOracleResult)
    (fileIndex batchSize fileOffset fileNumLabels : Z) (difficulty : list byte) (s : State) :
  forall j, j <> fileIndex ->
    labelFiles
      (disk (snd (initFile env fuel wo fileIndex batchSize fileOffset fileNumLabels
                    difficulty s))) !! j
    = labelFiles (disk s) !! j.
Proof.
  assert (H : preserves (on_disk (others_kept fileIndex))
                (initFile env fuel wo fileIndex batchSize fileOffset fileNumLabels difficulty)).
  { apply dinv_initFile; unfold others_kept.
    - intros d j Hj. reflexivity.
    - intros a b c Hab Hbc j Hj. rewrite Hbc, Hab by exact Hj. reflexivity.
    - intros d m j Hj. reflexivity.
    - intros d j Hj. simpl. apply lookup_insert_ne. congruence.
    - intros d data j Hj. simpl. apply lookup_insert_ne. congruence.
    - intros d n j Hj. simpl. apply lookup_insert_ne. congruence. }
  intros j Hj. eapply H; [apply surjective_pairing | exact Hj].
Qed.

Lemma initFile_touches_own_file_only_witness :
  labelFiles (disk (snd (initFile quiet_env 3 (sample_oracle no_hit) 0 2 0 1 []
                           written_state))) !! 1
  = labelFiles (disk written_state) !! 1.
Proof.
  apply (initFile_touches_own_file_only quiet_env 3 (sample_oracle no_hit) 0 2 0 1 []
           written_state 1).
  lia.
Defined.

(** X10: When the file holds at most its target, [initFile] never rewrites or
    drops a label that is already written: whatever happens (faults,
    cancellation, a misbehaving oracle), the content found is a prefix of
    the content left. *)
Theorem initFile_keeps_written_labels (env : Env) (fuel : nat)
    (wo : Z -> Z -> Z + oracle.WorkOracleResult)
    (fileIndex batchSize fileOffset fileNumLabels : Z) (difficulty : list byte) (s : State) :
  NumLabels (Z.of_nat (length (fileBytes (disk s) fileIndex))) <= fileNumLabels ->
  fileBytes (disk s) fileIndex
    `prefix_of`
  fileBytes (disk (snd (initFile env fuel wo fileIndex batchSize fileOffset fileNumLabels
                          difficulty s))) fileIndex.
Proof.
  intros Hle.
  assert (Hopen : forall d,
            only_appended fileIndex d
              (set_labelFiles (<[fileIndex := fileBytes d fileIndex]> (labelFiles d)) d)).
  { intros d. unfold only_appended. rewrite fileBytes_insert. reflexivity. }
  assert (Hwrite : forall d data,
            only_appended fileIndex d
              (set_labelFiles (<[fileIndex := fileBytes d fileIndex ++ data]> (labelFiles d)) d)).
  { intros d data. unfold only_appended. rewrite fileBytes_insert. apply prefix_app_r.
    reflexivity. }
  assert (Hrefl : forall d, only_appended fileIndex d d) by (intros d; unfold only_appended; reflexivity).
  assert (Htrans : forall a b c, only_appended fileIndex a b -> only_appended fileIndex b c ->
                                 only_appended fileIndex a c).
  { unfold only_appended. intros a b c Hab Hbc. etransitivity; eassumption. }
  assert (Hmeta : forall d m, only_appended fileIndex d (set_metadataFile m d)).
  { intros d m. unfold only_appended. reflexivity. }
  destruct (initFile env fuel wo fileIndex batchSize fileOffset fileNumLabels difficulty s)
    as [r s'] eqn:E.
  cbn [snd]. rewrite initFile_unfold in E. unfold bind at 1 in E.
  destruct (NewLabelsWriter env fileIndex s) as [r1 s1] eqn:E1.
  pose proof (NewLabelsWriter_inv _ _ _ _ _ E1) as (_ & _ & _ & Hsame).
  assert (H01 : fileBytes (disk s) fileIndex `prefix_of` fileBytes (disk s1) fileIndex).
  { rewrite Hsame. reflexivity. }
  destruct r1; try (inversion E; subst; exact H01).
  etransitivity; [exact H01 |].
  unfold defer in E.
  match type of E with context [let (_, _) := ?b s1 in _] =>
    destruct (b s1) as [r2 s2] eqn:E2 end.
  assert (H12 : only_appended fileIndex (disk s1) (disk s2)).
  { unfold bind at 1 in E2.
    destruct (writer_NumLabelsWritten env fileIndex s1) as [r4 s4] eqn:E4.
    pose proof (writer_NumLabelsWritten_inv _ _ _ _ _ E4) as (_ & Hd4 & _ & Hn).
    destruct r4 as [n | e | |]; try (inversion E2; subst; rewrite Hd4; apply Hrefl).
    specialize (Hn n eq_refl). rewrite Hsame in Hn.
    rewrite <- Hd4.
    apply (dinv_initFile_branch_le env fileIndex (only_appended fileIndex)
             Hrefl Htrans Hmeta Hwrite fuel wo batchSize fileOffset fileNumLabels n
             ltac:(lia) _ _ _ E2). }
  unfold only_appended in H12. etransitivity; [exact H12 |].
  destruct r2; inversion E; subst; try reflexivity;
    destruct (writer_Close env fileIndex s2) as [rc sc] eqn:Ec;
    apply io_inv in Ec as (_ & Hdc & _); cbn [snd]; rewrite Hdc; reflexivity.
Qed.

Lemma initFile_keeps_written_labels_witness :
  sample_label 0
    `prefix_of`
  fileBytes (disk (snd (initFile quiet_env 3 (sample_oracle no_hit) 0 2 0 2 []
                          partial_state))) 0.
Proof.
  apply (initFile_keeps_written_labels quiet_env 3 (sample_oracle no_hit) 0 2 0 2 []
           partial_state).
  vm_compute. discriminate.
Defined.

Lemma adds_only_refl P s : adds_only P s s.
Proof. exists []. rewrite app_nil_r. split; [reflexivity | constructor]. Qed.

Lemma adds_only_trans P a b c : adds_only P a b -> adds_only P b c -> adds_only P a c.
Proof.
  intros (r1 & H1 & F1) (r2 & H2 & F2). exists (r1 ++ r2). split.
  - rewrite H2, H1, app_assoc. reflexivity.
  - apply Forall_app. split; assumption.
Qed.

Lemma adds_only_one P s s' op :
  trace s' = trace s ++ [op] -> P op -> adds_only P s s'.
Proof. intros Ht Hp. exists [op]. split; [exact Ht | repeat constructor; exact Hp]. Qed.

Section CallsWithin.

Variable env : Env.
Variables lo hi size : Z.

Let P := call_within lo hi size.

Local Ltac apres :=
  repeat first [ solve [auto with ainv]
               | preserves_step (adds_only_refl P) (adds_only_trans P) ].

Lemma ainv_io op : P op -> preserves (adds_only P) (io env op).
Proof.
  intros Hp s r s' H. apply io_inv in H as (_ & _ & Ht). eapply adds_only_one; eassumption.
Qed.

Lemma ainv_modify f : (forall s, trace (f s) = trace s) -> preserves (adds_only P) (modify f).
Proof.
  intros Hf. apply preserves_modify. intros s. exists []. rewrite Hf, app_nil_r.
  split; [reflexivity | constructor].
Qed.

Lemma ainv_ctx_Done : preserves (adds_only P) (ctx_Done env).
Proof.
  intros s r s' H. inversion H; subst. eapply adds_only_one; [reflexivity | exact I].
Qed.

Lemma ainv_with_init f : preserves (adds_only P) (modify (with_init f)).
Proof. apply ainv_modify. reflexivity. Qed.

Lemma ainv_with_disk f : preserves (adds_only P) (modify (with_disk f)).
Proof. apply ainv_modify. reflexivity. Qed.

Local Hint Resolve ainv_ctx_Done ainv_with_init ainv_with_disk : ainv.
Local Hint Extern 1 (preserves _ (io _ _)) => apply ainv_io; exact I : ainv.

Lemma ainv_saveMetadata : preserves (adds_only P) (saveMetadata env).
Proof. unfold saveMetadata, SaveMetadata. apres. Qed.

Lemma ainv_initFile_nonce res startPosition :
  preserves (adds_only P) (initFile_nonce env res startPosition).
Proof. pose proof ainv_saveMetadata. unfold initFile_nonce. apres. Qed.

Lemma ainv_wo_Positions wo a b :
  P (OpPositions a b) -> preserves (adds_only P) (wo_Positions wo a b).
Proof.
  intros Hp s r s' H. rewrite wo_Positions_eq in H. inversion H; subst.
  eapply adds_only_one; [reflexivity | exact Hp].
Qed.

Local Hint Resolve ainv_saveMetadata ainv_initFile_nonce : ainv.

Lemma ainv_initFile_loop wo fileIndex fileOffset fileNumLabels fuel :
  lo <= fileOffset -> 0 <= fileOffset -> fileOffset + fileNumLabels <= hi ->
  fileOffset + fileNumLabels < 2 ^ 64 ->
  forall batchSize currentPosition,
    0 < batchSize <= size -> 0 <= currentPosition ->
    preserves (adds_only P)
      (initFile_loop env fuel wo fileIndex batchSize fileOffset fileNumLabels currentPosition).
Proof.
  intros Hlo Hoff Hhi Hend.
  induction fuel as [| fuel IH]; intros batchSize cur Hbs Hcur; simpl; [apres |].
  destruct (cur <? fileNumLabels) eqn:Elt; [| apres].
  apply Z.ltb_lt in Elt.
  rewrite (uint64_small (fileNumLabels - cur)) by lia.
  rewrite (uint64_small (fileOffset + cur)) by lia.
  set (bs := if fileNumLabels - cur <? batchSize then fileNumLabels - cur else batchSize).
  assert (Hbs' : 0 < bs /\ bs <= batchSize /\ bs <= fileNumLabels - cur).
  { unfold bs. destruct (Z.ltb_spec (fileNumLabels - cur) batchSize); lia. }
  rewrite (uint64_small (fileOffset + cur + bs - 1)) by lia.
  rewrite (uint64_small (cur + bs)) by lia.
  unfold writer_Flush, writer_Write.
  repeat first [ solve [auto with ainv]
               | apply ainv_wo_Positions; unfold P, call_within; lia
               | apply IH; lia
               | preserves_step (adds_only_refl P) (adds_only_trans P) ].
Qed.

End CallsWithin.

Lemma NumLabels_nonneg n : 0 <= n -> 0 <= NumLabels n.
Proof. intros H. rewrite NumLabels_div. apply Z.div_pos; lia. Qed.

(** X11: Every range [initFile] asks the oracle for lies inside the positions of
    its own file, [[fileOffset, fileOffset + fileNumLabels)], and holds at
    most [batchSize] positions, whatever the disk, the context and the
    oracle's answers are. *)
Theorem initFile_calls_within_file (env : Env) (fuel : nat)
    (wo : Z -> Z -> Z + oracle.WorkOracleResult)
    (fileIndex batchSize fileOffset fileNumLabels : Z) (difficulty : list byte) (s : State) :
  0 < batchSize ->
  0 <= fileOffset ->
  fileOffset + fileNumLabels < 2 ^ 64 ->
  exists rest,
    trace (snd (initFile env fuel wo fileIndex batchSize fileOffset fileNumLabels
                  difficulty s))
    = trace s ++ rest /\
    Forall (call_within fileOffset (fileOffset + fileNumLabels) batchSize) rest.
Proof.
  intros Hbs Hoff Hend.
  set (P := call_within fileOffset (fileOffset + fileNumLabels) batchSize).
  assert (Hr := adds_only_refl P). assert (Ht := adds_only_trans P).
  assert (Hio : forall op, P op -> preserves (adds_only P) (io env op)).
  { intros op. apply ainv_io. }
  assert (Hcount : preserves (adds_only P) (writer_NumLabelsWritten env fileIndex)).
  { unfold writer_NumLabelsWritten. apply (preserves_bind _ Ht); [apply Hio; exact I |].
    intros _. apply (preserves_bind _ Ht); [apply (preserves_get _ Hr) |].
    intros s0. apply (preserves_ret _ Hr). }
  assert (Hbranch : forall n, 0 <= n ->
            preserves (adds_only P)
              (initFile_branch env fuel wo fileIndex batchSize fileOffset fileNumLabels n)).
  { intros n Hn. unfold initFile_branch.
    destruct (n =? fileNumLabels); [apply ainv_with_init |].
    destruct (n >? fileNumLabels).
    - apply (preserves_bind _ Ht); [| intros _; apply ainv_with_init].
      unfold writer_Truncate. apply (preserves_bind _ Ht); [apply Hio; exact I |].
      intros _. apply ainv_with_disk.
    - apply (preserves_bind _ Ht).
      { apply ainv_initFile_loop; lia. }
      intros _. apply (preserves_bind _ Ht); [apply Hio; exact I |].
      intros _. apply (preserves_bind _ Ht); [exact Hcount |].
      intros _. apply (preserves_ret _ Hr). }
  assert (H : preserves (adds_only P)
                (initFile env fuel wo fileIndex batchSize fileOffset fileNumLabels difficulty)).
  { rewrite initFile_unfold. apply (preserves_bind _ Ht).
    { unfold NewLabelsWriter. apply (preserves_bind _ Ht); [apply Hio; exact I |].
      intros _. apply ainv_with_disk. }
    intros _. apply (preserves_defer _ Ht); [apply Hio; exact I |].
    intros s1 r s2 E. unfold bind at 1 in E.
    destruct (writer_NumLabelsWritten env fileIndex s1) as [r4 s4] eqn:E4.
    pose proof (Hcount _ _ _ E4) as H14.
    apply writer_NumLabelsWritten_inv in E4 as (_ & _ & _ & Hn).
    destruct r4 as [n | e | |]; try (inversion E; subst; exact H14).
    eapply Ht; [exact H14 |]. eapply Hbranch; [| exact E].
    rewrite (Hn n eq_refl). apply NumLabels_nonneg. lia. }
  eapply H. apply surjective_pairing.
Qed.

Lemma initFile_calls_within_file_witness :
  exists rest,
    trace (snd (initFile quiet_env 3 (sample_oracle no_hit) 1 2 2 2 [] fresh_state))
    = trace fresh_state ++ rest /\
    Forall (call_within 2 4 2) rest.
Proof.
  apply (initFile_calls_within_file quiet_env 3 (sample_oracle no_hit) 1 2 2 2 []
           fresh_state); lia.
Defined.

(** X12: A cancellation seen before the first batch of a file: with a
    fault-free disk, [initFile] flushes, returns the cancellation error and
    leaves the content of the file as it found it, without a call of the
    oracle. *)
Theorem initFile_cancelled_before_batch (env : Env) (fuel : nat)
    (wo : Z -> Z -> Z + oracle.WorkOracleResult)
    (fileIndex batchSize fileOffset fileNumLabels : Z) (difficulty : list byte) (s : State) :
  no_faults env ->
  NumLabels (Z.of_nat (length (fileBytes (disk s) fileIndex))) < fileNumLabels ->
  ctx_done env (trace s ++ [OpNewLabelsWriter fileIndex; OpWriterNumLabelsWritten fileIndex])
    = true ->
  let run := initFile env (S fuel) wo fileIndex batchSize fileOffset fileNumLabels difficulty s in
  fst run = Err ErrCanceled /\
  fileBytes (disk (snd run)) fileIndex = fileBytes (disk s) fileIndex /\
  init (snd run) = init s /\
  trace (snd run) =
    trace s ++ [OpNewLabelsWriter fileIndex; OpWriterNumLabelsWritten fileIndex;
                OpCtxDone; OpFlush fileIndex; OpClose fileIndex].
Proof.
  intros Hnf Hw Hstop run. unfold run. rewrite initFile_unfold.
  rewrite (bind_val _ _ _ _ _ (NewLabelsWriter_eq env Hnf _ s)).
  unfold defer.
  rewrite (bind_val _ _ _ _ _ (writer_NumLabelsWritten_eq env Hnf _ _)).
  cbn [init disk trace]. rewrite fileBytes_insert.
  unfold initFile_branch.
  replace (_ =? fileNumLabels) with false by (symmetry; apply Z.eqb_neq; lia).
  replace (_ >? fileNumLabels) with false
    by (symmetry; rewrite Z.gtb_ltb; apply Z.ltb_ge; lia).
  erewrite bind_err.
  2:{ cbn [initFile_loop].
      replace (_ <? fileNumLabels) with true by (symmetry; apply Z.ltb_lt; lia).
      unfold bind at 1. unfold ctx_Done. cbn [init disk trace].
      rewrite <- app_assoc. cbn [app]. rewrite Hstop.
      unfold writer_Flush. erewrite bind_val by apply (io_ok env Hnf).
      reflexivity. }
  unfold writer_Close. rewrite io_ok by exact Hnf.
  cbn [fst snd init disk trace]. rewrite fileBytes_insert.
  rewrite <- !app_assoc. repeat split; reflexivity.
Qed.

Lemma initFile_cancelled_before_batch_witness :
  fst (initFile cancelled_env 3 (sample_oracle no_hit) 0 2 0 2 [] partial_state)
    = Err ErrCanceled /\
  fileBytes (disk (snd (initFile cancelled_env 3 (sample_oracle no_hit) 0 2 0 2 []
                          partial_state))) 0 = sample_label 0.
Proof.
  pose proof (initFile_cancelled_before_batch cancelled_env 2 (sample_oracle no_hit) 0 2 0 2 []
                partial_state (fun _ _ => eq_refl) ltac:(vm_compute; reflexivity) eq_refl)
    as (Hres & Hfile & _).
  split; [exact Hres | exact Hfile].
Defined.

(** ** Removing files *)

Section Removal.

Variable env : Env.
Hypothesis Hnf : no_faults env.

Lemma RemoveFile_InitFile i s :
  RemoveFile env (InitFile i) s =
    match labelFiles (disk s) !! i with
    | Some _ =>
        (Val tt,
         {| init := init s;
            disk := set_labelFiles (delete i (labelFiles (disk s))) (disk s);
            trace := trace s ++ [OpRemove (InitFile i)] |})
    | None =>
        (Err (ErrDeleteFile (InitFile i) (ErrIO (OpRemove (InitFile i)))),
         {| init := init s; disk := disk s; trace := trace s ++ [OpRemove (InitFile i)] |})
    end.
Proof.
  unfold RemoveFile, os_Remove.
  rewrite (bind_val _ _ _ _ _ (io_ok env Hnf _ s)). rewrite bind_get. cbn [disk].
  destruct (labelFiles (disk s) !! i); reflexivity.
Qed.

Lemma RemoveFile_MetadataFile s m :
  metadataFile (disk s) = Some m ->
  RemoveFile env MetadataFile s =
    (Val tt,
     {| init := init s; disk := set_metadataFile None (disk s);
        trace := trace s ++ [OpRemove MetadataFile] |}).
Proof.
  intros Hm. unfold RemoveFile, os_Remove.
  rewrite (bind_val _ _ _ _ _ (io_ok env Hnf _ s)). rewrite bind_get. cbn [disk].
  rewrite Hm. reflexivity.
Qed.

Lemma file_Info_ok name s :
  try (file_Info env name) s =
    (Val (inr tt), {| init := init s; disk := disk s; trace := trace s ++ [OpInfo name] |}).
Proof. unfold try, file_Info. rewrite io_ok by exact Hnf. reflexivity. Qed.

Lemma Reset_loop_clears l : forall s,
  NoDup l ->
  (forall i, InitFile i ∈ l -> is_Some (labelFiles (disk s) !! i)) ->
  (MetadataFile ∈ l -> is_Some (metadataFile (disk s))) ->
  exists s',
    Reset_loop env l s = (Val tt, s') /\
    init s' = init s /\
    otherFiles (disk s') = otherFiles (disk s) /\
    (forall i, InitFile i ∈ l -> labelFiles (disk s') !! i = None) /\
    (forall i, InitFile i ∉ l -> labelFiles (disk s') !! i = labelFiles (disk s) !! i) /\
    (MetadataFile ∈ l -> metadataFile (disk s') = None) /\
    (MetadataFile ∉ l -> metadataFile (disk s') = metadataFile (disk s)).
Proof.
  induction l as [| name rest IH]; intros s Hnd Hfiles Hmeta.
  - exists s. split; [reflexivity |]. repeat split; auto; intros; exfalso;
      match goal with H : _ ∈ [] |- _ => inversion H end.
  - apply NoDup_cons in Hnd as [Hnotin Hnd].
    cbn [Reset_loop]. rewrite (bind_val _ _ _ _ _ (file_Info_ok name s)).
    set (s0 := {| init := init s; disk := disk s; trace := trace s ++ [OpInfo name] |}).
    destruct name as [i | | n]; cbn [IsInitFile isMetadataFileName orb].
    + destruct (Hfiles i ltac:(left)) as [c Hc].
      pose proof (RemoveFile_InitFile i s0) as Hrm. cbn [s0 disk] in Hrm. rewrite Hc in Hrm.
      rewrite (bind_val _ _ _ _ _ Hrm).
      match goal with |- context [Reset_loop env rest ?st] => destruct (IH st Hnd) as
          (s' & Hs' & Hi & Ho & Hin & Hout & Hm1 & Hm2) end.
      { intros j Hj. cbn [disk set_labelFiles labelFiles].
        rewrite lookup_delete_ne; [apply Hfiles; right; exact Hj |].
        intros ->. contradiction. }
      { intros Hj. apply Hmeta. right. exact Hj. }
      exists s'. split; [exact Hs' |]. split; [exact Hi |]. split; [exact Ho |].
      split; [| split; [| split]].
      * intros j Hj. apply elem_of_cons in Hj as [Hj | Hj]; [| apply Hin; exact Hj].
        injection Hj as ->. rewrite (Hout i Hnotin). cbn. apply lookup_delete_eq.
      * intros j Hj. apply not_elem_of_cons in Hj as [Hne Hj].
        rewrite Hout by exact Hj. cbn. apply lookup_delete_ne. congruence.
      * intros Hj. apply Hm1. apply elem_of_cons in Hj as [Hj | Hj]; [discriminate | exact Hj].
      * intros Hj. apply not_elem_of_cons in Hj as [_ Hj]. rewrite Hm2 by exact Hj. reflexivity.
    + destruct (Hmeta ltac:(left)) as [m Hm].
      rewrite (bind_val _ _ _ _ _ (RemoveFile_MetadataFile s0 m Hm)).
      match goal with |- context [Reset_loop env rest ?st] => destruct (IH st Hnd) as
          (s' & Hs' & Hi & Ho & Hin & Hout & Hm1 & Hm2) end.
      { intros j Hj. cbn. apply Hfiles. right. exact Hj. }
      { intros Hj. contradiction. }
      exists s'. split; [exact Hs' |]. split; [exact Hi |]. split; [exact Ho |].
      split; [| split; [| split]].
      * intros j Hj. apply elem_of_cons in Hj as [Hj | Hj]; [discriminate |].
        apply Hin. exact Hj.
      * intros j Hj. apply not_elem_of_cons in Hj as [_ Hj]. rewrite Hout by exact Hj.
        reflexivity.
      * intros _. rewrite Hm2 by exact Hnotin. reflexivity.
      * intros Hj. exfalso. apply Hj. left.
    + destruct (IH s0 Hnd) as (s' & Hs' & Hi & Ho & Hin & Hout & Hm1 & Hm2).
      { intros j Hj. apply Hfiles. right. exact Hj. }
      { intros Hj. apply Hmeta. right. exact Hj. }
      exists s'. split; [exact Hs' |]. split; [exact Hi |]. split; [exact Ho |].
      split; [| split; [| split]].
      * intros j Hj. apply elem_of_cons in Hj as [Hj | Hj]; [discriminate |].
        apply Hin. exact Hj.
      * intros j Hj. apply not_elem_of_cons in Hj as [_ Hj]. apply Hout. exact Hj.
      * intros Hj. apply elem_of_cons in Hj as [Hj | Hj]; [discriminate |].
        apply Hm1. exact Hj.
      * intros Hj. apply not_elem_of_cons in Hj as [_ Hj]. apply Hm2. exact Hj.
Qed.

End Removal.

Lemma in_listing_InitFile d i : InitFile i ∈ listing d <-> is_Some (labelFiles d !! i).
Proof.
  unfold listing. rewrite !elem_of_app. split.
  - intros [H | [H | H]].
    + apply list_elem_of_fmap in H as (x & Hx & _). discriminate Hx.
    + apply list_elem_of_fmap in H as (x & Hx & Hin). injection Hx as ->.
      apply list_elem_of_fmap in Hin as ([k v] & -> & Hin).
      apply elem_of_map_to_list in Hin. simpl. eauto.
    + destruct (metadataFile d); [| inversion H].
      apply list_elem_of_singleton in H. discriminate H.
  - intros [v Hv]. right. left. apply list_elem_of_fmap. exists i. split; [reflexivity |].
    apply list_elem_of_fmap. exists (i, v). split; [reflexivity |].
    apply elem_of_map_to_list. exact Hv.
Qed.

Lemma in_listing_MetadataFile d : MetadataFile ∈ listing d <-> is_Some (metadataFile d).
Proof.
  unfold listing. rewrite !elem_of_app. split.
  - intros [H | [H | H]].
    + apply list_elem_of_fmap in H as (x & Hx & _). discriminate Hx.
    + apply list_elem_of_fmap in H as (x & Hx & _). discriminate Hx.
    + destruct (metadataFile d); [eauto | inversion H].
  - intros [m Hm]. right. right. rewrite Hm. left.
Qed.

Lemma NoDup_listing d : NoDup (otherFiles d) -> NoDup (listing d).
Proof.
  intros Hnd. unfold listing. apply NoDup_app. split; [| split].
  - apply NoDup_fmap_2_strong; [| exact Hnd]. intros x y _ _ H. injection H; auto.
  - intros x Hx Hin. apply list_elem_of_fmap in Hx as (n & -> & _).
    apply elem_of_app in Hin as [Hin | Hin].
    + apply list_elem_of_fmap in Hin as (i & Hi & _). discriminate Hi.
    + destruct (metadataFile d); [| inversion Hin].
      apply list_elem_of_singleton in Hin. discriminate Hin.
  - apply NoDup_app. split; [| split].
    + apply NoDup_fmap_2_strong; [| apply NoDup_fst_map_to_list].
      intros x y _ _ H. injection H; auto.
    + intros x Hx Hin. apply list_elem_of_fmap in Hx as (i & -> & _).
      destruct (metadataFile d); [| inversion Hin].
      apply list_elem_of_singleton in Hin. discriminate Hin.
    + destruct (metadataFile d); [apply NoDup_singleton | apply NoDup_nil_2].
Qed.

Lemma Reset_clears (env : Env) (s : State) :
  no_faults env ->
  mtx (init s) = false ->
  NoDup (otherFiles (disk s)) ->
  exists s',
    Reset env s = (Val tt, s') /\
    init s' = init s /\
    labelFiles (disk s') = ∅ /\
    metadataFile (disk s') = None /\
    otherFiles (disk s') = otherFiles (disk s).
Proof.
  intros Hnf Hm Hnd.
  set (s0 := with_init (set_mtx true) s).
  set (s1 := {| init := init s0; disk := disk s0; trace := trace s0 ++ [OpReadDir] |}).
  destruct (Reset_loop_clears env Hnf (listing (disk s)) s1) as
    (s2 & Hs2 & Hi & Ho & Hin & Hout & Hm1 & Hm2).
  { apply NoDup_listing. exact Hnd. }
  { intros i Hi. apply in_listing_InitFile in Hi. exact Hi. }
  { intros Hi. apply in_listing_MetadataFile in Hi. exact Hi. }
  assert (Hbody : Reset_body env s0 = (Val tt, s2)).
  { unfold Reset_body, os_ReadDir.
    erewrite bind_val.
    2:{ rewrite (bind_val _ _ _ _ _ (io_ok env Hnf _ s0)). rewrite bind_get. reflexivity. }
    exact Hs2. }
  exists (with_init (set_mtx false) s2). split; [| split; [| split; [| split]]].
  - unfold Reset. rewrite (bind_val _ _ _ _ _ (TryLock_free s Hm)). cbn [negb].
    rewrite (defer_val _ _ _ _ _ Hbody). reflexivity.
  - cbn. rewrite Hi. cbn. apply set_mtx_unlock. exact Hm.
  - cbn. apply map_eq. intros i. rewrite lookup_empty.
    destruct (labelFiles (disk s) !! i) eqn:E.
    + apply Hin. apply in_listing_InitFile. rewrite E. eauto.
    + rewrite Hout; [exact E |]. intros Hc. apply in_listing_InitFile in Hc.
      rewrite E in Hc. destruct Hc as [? Hc]. discriminate Hc.
  - cbn. destruct (metadataFile (disk s)) eqn:E.
    + apply Hm1. apply in_listing_MetadataFile. rewrite E. eauto.
    + rewrite Hm2; [exact E |]. intros Hc. apply in_listing_MetadataFile in Hc.
      rewrite E in Hc. destruct Hc as [? Hc]. discriminate Hc.
  - cbn. exact Ho.
Qed.

(** X13: On a fault-free disk a [Reset] that gets the lock removes every label
    file and the metadata file, leaves the other entries of the directory
    alone, returns without error and leaves the instance as it was, with its
    lock free. *)
Theorem Reset_clears_directory (env : Env) (s : State) :
  no_faults env ->
  mtx (init s) = false ->
  NoDup (otherFiles (disk s)) ->
  exists s',
    Reset env s = (Val tt, s') /\
    init s' = init s /\
    labelFiles (disk s') = ∅ /\
    metadataFile (disk s') = None /\
    otherFiles (disk s') = otherFiles (disk s).
Proof. apply Reset_clears. Qed.

(** X14: After such a [Reset], [Status] answers NotStarted, provided the
    configured label space is not empty. *)
Theorem Status_after_Reset (env : Env) (s : State) :
  no_faults env ->
  mtx (init s) = false ->
  NoDup (otherFiles (disk s)) ->
  uint64 (uint64 (config.NumUnits (opts (init s)))
          * uint64 (config.LabelsPerUnit (cfg (init s)))) <> 0 ->
  fst (Reset env s) = Val tt /\
  fst (Status env (snd (Reset env s))) = Val StatusNotStarted.
Proof.
  intros Hnf Hm Hnd Htarget.
  destruct (Reset_clears env s Hnf Hm Hnd) as (s' & Hr & Hi & Hl & _ & _).
  rewrite Hr. cbn [fst snd]. split; [reflexivity |].
  assert (Hm' : mtx (init s') = false) by (rewrite Hi; exact Hm).
  unfold Status. rewrite (bind_val _ _ _ _ _ (TryLock_free s' Hm')). cbn [negb].
  unfold defer, bind, try. rewrite diskState_NumLabelsWritten_eq, Hnf.
  cbn [with_init init disk trace].
  cbn -[NumLabels totalBytes uint64 Z.eqb Z.gtb set_mtx].
  change (opts (set_mtx true (init s'))) with (opts (init s')).
  change (cfg (set_mtx true (init s'))) with (cfg (init s')).
  unfold totalBytes. rewrite Hl, map_fold_empty, Hi.
  change (NumLabels 0) with 0.
  destruct (Z.eqb_spec 0 (uint64 (uint64 (config.NumUnits (opts (init s)))
                                  * uint64 (config.LabelsPerUnit (cfg (init s))))))
    as [E | E]; [symmetry in E; contradiction |].
  reflexivity.
Qed.

Lemma Status_after_Reset_witness :
  fst (Reset quiet_env keyed_state) = Val tt /\
  fst (Status quiet_env (snd (Reset quiet_env keyed_state))) = Val StatusNotStarted.
Proof.
  apply (Status_after_Reset quiet_env keyed_state (fun _ _ => eq_refl) eq_refl).
  - apply NoDup_singleton.
  - vm_compute. discriminate.
Defined.

Lemma Reset_clears_directory_witness :
  exists s',
    Reset quiet_env keyed_state = (Val tt, s') /\
    init s' = init keyed_state /\
    labelFiles (disk s') = ∅ /\
    metadataFile (disk s') = None /\
    otherFiles (disk s') = ["key.bin"%string].
Proof.
  apply (Reset_clears_directory quiet_env keyed_state (fun _ _ => eq_refl) eq_refl).
  apply NoDup_singleton.
Defined.

Section Redundant.

Variable env : Env.
Hypothesis Hnf : no_faults env.

Lemma removeRedundantFiles_loop_removes n : forall i s,
  (forall j, i <= j < i + Z.of_nat n -> is_Some (labelFiles (disk s) !! j)) ->
  exists s',
    removeRedundantFiles_loop env n i s = (Val tt, s') /\
    init s' = init s /\
    metadataFile (disk s') = metadataFile (disk s) /\
    (forall j, i <= j < i + Z.of_nat n -> labelFiles (disk s') !! j = None) /\
    (forall j, ~ (i <= j < i + Z.of_nat n) ->
               labelFiles (disk s') !! j = labelFiles (disk s) !! j).
Proof.
  induction n as [| n IH]; intros i s Hex.
  - exists s. split; [reflexivity |]. repeat split; auto. intros j Hj. lia.
  - cbn [removeRedundantFiles_loop].
    destruct (Hex i ltac:(lia)) as [c Hc].
    pose proof (RemoveFile_InitFile env Hnf i s) as Hrm. rewrite Hc in Hrm.
    rewrite (bind_val _ _ _ _ _ Hrm).
    match goal with |- context [removeRedundantFiles_loop env n (i + 1) ?st] =>
      destruct (IH (i + 1) st) as (s' & Hs' & Hi & Hm & Hin & Hout) end.
    { intros j Hj. cbn. rewrite lookup_delete_ne by lia. apply Hex. lia. }
    exists s'. split; [exact Hs' |]. split; [exact Hi |]. split; [exact Hm |]. split.
    + intros j Hj. destruct (decide (j = i)) as [-> | Hne].
      * rewrite Hout by lia. cbn. apply lookup_delete_eq.
      * apply Hin. lia.
    + intros j Hj. rewrite Hout by lia. cbn. apply lookup_delete_ne. lia.
Qed.

End Redundant.

(** X15: [removeRedundantFiles] counts the label files and deletes the indices
    from the layout's file count up to that number. On a fault-free disk
    whose files are numbered without gap it removes exactly the files beyond
    the layout and keeps the others; when the first index beyond the layout
    is missing it fails with the deletion error and removes nothing. *)
Theorem removeRedundantFiles_removes_tail (env : Env) (layout : filesLayout) (s : State) :
  no_faults env ->
  let numFiles := Z.of_nat (size (labelFiles (disk s))) in
  let keep := int (NumFiles layout) in
  0 <= keep ->
  ((forall j, 0 <= j < numFiles -> is_Some (labelFiles (disk s) !! j)) ->
   fst (removeRedundantFiles env layout s) = Val tt /\
   (forall j, keep <= j < numFiles ->
      labelFiles (disk (snd (removeRedundantFiles env layout s))) !! j = None) /\
   (forall j, ~ (keep <= j < numFiles) ->
      labelFiles (disk (snd (removeRedundantFiles env layout s))) !! j
      = labelFiles (disk s) !! j)) /\
  (keep < numFiles -> labelFiles (disk s) !! keep = None ->
   fst (removeRedundantFiles env layout s)
     = Err (ErrDeleteFile (InitFile keep) (ErrIO (OpRemove (InitFile keep)))) /\
   disk (snd (removeRedundantFiles env layout s)) = disk s).
Proof.
  intros Hnf numFiles keep Hkeep.
  assert (Hcount : diskState_NumFilesWritten env s =
            (Val numFiles,
             {| init := init s; disk := disk s;
                trace := trace s ++ [OpDiskNumFilesWritten] |})).
  { unfold diskState_NumFilesWritten.
    rewrite (bind_val _ _ _ _ _ (io_ok env Hnf _ s)). reflexivity. }
  unfold removeRedundantFiles. rewrite (bind_val _ _ _ _ _ Hcount). fold keep.
  split.
  - intros Hex.
    match goal with |- context [removeRedundantFiles_loop env ?n keep ?st] =>
      destruct (removeRedundantFiles_loop_removes env Hnf n keep st) as
        (s' & Hs' & _ & _ & Hin & Hout) end.
    { intros j Hj. cbn. apply Hex. lia. }
    rewrite Hs'. cbn [fst snd]. split; [reflexivity |]. split.
    + intros j Hj. apply Hin. lia.
    + intros j Hj. rewrite Hout by lia. reflexivity.
  - intros Hlt Hmissing.
    replace (Z.to_nat (numFiles - keep)) with (S (Z.to_nat (numFiles - keep - 1))) by lia.
    cbn [removeRedundantFiles_loop].
    erewrite bind_err.
    2:{ rewrite (RemoveFile_InitFile env Hnf). cbn [disk]. rewrite Hmissing. reflexivity. }
    split; reflexivity.
Qed.

Lemma removeRedundantFiles_removes_tail_witness :
  fst (removeRedundantFiles quiet_env one_file_layout written_state) = Val tt /\
  labelFiles (disk (snd (removeRedundantFiles quiet_env one_file_layout written_state))) !! 1
    = None /\
  labelFiles (disk (snd (removeRedundantFiles quiet_env one_file_layout written_state))) !! 0
    = labelFiles (disk written_state) !! 0.
Proof.
  pose proof (removeRedundantFiles_removes_tail quiet_env one_file_layout written_state
                (fun _ _ => eq_refl) ltac:(vm_compute; discriminate)) as [Hall _].
  destruct Hall as (Hres & Hgone & Hkept).
  { intros j Hj. change (Z.of_nat (size (labelFiles (disk written_state)))) with 2 in Hj.
    assert (Hcases : j = 0 \/ j = 1) by lia.
    destruct Hcases as [-> | ->]; eexists; reflexivity. }
  split; [exact Hres |]. split.
  - apply Hgone. vm_compute. split; [discriminate | reflexivity].
  - apply Hkept. vm_compute. intros [H _]. apply H. reflexivity.
Defined.

(** ** A directory that is already complete *)

Lemma Initialize_files_complete env (Hnf : no_faults env) fuel wo layout batchSize difficulty n :
  forall i s,
    (forall idx, i <= idx < i + Z.of_nat n ->
       NumLabels (Z.of_nat (length (fileBytes (disk s) idx))) = fileTarget layout idx) ->
    exists s',
      Initialize_files env fuel wo layout batchSize difficulty n i s = (Val tt, s') /\
      (forall j, fileBytes (disk s') j = fileBytes (disk s) j) /\
      metadataFile (disk s') = metadataFile (disk s) /\
      nonce (init s') = nonce (init s) /\
      mtx (init s') = mtx (init s) /\
      adds_only inspects s s'.
Proof.
  induction n as [| n IH]; intros i s Hall.
  - exists s. split; [reflexivity |]. repeat split; auto. apply adds_only_refl.
  - cbn [Initialize_files]. fold (fileTarget layout i).
    rewrite (bind_val _ _ _ _ _
               (initFile_complete env Hnf fuel wo i batchSize _ _ difficulty s
                  (Hall i ltac:(lia)))).
    match goal with |- context [Initialize_files env fuel wo layout batchSize difficulty n
                                  (i + 1) ?st] => set (s1 := st) end.
    assert (Hsame : forall j, fileBytes (disk s1) j = fileBytes (disk s) j).
    { intros j. unfold s1, fileBytes. cbn. destruct (decide (i = j)) as [-> | Hne].
      - rewrite lookup_insert_eq. reflexivity.
      - rewrite lookup_insert_ne by exact Hne. reflexivity. }
    destruct (IH (i + 1) s1) as (s' & Hs' & Hf & Hm & Hn & Hx & Ha).
    { intros idx Hidx. rewrite Hsame. apply Hall. lia. }
    exists s'. split; [exact Hs' |]. split; [| split; [| split; [| split]]].
    + intros j. rewrite Hf. apply Hsame.
    + rewrite Hm. reflexivity.
    + rewrite Hn. reflexivity.
    + rewrite Hx. reflexivity.
    + eapply adds_only_trans; [| exact Ha].
      eexists. split; [reflexivity |]. repeat constructor.
Qed.

(** X16: [Initialize] on a directory that is complete (every file of the layout
    holds its target, no file lies beyond the layout) with a nonce retained
    is a no-op: on a fault-free disk it returns without error, calls the
    oracle for no position, writes, truncates, saves and removes nothing,
    and leaves every file, the metadata record and the nonce as they were. *)
Theorem Initialize_completed_is_noop (env : Env) (fuel : nat) (s : State) (n : Z) :
  no_faults env ->
  mtx (init s) = false ->
  nonce (init s) = Some n ->
  let layout := deriveFilesLayout env (cfg (init s)) (opts (init s)) in
  Z.of_nat (size (labelFiles (disk s))) <= int (NumFiles layout) ->
  (forall idx, 0 <= idx < int (NumFiles layout) ->
     NumLabels (Z.of_nat (length (fileBytes (disk s) idx))) = fileTarget layout idx) ->
  let run := Initialize env fuel s in
  fst run = Val tt /\
  (forall j, fileBytes (disk (snd run)) j = fileBytes (disk s) j) /\
  metadataFile (disk (snd run)) = metadataFile (disk s) /\
  nonce (init (snd run)) = Some n /\
  mtx (init (snd run)) = false /\
  adds_only inspects s (snd run).
Proof.
  intros Hnf Hm Hn layout Hsize Hall run.
  set (s0 := with_init (set_mtx true) s).
  set (s1 := {| init := init s0; disk := disk s0;
                trace := trace s0 ++ [OpDiskNumFilesWritten] |}).
  assert (Hrm : removeRedundantFiles env layout s0 = (Val tt, s1)).
  { unfold removeRedundantFiles, diskState_NumFilesWritten.
    erewrite bind_val.
    2:{ rewrite (bind_val _ _ _ _ _ (io_ok env Hnf _ s0)). rewrite bind_get. reflexivity. }
    replace (Z.to_nat _) with O by (cbn [s0 with_init disk]; lia). reflexivity. }
  set (numLabels := uint64 (config.NumUnits (opts (init s))
                            * config.LabelsPerUnit (cfg (init s)))).
  set (difficulty := powDifficultyFunc (init s) numLabels).
  set (wo := work_oracle env (config.ProviderID (opts (init s))) (commitment (init s))
               difficulty).
  set (s2 := {| init := init s1; disk := disk s1;
                trace := trace s1 ++ [OpOracleNew (config.ProviderID (opts (init s)))
                                        (commitment (init s)) difficulty] |}).
  assert (Hnew : oracle_New env (config.ProviderID (opts (init s))) (commitment (init s))
                   difficulty s1 = (Val wo, s2)).
  { unfold oracle_New. rewrite (bind_val _ _ _ _ _ (io_ok env Hnf _ s1)). reflexivity. }
  destruct (Initialize_files_complete env Hnf fuel wo layout
              (config.ComputeBatchSize (opts (init s))) difficulty
              (Z.to_nat (int (NumFiles layout))) 0 s2) as
    (s3 & Hs3 & Hf & Hmeta & Hnonce & Hmtx & Hadds).
  { intros idx Hidx. apply Hall. lia. }
  assert (Hfin : Initialize_finish env fuel wo (config.ComputeBatchSize (opts (init s)))
                   numLabels s3 = (Val tt, s3)).
  { unfold Initialize_finish. rewrite bind_get, Hnonce. cbn. rewrite Hn. reflexivity. }
  assert (Hbody : Initialize_body env fuel s0 =
                  (Val tt, {| init := init s3; disk := disk s3;
                              trace := trace s3 ++ [OpOracleClose] |})).
  { unfold Initialize_body. rewrite bind_get.
    change (deriveFilesLayout env (cfg (init s0)) (opts (init s0))) with layout.
    rewrite (bind_val _ _ _ _ _ Hrm).
    change (opts (init s0)) with (opts (init s)).
    change (cfg (init s0)) with (cfg (init s)).
    change (commitment (init s0)) with (commitment (init s)).
    change (powDifficultyFunc (init s0)) with (powDifficultyFunc (init s)).
    fold numLabels. fold difficulty.
    rewrite (bind_val _ _ _ _ _ Hnew).
    erewrite defer_val.
    2:{ rewrite (bind_val _ _ _ _ _ Hs3). exact Hfin. }
    reflexivity. }
  unfold run, Initialize.
  rewrite (bind_val _ _ _ _ _ (TryLock_free s Hm)). cbn [negb].
  rewrite (defer_val _ _ _ _ _ Hbody). cbn [fst snd Unlock modify with_init init disk trace].
  split; [reflexivity |]. split; [exact Hf |]. split; [exact Hmeta |].
  split; [cbn; rewrite Hnonce; exact Hn |]. split; [reflexivity |].
  destruct Hadds as (rest & Ht & Hall').
  exists ([OpDiskNumFilesWritten;
           OpOracleNew (config.ProviderID (opts (init s))) (commitment (init s)) difficulty]
          ++ rest ++ [OpOracleClose]).
  split.
  - cbn [trace]. rewrite Ht. cbn [s2 s1 s0 trace with_init]. rewrite <- !app_assoc. reflexivity.
  - apply Forall_app. split; [repeat constructor |].
    apply Forall_app. split; [exact Hall' | repeat constructor].
Qed.

Lemma Initialize_completed_is_noop_witness :
  fst (Initialize quiet_env 3 completed_state) = Val tt /\
  metadataFile (disk (snd (Initialize quiet_env 3 completed_state)))
    = Some (sample_metadata 1) /\
  adds_only inspects completed_state (snd (Initialize quiet_env 3 completed_state)).
Proof.
  pose proof (Initialize_completed_is_noop quiet_env 3 completed_state 1
                (fun _ _ => eq_refl) eq_refl eq_refl
                ltac:(vm_compute; discriminate)) as H.
  destruct H as (Hres & _ & Hmeta & _ & _ & Hadds).
  { intros idx Hidx. change (int (NumFiles (deriveFilesLayout quiet_env
                                              (cfg (init completed_state))
                                              (opts (init completed_state))))) with 2 in Hidx.
    assert (Hcases : idx = 0 \/ idx = 1) by lia.
    destruct Hcases as [-> | ->]; reflexivity. }
  split; [exact Hres |]. split; [exact Hmeta | exact Hadds].
Defined.

(** ** Initializers built from the package's options *)

Lemma package_option_ids_sized f o o' :
  package_option f -> ids_sized o -> f o = inr o' -> ids_sized o'.
Proof.
  intros Hf Hs Ho. destruct Hf.
  - unfold WithNodeId in Ho.
    destruct (Z.eqb_spec (Z.of_nat (length b)) 32) as [Hlen |]; [| discriminate].
    cbn in Ho. inversion Ho; subst. intros b' [Hb' | Hb']; cbn in Hb'.
    + inversion Hb'; subst. lia.
    + apply Hs. right. exact Hb'.
  - unfold WithCommitmentAtxId in Ho.
    destruct (Z.eqb_spec (Z.of_nat (length b)) 32) as [Hlen |]; [| discriminate].
    cbn in Ho. inversion Ho; subst. intros b' [Hb' | Hb']; cbn in Hb'.
    + apply Hs. left. exact Hb'.
    + inversion Hb'; subst. lia.
  - inversion Ho; subst. exact Hs.
  - inversion Ho; subst. exact Hs.
  - inversion Ho; subst. exact Hs.
  - destruct f; inversion Ho; subst. exact Hs.
Qed.

Lemma applyOptions_ids_sized fs : forall o o',
  Forall package_option fs -> ids_sized o -> applyOptions fs o = inr o' -> ids_sized o'.
Proof.
  induction fs as [| f fs IH]; intros o o' Hfs Ho Happ.
  - inversion Happ; subst. exact Ho.
  - inversion Hfs; subst. cbn [applyOptions] in Happ.
    destruct (f o) as [e | o1] eqn:Hf; [discriminate |].
    apply (IH o1); [assumption | | assumption].
    eapply package_option_ids_sized; eassumption.
Qed.

Lemma validate_inr env o i :
  validate env o = inr i ->
  options.nodeId o = Some (nodeId i) /\
  options.commitmentAtxId o = Some (commitmentAtxId i) /\
  commitment i = CommitmentBytes env (nodeId i) (commitmentAtxId i) /\
  config_Validate env (cfg i) (opts i) = None /\
  nonce i = None /\ lastPosition i = None /\ mtx i = false.
Proof.
  unfold validate. intros H.
  destruct (options.nodeId o) as [nid |]; [| discriminate].
  destruct (options.commitmentAtxId o) as [cid |]; [| discriminate].
  destruct (options.cfg o) as [c |]; [| discriminate].
  destruct (options.initOpts o) as [io |]; [| discriminate].
  destruct (config_Validate env c io) eqn:Hv; [discriminate |].
  inversion H; subst. cbn. repeat split; assumption.
Qed.

(** X17: Whenever [NewInitializer], called with option functions of the package,
    gets as far as an instance (whatever the resumption then returns), the
    node id and the commitment reference of that instance have 32 bytes, its
    commitment is the one derived from the two, and its configuration and
    options passed [config.Validate]. *)
Theorem NewInitializer_ids_have_32_bytes (env : Env) (fs : list OptionFunc)
    (d : Disk) (t : list Op) (r : res unit) (s : State) :
  Forall package_option fs ->
  NewInitializer env fs d t = inr (r, s) ->
  length (nodeId (init s)) = 32%nat /\
  length (commitmentAtxId (init s)) = 32%nat /\
  commitment (init s) = CommitmentBytes env (nodeId (init s)) (commitmentAtxId (init s)) /\
  config_Validate env (cfg (init s)) (opts (init s)) = None.
Proof.
  intros Hfs H. unfold NewInitializer in H.
  match type of H with context [applyOptions fs ?o0] => set (o0' := o0) in H end.
  destruct (applyOptions fs o0') as [e | o] eqn:Happ; [discriminate |].
  destruct (validate env o) as [e | i] eqn:Hval; [discriminate |].
  inversion H as [Hrun]. clear H.
  assert (Hsized : ids_sized o).
  { apply (applyOptions_ids_sized fs o0' o Hfs); [| exact Happ].
    intros b [Hb | Hb]; discriminate Hb. }
  destruct (validate_inr env o i Hval) as (Hn & Hc & Hcm & Hv & _).
  destruct (NewInitializer_resume_keeps_config env _ _ _ Hrun)
    as (K1 & K2 & K3 & K4 & K5).
  cbn [init] in K1, K2, K3, K4, K5.
  rewrite K1, K2, K3, K4, K5.
  repeat split; auto.
Qed.

Lemma NewInitializer_ids_have_32_bytes_witness :
  match NewInitializer quiet_env (sample_options 1 2) (full_disk None) [] with
  | inr (_, s) => length (nodeId (init s)) = 32%nat /\
                  length (commitmentAtxId (init s)) = 32%nat
  | inl _ => False
  end.
Proof.
  destruct (NewInitializer quiet_env (sample_options 1 2) (full_disk None) [])
    as [e | [r s]] eqn:Hnew.
  - vm_compute in Hnew. discriminate Hnew.
  - pose proof (NewInitializer_ids_have_32_bytes quiet_env (sample_options 1 2)
                  (full_disk None) [] r s ltac:(repeat constructor) Hnew) as (H1 & H2 & _).
    split; [exact H1 | exact H2].
Defined.

(** ** The provider loop overwrites the file range *)

Lemma main_loop_ignores_range ids : forall w n e F o o',
  config.DataDir o = config.DataDir o' ->
  config.NumUnits o = config.NumUnits o' ->
  config.MaxFileSize o = config.MaxFileSize o' ->
  config.ComputeBatchSize o = config.ComputeBatchSize o' ->
  postcli.main_loop ids w n e F o = postcli.main_loop ids w n e F o'.
Proof.
  destruct ids as [| id rest]; intros w n e F o o' H1 H2 H3 H4; [reflexivity |].
  cbn [postcli.main_loop].
  match goal with |- ?a :: postcli.main_loop _ _ _ _ _ ?a' = ?b :: postcli.main_loop _ _ _ _ _ ?b' =>
    change a' with a; change b' with b; assert (Hab : a = b) end.
  { destruct o, o'. cbn in *. subst. reflexivity. }
  rewrite Hab. reflexivity.
Qed.

(** X18: The [fromFile] and [toFile] flags never reach a [do]: for two
    command lines that agree on every other flag that [parseFlags] stores
    in the configuration and the options (datadir, maxFileSize, provider,
    labelsPerUnit, numUnits), [main] holds the same configuration and
    passes the same options to every [do], because its provider loop
    overwrites both fields before each launch. *)
Theorem main_overwrites_file_flags (f f' : postcli.flags) (cfg : config.Config)
    (opts : config.InitOpts) (totalFiles : Z) :
  postcli.datadir f = postcli.datadir f' ->
  postcli.maxFileSize f = postcli.maxFileSize f' ->
  postcli.provider f = postcli.provider f' ->
  postcli.labelsPerUnit f = postcli.labelsPerUnit f' ->
  postcli.numUnits f = postcli.numUnits f' ->
  fst (postcli.parseFlags f cfg opts) = fst (postcli.parseFlags f' cfg opts) /\
  postcli.main_launches totalFiles (snd (postcli.parseFlags f cfg opts)) =
  postcli.main_launches totalFiles (snd (postcli.parseFlags f' cfg opts)).
Proof.
  intros Hd Hm Hp Hl Hn. split.
  { unfold postcli.parseFlags. cbn [fst]. rewrite Hl. reflexivity. }
  rewrite !main_launches_loop.
  assert (Hprov : forall g, config.ProviderID (snd (postcli.parseFlags g cfg opts))
                            = postcli.provider g).
  { intros g. unfold postcli.parseFlags. cbn [snd].
    destruct (negb (postcli.toFile g =? MaxInt)); reflexivity. }
  rewrite !Hprov, Hp.
  apply main_loop_ignores_range; unfold postcli.parseFlags; cbn [snd];
    destruct (negb (postcli.toFile f =? MaxInt)), (negb (postcli.toFile f' =? MaxInt));
    cbn; congruence.
Qed.

Lemma main_overwrites_file_flags_witness :
  fst (postcli.parseFlags (ranged_flags 1) sample_cfg (sample_opts 1 2))
  = fst (postcli.parseFlags (sample_flags 1) sample_cfg (sample_opts 1 2)) /\
  postcli.main_launches 2 (snd (postcli.parseFlags (ranged_flags 1) sample_cfg
                                  (sample_opts 1 2)))
  = postcli.main_launches 2 (snd (postcli.parseFlags (sample_flags 1) sample_cfg
                                    (sample_opts 1 2))).
Proof.
  apply (main_overwrites_file_flags (ranged_flags 1) (sample_flags 1) sample_cfg
           (sample_opts 1 2) 2); reflexivity.
Defined.

(** X19: With fewer files than providers ([F < N]) every provider but the last
    is launched on the empty range [[0, -1]] and the last one on all the
    files, [[0, F-1]]. *)
Theorem main_fewer_files_than_providers (F : Z) (opts : config.InitOpts) (w : nat)
    (o : config.InitOpts) :
  let N := Z.of_nat (length (strings.Split (config.ProviderID opts))) in
  0 <= F < N -> N < 2 ^ 63 ->
  postcli.main_launches F opts !! w = Some o ->
  postcli.range o = (0, if Z.of_nat w =? N - 1 then F - 1 else -1).
Proof.
  intros N HF HN Hw. rewrite main_launches_loop in Hw. fold N in Hw.
  assert (Hq : F / N = 0) by (apply Z.div_small; lia).
  rewrite Z.quot_div_nonneg in Hw by lia.
  rewrite (int_small (F / N)) in Hw by (rewrite Hq; lia).
  apply main_loop_lookup in Hw; try lia.
  destruct Hw as [Hr _]. rewrite Hr, Hq, !Z.add_0_l.
  destruct (Z.of_nat w =? N - 1); f_equal; lia.
Qed.

Lemma main_fewer_files_than_providers_witness :
  (postcli.range <$>
     postcli.main_launches 1 (config.set_ProviderID "0,1" (sample_opts 1 2)) !! 0%nat)
  = Some (0, -1).
Proof.
  destruct (postcli.main_launches 1 (config.set_ProviderID "0,1" (sample_opts 1 2)) !! 0%nat)
    as [o |] eqn:Hw.
  - cbn [fmap option_fmap option_map]. f_equal.
    apply (main_fewer_files_than_providers 1 (config.set_ProviderID "0,1" (sample_opts 1 2))
             0 o); [vm_compute; split; [discriminate | reflexivity] | reflexivity | exact Hw].
  - vm_compute in Hw. discriminate Hw.
Defined.
